(** * JPS pipeline: the pure logic layer of [js/logic.js]

    A shallow embedding of the testable functions of the deal pipeline
    ([validatePropertyData], [getFiltered], [parseBlock], [exportCSVString],
    [validateImportData], [computeSpread]) and of the helpers around them
    ([sanitizeInput], [normalizeProperties], [computeStats],
    [computeCountyCounts], [computeTypeCounts], [checkDuplicateProperty],
    [validatePin]), together with the fragment of JavaScript they rely on.

    Conventions of the embedding.
    - A JavaScript value is a primitive ([prim]) or a reference into a heap
      of arrays and plain objects.  Record fields hold primitives, as in the
      data model of the application (strings, numbers, [null]).
    - An abrupt completion is explicit: every operation that can raise a
      [TypeError] returns a [completion].
    - Numbers are the extended rationals: [NaN], the two infinities and exact
      finite values.  The parser rounds what it reads and multiplies to the
      nearest double, as [parseInt], [parseFloat] and [*] do; differences
      and the counters, which stay whole and small, are exact.
    - Strings are sequences of 8-bit characters with the ASCII case mapping
      and the ASCII white-space class.
    - Built-ins whose result is decided by the host ([Number::toString],
      the [URL] parser, the clock) are fields of a [Platform] record; the
      text of a built-in function and the order in which [sort] leaves a
      list that its comparator cannot order are fields of a [Builtins]
      record.
    - Where [normalizeProperties] meets a value that this fragment does not
      describe (a named field on an array), its embedding answers
      [None]. *)

From Stdlib Require Import ZArith QArith Qround Qabs Ascii String List Bool Lia.
From Stdlib Require Import Sorted.
From Stdlib Require OrderedTypeEx.
From stdpp Require Import gmap strings list fin_maps.

Local Open Scope string_scope.
Local Open Scope list_scope.
Local Open Scope Z_scope.

(** ** Characters and strings *)

Module JsString.

Definition code (c : ascii) : N := N_of_ascii c.

Definition isDigit (c : ascii) : bool :=
  (48 <=? code c)%N && (code c <=? 57)%N.

Definition isUpper (c : ascii) : bool :=
  (65 <=? code c)%N && (code c <=? 90)%N.

Definition isLower (c : ascii) : bool :=
  (97 <=? code c)%N && (code c <=? 122)%N.

Definition isAlpha (c : ascii) : bool := isUpper c || isLower c.

(** [\s]: tab, line feed, vertical tab, form feed, carriage return, space. *)
Definition isWhiteSpace (c : ascii) : bool :=
  ((9 <=? code c)%N && (code c <=? 13)%N) || (code c =? 32)%N.

Definition lowerChar (c : ascii) : ascii :=
  if isUpper c then ascii_of_N (code c + 32) else c.

Definition eqChar (a b : ascii) : bool := (code a =? code b)%N.

(** Character equality under the [i] flag. *)
Definition eqCharCI (a b : ascii) : bool := eqChar (lowerChar a) (lowerChar b).

Definition isEmpty (s : string) : bool :=
  match s with EmptyString => true | String _ _ => false end.

Fixpoint toLowerCase (s : string) : string :=
  match s with
  | EmptyString => EmptyString
  | String c r => String (lowerChar c) (toLowerCase r)
  end.

(** Longest prefix of characters in a class, and what follows it: the
    greedy reading of [[class]*]. *)
Fixpoint span (p : ascii -> bool) (s : string) : string * string :=
  match s with
  | EmptyString => (EmptyString, EmptyString)
  | String c r =>
      if p c then let '(a, b) := span p r in (String c a, b)
      else (EmptyString, s)
  end.

Fixpoint trimStart (s : string) : string :=
  match s with
  | EmptyString => EmptyString
  | String c r => if isWhiteSpace c then trimStart r else s
  end.

Fixpoint trimEnd (s : string) : string :=
  match s with
  | EmptyString => EmptyString
  | String c r =>
      let t := trimEnd r in
      if isEmpty t && isWhiteSpace c then EmptyString else String c t
  end.

Definition trim (s : string) : string := trimEnd (trimStart s).

(** A literal at the head of [s]; the remainder on success. *)
Fixpoint stripPrefix (lit s : string) : option string :=
  match lit, s with
  | EmptyString, _ => Some s
  | String a l, String b r => if eqChar a b then stripPrefix l r else None
  | String _ _, EmptyString => None
  end.

Fixpoint stripPrefixCI (lit s : string) : option string :=
  match lit, s with
  | EmptyString, _ => Some s
  | String a l, String b r => if eqCharCI a b then stripPrefixCI l r else None
  | String _ _, EmptyString => None
  end.

(** Leftmost match: the matcher is tried at every position in turn. *)
Fixpoint findFirst {A} (m : string -> option A) (s : string) : option A :=
  match m s with
  | Some a => Some a
  | None =>
      match s with
      | EmptyString => None
      | String _ r => findFirst m r
      end
  end.

(** [String.prototype.includes]. *)
Definition includes (needle hay : string) : bool :=
  match findFirst (stripPrefix needle) hay with
  | Some _ => true
  | None => false
  end.

(** [s.replace(re, '')] for a regular expression without the [g] flag:
    the leftmost match is deleted. *)
Fixpoint removeFirst (m : string -> option string) (s : string) : string :=
  match m s with
  | Some rest => rest
  | None =>
      match s with
      | EmptyString => EmptyString
      | String c r => String c (removeFirst m r)
      end
  end.

(** [s.split(sep)] for a one-character separator. *)
Fixpoint split (sep : ascii) (s : string) : list string :=
  match s with
  | EmptyString => [EmptyString]
  | String c r =>
      if eqChar c sep then EmptyString :: split sep r
      else
        match split sep r with
        | w :: ws => String c w :: ws
        | [] => [String c EmptyString]
        end
  end.

(** The double-quote character (code 34). *)
Definition dquote : ascii := "034"%char.

(** [s.replace(re, two quotes)] where [re] is the global pattern of one
    double quote: every double quote is doubled. *)
Fixpoint doubleQuotes (s : string) : string :=
  match s with
  | EmptyString => EmptyString
  | String c r =>
      if eqChar c dquote then String c (String c (doubleQuotes r))
      else String c (doubleQuotes r)
  end.

Fixpoint count (p : ascii -> bool) (s : string) : nat :=
  match s with
  | EmptyString => O
  | String c r => (if p c then 1 else 0)%nat + count p r
  end.

Fixpoint digitsValue (acc : Z) (s : string) : Z :=
  match s with
  | EmptyString => acc
  | String c r => digitsValue (10 * acc + (Z.of_N (code c) - 48)) r
  end.

Definition allChars (p : ascii -> bool) (s : string) : bool :=
  isEmpty (snd (span p s)).

End JsString.

(** ** Numbers *)

Module JsNumber.

Inductive num :=
| NaN
| PosInf
| NegInf
| Fin (q : Q).

Definition ofZ (z : Z) : num := Fin (inject_Z z).

(** [x < y] on numbers; any comparison with [NaN] is false. *)
Definition lt (a b : num) : bool :=
  match a, b with
  | NaN, _ | _, NaN => false
  | PosInf, _ => false
  | _, PosInf => true
  | _, NegInf => false
  | NegInf, Fin _ => true
  | Fin x, Fin y => negb (Qle_bool y x)
  end.

(** Numeric equality: [NaN] differs from everything, itself included. *)
Definition eqb (a b : num) : bool :=
  match a, b with
  | PosInf, PosInf | NegInf, NegInf => true
  | Fin x, Fin y => Qeq_bool x y
  | _, _ => false
  end.

Definition isNaN (a : num) : bool :=
  match a with NaN => true | _ => false end.

Definition sub (a b : num) : num :=
  match a, b with
  | NaN, _ | _, NaN => NaN
  | PosInf, PosInf | NegInf, NegInf => NaN
  | PosInf, _ => PosInf
  | NegInf, _ => NegInf
  | Fin _, PosInf => NegInf
  | Fin _, NegInf => PosInf
  | Fin x, Fin y => Fin (Qred (x - y))
  end.

(** [Math.round]: the nearest integer, halves towards plus infinity. *)
Definition round (a : num) : num :=
  match a with
  | Fin q => ofZ (Qfloor (q + (1 # 2)))
  | _ => a
  end.

(** The value of a decimal literal [intPart.fracPart]. *)
Definition decimal (intPart fracPart : string) : Q :=
  let scale := 10 ^ Z.of_nat (String.length fracPart) in
  Qred (Qmake (JsString.digitsValue 0 intPart * scale
               + JsString.digitsValue 0 fracPart)
              (Z.to_pos scale)).

Definition scale10 (q : Q) (e : Z) : Q :=
  if 0 <=? e then Qred (q * inject_Z (10 ^ e))
  else Qred (q / inject_Z (10 ^ (- e))).

Import JsString.

Definition isHexDigit (c : ascii) : bool :=
  isDigit c || ((97 <=? code (lowerChar c))%N && (code (lowerChar c) <=? 102)%N).

Definition hexDigitValue (c : ascii) : Z :=
  if isDigit c then Z.of_N (code c) - 48 else Z.of_N (code (lowerChar c)) - 87.

Fixpoint radixValue (radix acc : Z) (s : string) : Z :=
  match s with
  | EmptyString => acc
  | String c r => radixValue radix (radix * acc + hexDigitValue c) r
  end.

Definition radixLiteral (radix : Z) (s : string) : num :=
  if negb (isEmpty s)
     && allChars (fun c => isHexDigit c && (hexDigitValue c <? radix)) s
  then ofZ (radixValue radix 0 s)
  else NaN.

(** The exponent part of a decimal literal, and whether [s] is one. *)
Definition exponentPart (s : string) : option Z :=
  match s with
  | EmptyString => Some 0
  | String c r =>
      if eqCharCI c "e" then
        let '(neg, ds) :=
          match r with
          | String "-" d => (true, d)
          | String "+" d => (false, d)
          | _ => (false, r)
          end in
        if negb (isEmpty ds) && allChars isDigit ds
        then Some (if neg then - digitsValue 0 ds else digitsValue 0 ds)
        else None
      else None
  end.

Definition unsignedDecimal (s : string) : option Q :=
  let '(d1, r1) := span isDigit s in
  let '(hasDot, r2) :=
    match r1 with
    | String "." r => (true, r)
    | _ => (false, r1)
    end in
  let '(d2, r3) := if hasDot then span isDigit r2 else (EmptyString, r2) in
  if isEmpty d1 && isEmpty d2 then None
  else
    match exponentPart r3 with
    | Some e => Some (scale10 (decimal d1 d2) e)
    | None => None
    end.

Definition signedDecimal (s : string) : num :=
  let '(neg, body) :=
    match s with
    | String "-" r => (true, r)
    | String "+" r => (false, r)
    | _ => (false, s)
    end in
  if String.eqb body "Infinity" then (if neg then NegInf else PosInf)
  else
    match unsignedDecimal body with
    | Some q => Fin (if neg then Qred (- q) else q)
    | None => NaN
    end.

(** [StringToNumber]: the numeric value of a string, [NaN] when the
    string is not a numeric literal. *)
Definition ofString (s : string) : num :=
  let t := trim s in
  match t with
  | EmptyString => ofZ 0
  | String "0" (String x r) =>
      if eqCharCI x "x" then radixLiteral 16 r
      else if eqCharCI x "o" then radixLiteral 8 r
      else if eqCharCI x "b" then radixLiteral 2 r
      else signedDecimal t
  | _ => signedDecimal t
  end.

End JsNumber.

(** ** Values, heap and completions *)

Module JsValue.

Export JsNumber.

Inductive prim :=
| PUndef
| PNull
| PBool (b : bool)
| PNum (n : num)
| PStr (s : string).

Abbreviation loc := positive.

Inductive val :=
| VPrim (p : prim)
| VRef (l : loc).

(** A heap cell is a plain object (field name to primitive) or an array. *)
Inductive cell :=
| CObj (fields : gmap string prim)
| CArr (elems : list val).

Abbreviation heap := (gmap loc cell).

Inductive exn : Set := TypeError.

Inductive completion (A : Type) :=
| Normal (a : A)
| Throw (e : exn).
Arguments Normal {A} a.
Arguments Throw {A} e.

Definition bind {A B} (m : completion A) (f : A -> completion B)
  : completion B :=
  match m with
  | Normal a => f a
  | Throw e => Throw e
  end.

Notation "'let*' x ':=' m 'in' k" := (bind m (fun x => k))
  (at level 10, x pattern, m at level 100, k at level 200).

Definition returns {A} (c : completion A) : Prop :=
  match c with Normal _ => True | Throw _ => False end.

(** [ToBoolean]. *)
Definition truthy (p : prim) : bool :=
  match p with
  | PUndef | PNull => false
  | PBool b => b
  | PNum n => negb (isNaN n || eqb n (ofZ 0))
  | PStr s => negb (JsString.isEmpty s)
  end.

(** [p == null]. *)
Definition isNullish (p : prim) : bool :=
  match p with PUndef | PNull => true | _ => false end.

(** [a === b]. *)
Definition strictEq (a b : prim) : bool :=
  match a, b with
  | PUndef, PUndef | PNull, PNull => true
  | PBool x, PBool y => Bool.eqb x y
  | PNum x, PNum y => eqb x y
  | PStr x, PStr y => String.eqb x y
  | _, _ => false
  end.

(** [SameValueZero], the key equality of [Set]: as [===] except that
    [NaN] equals itself. *)
Definition sameValueZero (a b : prim) : bool :=
  match a, b with
  | PNum x, PNum y => (isNaN x && isNaN y) || eqb x y
  | _, _ => strictEq a b
  end.

Definition isString (p : prim) : bool :=
  match p with PStr _ => true | _ => false end.

(** [ToNumber]. *)
Definition toNumber (p : prim) : num :=
  match p with
  | PUndef => NaN
  | PNull => ofZ 0
  | PBool b => ofZ (if b then 1 else 0)
  | PNum n => n
  | PStr s => ofString s
  end.

(** [a < b]: two strings compare by code units, anything else by
    numeric value. *)
Definition lessThan (a b : prim) : bool :=
  match a, b with
  | PStr x, PStr y => String.ltb x y
  | _, _ => lt (toNumber a) (toNumber b)
  end.

Definition greaterThan (a b : prim) : bool := lessThan b a.

(** [a - b]. *)
Definition subtract (a b : prim) : prim :=
  PNum (sub (toNumber a) (toNumber b)).

(** [a || b]. *)
Definition orElse (a b : prim) : prim := if truthy a then a else b.

(** [v[key]] for [key] one of the record's field names (none of them is
    a property of a built-in prototype): reading a property of
    [undefined] or [null] raises, a primitive or an array has no such
    field. *)
Definition getProp (h : heap) (v : val) (key : string) : completion prim :=
  match v with
  | VPrim PUndef | VPrim PNull => Throw TypeError
  | VPrim _ => Normal PUndef
  | VRef l =>
      match h !! l with
      | Some (CObj fields) => Normal (default PUndef (fields !! key))
      | _ => Normal PUndef
      end
  end.

(** Calling a [String.prototype] method on a value that has none. *)
Definition asString (p : prim) : completion string :=
  match p with
  | PStr s => Normal s
  | _ => Throw TypeError
  end.

(** [Array.isArray]. *)
Definition arrayElems (h : heap) (v : val) : option (list val) :=
  match v with
  | VRef l =>
      match h !! l with
      | Some (CArr elems) => Some elems
      | _ => None
      end
  | VPrim _ => None
  end.

(** Allocation of a new array. *)
Definition allocArray (h : heap) (elems : list val) : heap * loc :=
  let l := fresh (dom h) in (<[l := CArr elems]> h, l).

(** What the host decides. *)
Record Platform := {
  numberToString : num -> string;
  urlParses : string -> bool;
  elapsedDays : prim -> num
}.

(** [ToString]. *)
Definition toString (P : Platform) (p : prim) : string :=
  match p with
  | PUndef => "undefined"
  | PNull => "null"
  | PBool true => "true"
  | PBool false => "false"
  | PNum n => numberToString P n
  | PStr s => s
  end.

(** How [Array.prototype.join] renders an element. *)
Definition joinItem (P : Platform) (p : prim) : string :=
  if isNullish p then "" else toString P p.

End JsValue.

Import JsString JsValue.

(** ** The query engine: [getFiltered] *)

Inductive SortField :=
| SFaddress | SFcity | SFcounty | SFtype | SFbeds
| SFbaths | SFasking | SFarv | SFstage | SFdateAdded.

Definition sortKey (f : SortField) : string :=
  match f with
  | SFaddress => "address" | SFcity => "city" | SFcounty => "county"
  | SFtype => "type" | SFbeds => "beds" | SFbaths => "baths"
  | SFasking => "asking" | SFarv => "arv" | SFstage => "stage"
  | SFdateAdded => "dateAdded"
  end.

Record QueryOptions := {
  currentFilter : string;
  countyFilter : prim;
  typeFilter : prim;
  searchTerm : string;
  sortField : SortField;
  sortDirection : string
}.

(** The defaults of the destructured parameter. *)
Definition defaultOptions : QueryOptions := {|
  currentFilter := "all";
  countyFilter := PNull;
  typeFilter := PNull;
  searchTerm := "";
  sortField := SFdateAdded;
  sortDirection := "desc"
|}.

(** [Array.prototype.filter] with a callback that may raise. *)
Fixpoint filterM (p : val -> completion bool) (l : list val)
  : completion (list val) :=
  match l with
  | [] => Normal []
  | x :: r =>
      let* keep := p x in
      let* rest := filterM p r in
      Normal (if keep then x :: rest else rest)
  end.

(** [Array.prototype.sort] as a stable insertion sort.  Elements that are
    [undefined] go last and never reach the comparator; each other element
    is inserted into the part already sorted, the comparator being called
    with the new element first (the argument order of V8); an exception of
    the comparator ends the sort. *)
Section ArraySort.

Variable compareFn : val -> val -> completion Z.

(** [placed] is the sorted part, last element first. *)
Fixpoint insertSorted (x : val) (placed : list val) : completion (list val) :=
  match placed with
  | [] => Normal [x]
  | y :: r =>
      let* c := compareFn x y in
      if c <? 0 then let* r' := insertSorted x r in Normal (y :: r')
      else Normal (x :: placed)
  end.

Fixpoint insertAll (todo placed : list val) : completion (list val) :=
  match todo with
  | [] => Normal placed
  | x :: t => let* placed' := insertSorted x placed in insertAll t placed'
  end.

Definition isUndefined (v : val) : bool :=
  match v with VPrim PUndef => true | _ => false end.

Definition arraySort (l : list val) : completion (list val) :=
  let* placed := insertAll (List.filter (fun v => negb (isUndefined v)) l) [] in
  Normal (rev placed ++ List.filter isUndefined l).

End ArraySort.

Section GetFiltered.

Variable h : heap.
Variable o : QueryOptions.

(** [p.stage === name]. *)
Definition stageIs (p : val) (name : string) : completion bool :=
  let* s := getProp h p "stage" in Normal (strictEq s (PStr name)).

Definition stageOk (p : val) : completion bool :=
  let stageIs := stageIs p in
  if String.eqb (currentFilter o) "all" then Normal true
  else if String.eqb (currentFilter o) "ready" then stageIs "Ready to Blast"
  else if String.eqb (currentFilter o) "new" then stageIs "New"
  else if String.eqb (currentFilter o) "hold" then stageIs "On Hold"
  else if String.eqb (currentFilter o) "high" then stageIs "Too High"
  else if String.eqb (currentFilter o) "sold" then stageIs "Sold"
  else Normal false.

(** [!filter || p[key] === filter]. *)
Definition fieldOk (filter : prim) (key : string) (p : val) : completion bool :=
  if negb (truthy filter) then Normal true
  else let* v := getProp h p key in Normal (strictEq v filter).

(** [p[key].toLowerCase().includes(searchLower)]. *)
Definition fieldIncludes (searchLower : string) (v : prim) : completion bool :=
  let* s := asString v in Normal (includes searchLower (toLowerCase s)).

Definition searchOk (p : val) : completion bool :=
  let searchLower := toLowerCase (searchTerm o) in
  if isEmpty (searchTerm o) then Normal true
  else
    let* a := getProp h p "address" in
    let* inAddress := fieldIncludes searchLower a in
    if inAddress then Normal true
    else
      let* c := getProp h p "city" in
      let* inCity := fieldIncludes searchLower c in
      if inCity then Normal true
      else
        let* k := getProp h p "county" in
        let* inCounty := (if truthy k then fieldIncludes searchLower k
                          else Normal false) in
        if inCounty then Normal true
        else
          let* n := getProp h p "notes" in
          if truthy n then fieldIncludes searchLower n else Normal false.

(** The callback of [properties.filter]: the four tests are all
    evaluated, then combined. *)
Definition keeps (p : val) : completion bool :=
  let* s := stageOk p in
  let* c := fieldOk (countyFilter o) "county" p in
  let* t := fieldOk (typeFilter o) "type" p in
  let* q := searchOk p in
  Normal (s && c && t && q).

Definition ascending : bool := String.eqb (sortDirection o) "asc".

(** The stand-in for a missing key. *)
Definition missingKey : prim := PNum (if ascending then PosInf else NegInf).

Definition orMissing (v : prim) : prim :=
  if isNullish v || strictEq v (PStr "") then missingKey else v.

(** The callback of [f.sort]. *)
Definition sortCompare (a b : val) : completion Z :=
  let* av := getProp h a (sortKey (sortField o)) in
  let* bv := getProp h b (sortKey (sortField o)) in
  let av := orMissing av in
  let bv := orMissing bv in
  let* (av, bv) :=
    (if isString av
     then
       let* x := asString av in
       let* y := asString bv in
       Normal (PStr (toLowerCase x), PStr (toLowerCase y))
     else Normal (av, bv)) in
  Normal
    (if ascending
     then (if greaterThan av bv then 1 else if lessThan av bv then -1 else 0)
     else (if lessThan av bv then 1 else if greaterThan av bv then -1 else 0)).

End GetFiltered.

(** [getFiltered(properties, options)].  [properties.filter] builds a new
    array [f], which enters the heap when the callback has run on every
    element; [f.sort] reorders that array in place and [f] is returned.
    The heap that comes back is the one at the end of the call, also when
    the call ends with an exception; after an exception of the comparator
    [f] is unreachable and its order is left as it was. *)
Definition getFiltered (h : heap) (properties : val) (o : QueryOptions)
  : heap * completion val :=
  match arrayElems h properties with
  | None => (h, Throw TypeError)
  | Some elems =>
      match filterM (keeps h o) elems with
      | Throw e => (h, Throw e)
      | Normal kept =>
          let '(h1, f) := allocArray h kept in
          match arraySort (sortCompare h1 o) kept with
          | Throw e => (h1, Throw e)
          | Normal sorted => (<[f := CArr sorted]> h1, Normal (VRef f))
          end
      end
  end.

(** ** Double precision *)

Module JsDouble.

(** The power [2^e] for an integer [e]. *)
Definition pow2 (e : Z) : Q :=
  if 0 <=? e then inject_Z (2 ^ e) else 1 # Z.to_pos (2 ^ (- e)).

(** [floor (log2 q)] for a positive [q]. *)
Definition ilog2 (q : Q) : Z :=
  let k0 := Z.log2 (Qnum q) - Z.log2 (Zpos (Qden q)) in
  if Qle_bool (pow2 k0) q then k0 else k0 - 1.

(** The nearest integer, a tie going to the even one. *)
Definition nearestEven (q : Q) : Z :=
  let f := Qfloor q in
  match Qcompare (q - inject_Z f) (1 # 2) with
  | Lt => f
  | Gt => f + 1
  | Eq => if Z.even f then f else f + 1
  end.

(** The value of the significand [m] at the exponent [e]. *)
Definition scaled (m e : Z) : Q :=
  if 0 <=? e then inject_Z (m * 2 ^ e) else Qred (m # Z.to_pos (2 ^ (- e))).

(** The double nearest to a positive [q]: 53 bits of significand from
    the leading bit of [q] down, but no bit below [2^-1074]; what reaches
    [2^1024] is infinite. *)
Definition nearestPositive (q : Q) : num :=
  let e := Z.max (ilog2 q - 52) (-1074) in
  let m := nearestEven (q / pow2 e) in
  if 2 ^ 1024 <=? m * 2 ^ (Z.max e 0) then PosInf else Fin (scaled m e).

Definition negate (a : num) : num :=
  match a with
  | NaN => NaN
  | PosInf => NegInf
  | NegInf => PosInf
  | Fin q => Fin (Qred (- q))
  end.

(** The Number value of a real: round to nearest, ties to even. *)
Definition ofReal (q : Q) : num :=
  match Qcompare q 0 with
  | Eq => Fin 0
  | Gt => nearestPositive q
  | Lt => negate (nearestPositive (- q))
  end.

Definition sign (a : num) : comparison :=
  match a with
  | NaN => Eq
  | PosInf => Gt
  | NegInf => Lt
  | Fin q => Qcompare q 0
  end.

(** [a * b] on doubles. *)
Definition mul (a b : num) : num :=
  match a, b with
  | NaN, _ | _, NaN => NaN
  | Fin x, Fin y => ofReal (x * y)
  | _, _ =>
      match sign a, sign b with
      | Eq, _ | _, Eq => NaN
      | Gt, Gt | Lt, Lt => PosInf
      | _, _ => NegInf
      end
  end.

End JsDouble.

(** ** The deal block parser: [parseBlock] *)

Module Parser.

(** The local variables of [parseBlock]. *)
Record Locals := {
  address : string;
  city : string;
  zip : string;
  county : string;
  beds : prim;
  baths : prim;
  asking : prim;
  access : prim;
  pictures : prim;
  arv : prim;
  notes : list string
}.

Definition initial : Locals := {|
  address := ""; city := ""; zip := ""; county := "";
  beds := PNull; baths := PNull; asking := PNull;
  access := PNull; pictures := PNull; arv := PNull;
  notes := []
|}.

Definition newline : ascii := "010"%char.

Definition notComma (c : ascii) : bool := negb (eqChar c ",").

(** The group [\d+\.?\d*] at the head of [s]: integer digits, fraction
    digits and the remainder.  Each piece is followed by something it
    cannot itself match, so the greedy reading is the only one. *)
Definition decimalGroup (s : string) : option (string * string * string) :=
  let '(d1, r1) := span isDigit s in
  if isEmpty d1 then None
  else
    let r2 := match r1 with String "." r => r | _ => r1 end in
    let '(d2, r3) := span isDigit r2 in
    Some (d1, d2, r3).

(** [parseFloat] on the text of a group [\d+\.?\d*]: the double nearest
    to the decimal numeral. *)
Definition parseFloat (intPart fracPart : string) : num :=
  JsDouble.ofReal (decimal intPart fracPart).

(** [parseInt] on the text of a group [\d+]: the double nearest to the
    integer, infinite when the digits run past the range of doubles. *)
Definition parseInt (digits : string) : num :=
  JsDouble.ofReal (inject_Z (digitsValue 0 digits)).

(** [(\d+\.?\d* )\s*k] with the [i] flag, at the head of [s]; the group
    as [parseFloat] reads it. *)
Definition kNumberAt (s : string) : option num :=
  match decimalGroup s with
  | Some (d1, d2, r) =>
      match snd (span isWhiteSpace r) with
      | String c _ => if eqCharCI c "k" then Some (parseFloat d1 d2) else None
      | EmptyString => None
      end
  | None => None
  end.

Definition kNumber (line : string) : option num := findFirst kNumberAt line.

(** [Math.round(x * 1000)] for the double [x] that [parseFloat] gave: the
    product is rounded to a double before [Math.round] sees it. *)
Definition kAmount (x : num) : prim :=
  PNum (round (JsDouble.mul x (ofZ 1000))).

(** [\$?\d+\.?\d*k] with the [i] flag, at the head of [s]. *)
Definition barePriceAt (s : string) : option unit :=
  let r0 := match s with String "$" r => r | _ => s end in
  match decimalGroup r0 with
  | Some (_, _, String c _) => if eqCharCI c "k" then Some tt else None
  | _ => None
  end.

(** [(\d+)\s*(?:br|bed)] with the [i] flag, at the head of [s]; the
    group as [parseInt] reads it. *)
Definition bedAt (s : string) : option num :=
  let '(d, r) := span isDigit s in
  if isEmpty d then None
  else
    let r' := snd (span isWhiteSpace r) in
    match stripPrefixCI "br" r', stripPrefixCI "bed" r' with
    | None, None => None
    | _, _ => Some (parseInt d)
    end.

(** [(\d+\.?\d* )\s*(?:ba|bath)] with the [i] flag, at the head of [s];
    the group as [parseFloat] reads it. *)
Definition bathAt (s : string) : option num :=
  match decimalGroup s with
  | Some (d1, d2, r) =>
      let r' := snd (span isWhiteSpace r) in
      match stripPrefixCI "ba" r', stripPrefixCI "bath" r' with
      | None, None => None
      | _, _ => Some (parseFloat d1 d2)
      end
  | None => None
  end.

(** The group [(\d+[^,]+),] that opens both address patterns: the text
    before the first comma, which starts with a digit and has a second
    character; the text after that comma. *)
Definition streetGroup (line : string) : option (string * string) :=
  match span notComma line with
  | (String c (String c' g), String _ rest) =>
      if isDigit c then Some (String c (String c' g), rest) else None
  | _ => None
  end.

(** [^(\d+[^,]+),\s*([^,]+),\s*PA\s*(\d{5})?] with the [i] flag: street,
    city and ZIP code (empty when the group did not take part). *)
Definition fullAddress (line : string) : option (string * string * string) :=
  match streetGroup line with
  | Some (street, r1) =>
      match span notComma r1 with
      | (String c seg, String _ r2) =>
          match stripPrefixCI "pa" (snd (span isWhiteSpace r2)) with
          | Some r3 =>
              let r4 := snd (span isWhiteSpace r3) in
              let five := String.substring 0 5 r4 in
              let zip :=
                if (String.length five =? 5)%nat && allChars isDigit five
                then five else "" in
              Some (trim street, trim (String c seg), zip)
          | None => None
          end
      | _ => None
      end
  | None => None
  end.

(** [^(\d+[^,]+),\s*([A-Za-z\s]+)$]: street and city. *)
Definition looseAddress (line : string) : option (string * string) :=
  match streetGroup line with
  | Some (street, rest) =>
      if negb (isEmpty rest)
         && allChars (fun c => isAlpha c || isWhiteSpace c) rest
      then Some (trim street, trim rest)
      else None
  | None => None
  end.

(** [access:?] with the [i] flag, at the head of [s]. *)
Definition accessLabelAt (s : string) : option string :=
  match stripPrefixCI "access" s with
  | Some (String ":" r) => Some r
  | other => other
  end.

(** [https?:\/\/] at the head of [s]; the scheme and what follows. *)
Definition schemeAt (s : string) : option (string * string) :=
  match stripPrefix "http" s with
  | Some r =>
      let '(scheme, r1) :=
        match r with
        | String "s" r' => ("https://", r')
        | _ => ("http://", r)
        end in
      match stripPrefix "://" r1 with
      | Some r2 => Some (scheme, r2)
      | None => None
      end
  | None => None
  end.

(** [(https?:\/\/[^\s]+)] at the head of [s]. *)
Definition urlAt (s : string) : option string :=
  match schemeAt s with
  | Some (scheme, r) =>
      let run := fst (span (fun c => negb (isWhiteSpace c)) r) in
      if isEmpty run then None else Some (String.append scheme run)
  | None => None
  end.

Definition isSome {A} (x : option A) : bool :=
  match x with Some _ => true | None => false end.

(** The rules of the loop body in their order.  A rule returns the new
    locals when it ends the iteration ([continue]), [None] when control
    goes on to the next rule. *)
Section Rules.

Variable st : Locals.
Variable line : string.

Definition lower : string := toLowerCase line.

Definition withAddress (a c z : string) : Locals :=
  {| address := a; city := c; zip := z; county := county st;
     beds := beds st; baths := baths st; asking := asking st;
     access := access st; pictures := pictures st; arv := arv st;
     notes := notes st |}.

Definition addressRule : option Locals :=
  if isEmpty (address st) then
    match fullAddress line with
    | Some (a, c, z) => Some (withAddress a c z)
    | None =>
        match looseAddress line with
        | Some (a, c) =>
            if negb (includes "county" lower)
            then Some (withAddress a c (zip st))
            else None
        | None => None
        end
    end
  else None.

Definition countyRule : option Locals :=
  if includes "county" lower then
    Some {| address := address st; city := city st; zip := zip st;
            county := trim (removeFirst (stripPrefixCI "county") line);
            beds := beds st; baths := baths st; asking := asking st;
            access := access st; pictures := pictures st; arv := arv st;
            notes := notes st |}
  else None.

Definition bedsBathsRule : option Locals :=
  let bm := findFirst bedAt line in
  let btm := findFirst bathAt line in
  if isSome bm || isSome btm then
    Some {| address := address st; city := city st; zip := zip st;
            county := county st;
            beds := match bm with
                    | Some n => PNum n
                    | None => beds st
                    end;
            baths := match btm with
                     | Some x => PNum x
                     | None => baths st
                     end;
            asking := asking st;
            access := access st; pictures := pictures st; arv := arv st;
            notes := notes st |}
  else None.

Definition arvRule : option Locals :=
  if includes "arv" lower || includes "worth" lower then
    match kNumber line with
    | Some x =>
        Some {| address := address st; city := city st; zip := zip st;
                county := county st; beds := beds st; baths := baths st;
                asking := asking st; access := access st;
                pictures := pictures st; arv := kAmount x;
                notes := notes st |}
    | None => None
    end
  else None.

Definition askingRule : option Locals :=
  if includes "asking" lower || isSome (findFirst barePriceAt lower) then
    match kNumber line with
    | Some x =>
        Some {| address := address st; city := city st; zip := zip st;
                county := county st; beds := beds st; baths := baths st;
                asking := kAmount x; access := access st;
                pictures := pictures st; arv := arv st;
                notes := notes st |}
    | None => None
    end
  else None.

Definition accessRule : option Locals :=
  if includes "access" lower || includes "lockbox" lower
     || includes "door" lower || includes "code" lower
  then
    Some {| address := address st; city := city st; zip := zip st;
            county := county st; beds := beds st; baths := baths st;
            asking := asking st;
            access := PStr (trim (removeFirst accessLabelAt line));
            pictures := pictures st; arv := arv st;
            notes := notes st |}
  else None.

Definition picturesRule : option Locals :=
  if includes "dropbox" lower || includes "photos" lower
     || includes "pics" lower || isSome (findFirst schemeAt line)
  then
    match findFirst urlAt line with
    | Some u =>
        Some {| address := address st; city := city st; zip := zip st;
                county := county st; beds := beds st; baths := baths st;
                asking := asking st; access := access st;
                pictures := PStr u; arv := arv st;
                notes := notes st |}
    | None => None
    end
  else None.

(** [if (line.length > 3) notes.push(line)]. *)
Definition notesRule : Locals :=
  if (3 <? String.length line)%nat then
    {| address := address st; city := city st; zip := zip st;
       county := county st; beds := beds st; baths := baths st;
       asking := asking st; access := access st;
       pictures := pictures st; arv := arv st;
       notes := notes st ++ [line] |}
  else st.

Fixpoint firstOf (rules : list (option Locals)) : Locals :=
  match rules with
  | [] => notesRule
  | Some st' :: _ => st'
  | None :: rest => firstOf rest
  end.

(** One iteration of the loop. *)
Definition parseLine : Locals :=
  firstOf [addressRule; countyRule; bedsBathsRule; arvRule;
           askingRule; accessRule; picturesRule].

End Rules.

(** [block.split(newline).map(l => l.trim()).filter(l => l)]. *)
Definition blockLines (block : string) : list string :=
  List.filter (fun l => negb (isEmpty l)) (List.map trim (split newline block)).

Definition run (block : string) : Locals :=
  fold_left parseLine (blockLines block) initial.

(** [notes.join(newline)]. *)
Definition joinLines (ls : list string) : string :=
  String.concat (String newline "") ls.

End Parser.

(** [parseBlock(block)]: the object built from the locals after the loop. *)
Definition parseBlock (block : string) : gmap string prim :=
  let st := Parser.run block in
  list_to_map
    [("address", PStr (Parser.address st));
     ("city", PStr (Parser.city st));
     ("zip", PStr (Parser.zip st));
     ("county", PStr (Parser.county st));
     ("beds", Parser.beds st);
     ("baths", Parser.baths st);
     ("asking", Parser.asking st);
     ("access", Parser.access st);
     ("pictures", Parser.pictures st);
     ("arv", Parser.arv st);
     ("notes", PStr (Parser.joinLines (Parser.notes st)))].

(** ** The property validator: [validatePropertyData] *)

Section Validator.

Variable P : Platform.

(** [new URL(string)] completes without an exception. *)
Definition isValidURL (v : prim) : bool := urlParses P (toString P v).

(** [^\d{5}(-\d{4})?$]. *)
Definition zipPattern (s : string) : bool :=
  let five := String.substring 0 5 s in
  let rest := String.substring 5 (String.length s - 5) s in
  (String.length five =? 5)%nat && allChars isDigit five
  && match rest with
     | EmptyString => true
     | String c ext =>
         eqChar c "-" && (String.length ext =? 4)%nat && allChars isDigit ext
     end.

(** [errors.push(msg)] under a condition. *)
Definition pushIf (c : bool) (msg : string) (errors : list string)
  : list string :=
  if c then errors ++ [msg] else errors.

(** [!v || v.trim().length === 0]. *)
Definition blank (v : prim) : completion bool :=
  if negb (truthy v) then Normal true
  else let* s := asString v in Normal (isEmpty (trim s)).

(** [v !== null && (v < 0 || v > hi)]. *)
Definition outOfRange (hi : Z) (v : prim) : bool :=
  negb (strictEq v PNull)
  && (lessThan v (PNum (ofZ 0)) || greaterThan v (PNum (ofZ hi))).

(** [v && !isValidURL(v)]. *)
Definition badLink (v : prim) : bool := truthy v && negb (isValidURL v).

(** [v && !re.test(v)]. *)
Definition badZip (v : prim) : bool :=
  truthy v && negb (zipPattern (toString P v)).

Definition validatePropertyData (h : heap) (data : val)
  : completion (list string) :=
  let errors := [] in
  let* address := getProp h data "address" in
  let* c := blank address in
  let errors := pushIf c "Address is required" errors in
  let* city := getProp h data "city" in
  let* c := blank city in
  let errors := pushIf c "City is required" errors in
  let* beds := getProp h data "beds" in
  let errors :=
    pushIf (outOfRange 50 beds) "Beds must be between 0 and 50" errors in
  let* baths := getProp h data "baths" in
  let errors :=
    pushIf (outOfRange 50 baths) "Baths must be between 0 and 50" errors in
  let* sqft := getProp h data "sqft" in
  let errors :=
    pushIf (outOfRange 1000000 sqft)
           "Square footage must be between 0 and 1,000,000" errors in
  let* asking := getProp h data "asking" in
  let errors :=
    pushIf (outOfRange 100000000 asking)
           "Asking price must be between $0 and $100,000,000" errors in
  let* arv := getProp h data "arv" in
  let errors :=
    pushIf (outOfRange 100000000 arv)
           "ARV must be between $0 and $100,000,000" errors in
  let* rehab := getProp h data "rehab" in
  let errors :=
    pushIf (outOfRange 100000000 rehab)
           "Rehab cost must be between $0 and $100,000,000" errors in
  let* pictures := getProp h data "pictures" in
  let errors :=
    pushIf (badLink pictures) "Pictures link must be a valid URL" errors in
  let* contractLink := getProp h data "contractLink" in
  let errors :=
    pushIf (badLink contractLink) "Contract link must be a valid URL"
           errors in
  let* investorSheetLink := getProp h data "investorSheetLink" in
  let errors :=
    pushIf (badLink investorSheetLink)
           "Investor sheet link must be a valid URL" errors in
  let* zip := getProp h data "zip" in
  let errors :=
    pushIf (badZip zip)
           "ZIP code must be 5 digits (optional 4-digit extension)" errors in
  Normal errors.

End Validator.

(** ** The CSV exporter: [exportCSVString] *)

Section Exporter.

Variable P : Platform.

(** [getDaysSinceAdded(d)]; the day count itself is the host's. *)
Definition getDaysSinceAdded (d : prim) : prim :=
  if negb (truthy d) then PNull else PNum (elapsedDays P d).

Definition header : list string :=
  ["Address"; "City"; "ZIP"; "County"; "Type"; "Beds"; "Baths"; "Sq Ft";
   "Asking"; "ARV"; "Rehab"; "Access"; "Stage"; "Notes"; "Photos";
   "Contract Link"; "Investor Sheet"; "Lat"; "Lng"; "Geo Precision";
   "Date Added"; "Days Since Added"; "Last Updated"].

(** A template literal that wraps [s] in double quotes. *)
Definition quoted (s : string) : string :=
  String dquote (String.append s (String dquote "")).

(** The array literal built for one record. *)
Definition rowValues (h : heap) (p : val) : completion (list prim) :=
  let* dateAdded := getProp h p "dateAdded" in
  let d := getDaysSinceAdded dateAdded in
  let* address := getProp h p "address" in
  let* city := getProp h p "city" in
  let* zip := getProp h p "zip" in
  let* county := getProp h p "county" in
  let* type := getProp h p "type" in
  let* beds := getProp h p "beds" in
  let* baths := getProp h p "baths" in
  let* sqft := getProp h p "sqft" in
  let* asking := getProp h p "asking" in
  let* arv := getProp h p "arv" in
  let* rehab := getProp h p "rehab" in
  let* access := getProp h p "access" in
  let* stage := getProp h p "stage" in
  let* notes := getProp h p "notes" in
  let* escaped := asString (orElse notes (PStr "")) in
  let* pictures := getProp h p "pictures" in
  let* contractLink := getProp h p "contractLink" in
  let* investorSheetLink := getProp h p "investorSheetLink" in
  let* lat := getProp h p "lat" in
  let* lng := getProp h p "lng" in
  let* geoPrecision := getProp h p "geoPrecision" in
  let* lastUpdated := getProp h p "lastUpdated" in
  Normal
    [PStr (quoted (toString P address));
     city;
     orElse zip (PStr "");
     orElse county (PStr "");
     type;
     orElse beds (PStr "");
     orElse baths (PStr "");
     orElse sqft (PStr "");
     orElse asking (PStr "");
     orElse arv (PStr "");
     orElse rehab (PStr "");
     PStr (quoted (toString P (orElse access (PStr ""))));
     stage;
     PStr (quoted (doubleQuotes escaped));
     orElse pictures (PStr "");
     orElse contractLink (PStr "");
     orElse investorSheetLink (PStr "");
     orElse lat (PStr "");
     orElse lng (PStr "");
     orElse geoPrecision (PStr "");
     orElse dateAdded (PStr "");
     (if negb (strictEq d PNull) then d else PStr "");
     orElse lastUpdated (PStr "")].

(** The cells of a row as [r.join] renders them. *)
Definition rowCells (h : heap) (p : val) : completion (list string) :=
  let* r := rowValues h p in Normal (List.map (joinItem P) r).

Fixpoint mapM {A B} (f : A -> completion B) (l : list A)
  : completion (list B) :=
  match l with
  | [] => Normal []
  | x :: r => let* y := f x in let* ys := mapM f r in Normal (y :: ys)
  end.

Definition exportCSVString (h : heap) (properties : val)
  : completion string :=
  match arrayElems h properties with
  | None => Throw TypeError
  | Some elems =>
      let* rows := mapM (rowCells h) elems in
      Normal (String.concat (String Parser.newline "")
                (String.concat "," header
                 :: List.map (String.concat ",") rows))
  end.

End Exporter.

(** ** The import merger: [validateImportData] *)

Inductive ImportResult :=
| Rejected (error : string)
| Accepted (properties : loc) (duplicatesRemoved : Z).

Section ImportMerger.

Variable h : heap.

(** The callback of [data.every]: [p.address && p.city]. *)
Definition hasRequired (p : val) : completion bool :=
  let* a := getProp h p "address" in
  if truthy a then let* c := getProp h p "city" in Normal (truthy c)
  else Normal false.

(** [Array.prototype.every]: stops at the first element that fails. *)
Fixpoint everyM (f : val -> completion bool) (l : list val)
  : completion bool :=
  match l with
  | [] => Normal true
  | x :: r => let* ok := f x in if ok then everyM f r else Normal false
  end.

(** [seenIds.has(id)]. *)
Definition setHas (seenIds : list prim) (id : prim) : bool :=
  existsb (sameValueZero id) seenIds.

(** The deduplication loop; [seenIds] and [uniqueData] grow at the end. *)
Fixpoint dedupe (data : list val) (seenIds : list prim)
         (uniqueData : list val) : completion (list val) :=
  match data with
  | [] => Normal uniqueData
  | prop :: rest =>
      let* id := getProp h prop "id" in
      if negb (setHas seenIds id)
      then dedupe rest (seenIds ++ [id]) (uniqueData ++ [prop])
      else dedupe rest seenIds uniqueData
  end.

End ImportMerger.

(** [validateImportData(data)].  The result object is a value of
    [ImportResult]; its [properties] array is allocated in the heap. *)
Definition validateImportData (h : heap) (data : val)
  : heap * completion ImportResult :=
  match arrayElems h data with
  | None => (h, Normal (Rejected "Expected array of properties"))
  | Some items =>
      match everyM (hasRequired h) items with
      | Throw e => (h, Throw e)
      | Normal false =>
          (h, Normal (Rejected "Missing required fields (address, city)"))
      | Normal true =>
          match dedupe h items [] [] with
          | Throw e => (h, Throw e)
          | Normal uniqueData =>
              let '(h', l) := allocArray h uniqueData in
              (h', Normal (Accepted l (Z.of_nat (length items)
                                       - Z.of_nat (length uniqueData))))
          end
      end
  end.

(** ** The aggregator: [computeSpread] *)

Definition computeSpread (arv asking rehab : prim) : prim :=
  if negb (truthy arv) || negb (truthy asking) then PNull
  else subtract (subtract arv asking) (orElse rehab (PNum (ofZ 0))).

(** ** Vocabulary of the statements *)

(** The value of a field of [v], [undefined] where there is none. *)
Definition fieldOf (h : heap) (v : val) (key : string) : prim :=
  match getProp h v key with
  | Normal p => p
  | Throw _ => PUndef
  end.

(** A field that is absent or empty: [undefined], [null] or the empty
    string. *)
Definition missing (p : prim) : bool := isNullish p || strictEq p (PStr "").

(** A field that holds text or nothing: a string or a falsy value. *)
Definition textOrFalsy (p : prim) : bool := isString p || negb (truthy p).

Definition isNullVal (v : val) : bool :=
  match v with
  | VPrim p => isNullish p
  | VRef _ => false
  end.

(** No item of the array [data] is [null] or [undefined]. *)
Definition noNullItem (h : heap) (data : val) : bool :=
  match arrayElems h data with
  | Some items => forallb (fun v => negb (isNullVal v)) items
  | None => true
  end.

(** *** Sort keys *)

(** The sort key of a record. *)
Definition keyOf (h : heap) (o : QueryOptions) (x : val) : prim :=
  fieldOf h x (sortKey (sortField o)).

Definition finiteKey (p : prim) : bool :=
  match p with PNum (Fin _) => true | _ => false end.

(** A record without a sort key, a record with a finite numeric one. *)
Definition absent (h : heap) (o : QueryOptions) (x : val) : Prop :=
  isNullVal x = false /\ missing (keyOf h o x) = true.

Definition present (h : heap) (o : QueryOptions) (x : val) : Prop :=
  isNullVal x = false /\ finiteKey (keyOf h o x) = true.

(** The shape of the sorted part during the sort, last element first:
    records without key, then records with one. *)
Definition absentThenPresent (h : heap) (o : QueryOptions)
    (placed : list val) : Prop :=
  exists without withKey,
    placed = without ++ withKey
    /\ Forall (absent h o) without /\ Forall (present h o) withKey.

(** The text of a free-text field once the empty-string default has been
    applied. *)
Definition textOf (p : prim) : string :=
  match p with
  | PStr s => s
  | _ => ""
  end.

(** *** Validation, as a list of independent checks *)

Definition isBlank (v : prim) : bool :=
  negb (truthy v) || isEmpty (trim (textOf v)).

Definition bedsMessage : string := "Beds must be between 0 and 50".

(** Every rule of the validator with its message, in reporting order; the
    outcome of a rule depends on its own field only. *)
Definition checks (P : Platform) (get : string -> prim)
  : list (bool * string) :=
  [(isBlank (get "address"), "Address is required");
   (isBlank (get "city"), "City is required");
   (outOfRange 50 (get "beds"), bedsMessage);
   (outOfRange 50 (get "baths"), "Baths must be between 0 and 50");
   (outOfRange 1000000 (get "sqft"),
    "Square footage must be between 0 and 1,000,000");
   (outOfRange 100000000 (get "asking"),
    "Asking price must be between $0 and $100,000,000");
   (outOfRange 100000000 (get "arv"),
    "ARV must be between $0 and $100,000,000");
   (outOfRange 100000000 (get "rehab"),
    "Rehab cost must be between $0 and $100,000,000");
   (badLink P (get "pictures"), "Pictures link must be a valid URL");
   (badLink P (get "contractLink"), "Contract link must be a valid URL");
   (badLink P (get "investorSheetLink"),
    "Investor sheet link must be a valid URL");
   (badZip P (get "zip"),
    "ZIP code must be 5 digits (optional 4-digit extension)")].

(** The messages of the rules that are violated. *)
Definition reported (cs : list (bool * string)) : list string :=
  List.map snd (List.filter fst cs).

(** *** Deduplication, as a property of positions *)

Definition idOf (h : heap) (x : val) : prim := fieldOf h x "id".

(** One of [earlier] has the id [i]. *)
Definition hasId (h : heap) (earlier : list val) (i : prim) : bool :=
  existsb (fun y => sameValueZero i (idOf h y)) earlier.

(** An item is kept when no item before it in the input has its id. *)
Fixpoint firstOccurrences (h : heap) (earlier items : list val) : list val :=
  match items with
  | [] => []
  | x :: rest =>
      if hasId h earlier (idOf h x)
      then firstOccurrences h (earlier ++ [x]) rest
      else x :: firstOccurrences h (earlier ++ [x]) rest
  end.

(** *** Reading a quoted CSV cell *)

(** The body of a quoted cell up to its closing quote: a doubled quote
    stands for one quote, a single one ends the cell. *)
Fixpoint readQuotedBody (s : string) : option string :=
  match s with
  | EmptyString => None
  | String c r =>
      if eqChar c dquote then
        match r with
        | EmptyString => Some EmptyString
        | String c' r' =>
            if eqChar c' dquote
            then option_map (String dquote) (readQuotedBody r')
            else None
        end
      else option_map (String c) (readQuotedBody r)
  end.

(** The field a reader of the CSV format (RFC 4180) finds in a cell that
    consists of one quoted field. *)
Definition readQuotedCell (cell : string) : option string :=
  match cell with
  | String c r => if eqChar c dquote then readQuotedBody r else None
  | EmptyString => None
  end.

Definition isQuote (c : ascii) : bool := eqChar c dquote.

(** The columns that are not wrapped in quotes, with the field each one
    shows; column 21 is the computed day count. *)
Definition plainColumns : list (nat * string) :=
  [(1, "city"); (2, "zip"); (3, "county"); (4, "type"); (5, "beds");
   (6, "baths"); (7, "sqft"); (8, "asking"); (9, "arv"); (10, "rehab");
   (12, "stage"); (14, "pictures"); (15, "contractLink");
   (16, "investorSheetLink"); (17, "lat"); (18, "lng");
   (19, "geoPrecision"); (20, "dateAdded"); (22, "lastUpdated")]%nat.

(** The columns written as [p.field || '']. *)
Definition defaultedColumns : list (nat * string) :=
  [(2, "zip"); (3, "county"); (5, "beds"); (6, "baths"); (7, "sqft");
   (8, "asking"); (9, "arv"); (10, "rehab"); (14, "pictures");
   (15, "contractLink"); (16, "investorSheetLink"); (17, "lat");
   (18, "lng"); (19, "geoPrecision"); (20, "dateAdded");
   (22, "lastUpdated")]%nat.

(** The columns written as [p.field]. *)
Definition bareColumns : list (nat * string) :=
  [(1, "city"); (4, "type"); (12, "stage")]%nat.

(** ** A host for the examples *)

Module ExampleHost.

Fixpoint showDigits (fuel : nat) (n : Z) (acc : string) : string :=
  match fuel with
  | O => acc
  | S f =>
      let acc' := String (ascii_of_N (Z.to_N (48 + n mod 10))) acc in
      if n / 10 =? 0 then acc' else showDigits f (n / 10) acc'
  end.

Definition showZ (z : Z) : string :=
  let digits := showDigits (S (Z.to_nat (Z.log2 (Z.abs z)))) (Z.abs z) "" in
  if z <? 0 then String "-" digits else digits.

Fixpoint dropTrailingZeros (s : string) : string :=
  match s with
  | EmptyString => EmptyString
  | String c r =>
      let t := dropTrailingZeros r in
      if isEmpty t && eqChar c "0" then EmptyString else String c t
  end.

(** Integers in decimal; other finite values with up to six decimals. *)
Definition showNum (n : num) : string :=
  match n with
  | NaN => "NaN"
  | PosInf => "Infinity"
  | NegInf => "-Infinity"
  | Fin q =>
      let a := Qabs q in
      let i := Qfloor a in
      let f := Qfloor ((a - inject_Z i) * 1000000)%Q in
      let body :=
        if f =? 0 then showZ i
        else String.append (showZ i)
               (String "." (dropTrailingZeros
                              (showDigits 6 (f + 1000000) ""))) in
      if Qle_bool 0 q then body else String "-" body
  end.

Definition host : Platform := {|
  numberToString := showNum;
  urlParses := fun s => Parser.isSome (Parser.schemeAt s);
  elapsedDays := fun _ => ofZ 0
|}.

Definition obj (fields : list (string * prim)) : cell :=
  CObj (list_to_map fields).

Definition heapOf (cells : list (loc * cell)) : heap := list_to_map cells.

Definition str (s : string) : prim := PStr s.
Definition int (z : Z) : prim := PNum (ofZ z).

Definition block (ls : list string) : string := Parser.joinLines ls.

(** A text with two adjacent double quotes between [a] and [b]. *)
Definition pairedQuotes : string :=
  String "a" (String dquote (String dquote "b")).

(** Five records and three arrays: 10 is an import batch with the ids
    1, 1, 2; 11 lists a record without county before one with a county;
    12 holds a [null]. *)
Definition deals : heap :=
  heapOf
    [(1%positive,
      obj [("id", str "1"); ("address", str "123 Main St");
           ("city", str "Chester"); ("county", PNull); ("beds", int 0);
           ("stage", str "New"); ("notes", str "Gas heat, central air")]);
     (2%positive,
      obj [("id", str "1"); ("address", str "456 Oak Ave");
           ("city", str "Bruin"); ("county", str "Butler");
           ("beds", int 51); ("stage", str "New")]);
     (3%positive,
      obj [("id", str "2"); ("address", str "789 Elm St");
           ("city", str "Darby"); ("county", str "Delaware");
           ("beds", PNull); ("stage", str "Sold")]);
     (4%positive,
      obj [("id", str "4"); ("address", str pairedQuotes);
           ("city", str "Darby")]);
     (5%positive,
      obj [("id", str "5"); ("address", int 5); ("city", str "Darby")]);
     (10%positive, CArr [VRef 1; VRef 2; VRef 3]%positive);
     (11%positive, CArr [VRef 1; VRef 2]%positive);
     (12%positive, CArr [VPrim PNull])].

Definition byCounty (direction : string) : QueryOptions := {|
  currentFilter := "all";
  countyFilter := PNull;
  typeFilter := PNull;
  searchTerm := "";
  sortField := SFcounty;
  sortDirection := direction
|}.

Definition byBeds (direction : string) : QueryOptions := {|
  currentFilter := "all";
  countyFilter := PNull;
  typeFilter := PNull;
  searchTerm := "";
  sortField := SFbeds;
  sortDirection := direction
|}.

(** The locals once the address line of a block has been read. *)
Definition afterAddress : Parser.Locals :=
  Parser.parseLine Parser.initial "123 Main St, Chester, PA".

End ExampleHost.

(** ** The remaining helpers of [js/logic.js] *)

(** *** [sanitizeInput] *)

Definition isAngle (c : ascii) : bool := eqChar c "<" || eqChar c ">".

(** [s.replace(re, '')] where [re] is the global pattern of one angle
    bracket: every angle bracket is deleted. *)
Fixpoint removeAngles (s : string) : string :=
  match s with
  | EmptyString => EmptyString
  | String c r =>
      if isAngle c then removeAngles r else String c (removeAngles r)
  end.

(** [sanitizeInput(input)]: anything but a string is handed back. *)
Definition sanitizeInput (input : val) : val :=
  match input with
  | VPrim (PStr s) => VPrim (PStr (removeAngles (trim s)))
  | _ => input
  end.

(** A string that is empty or starts with a character that is not white
    space. *)
Definition startsClean (s : string) : bool :=
  match s with
  | EmptyString => true
  | String c _ => negb (isWhiteSpace c)
  end.

(** *** [computeStats] *)

Record Stats := {
  ready : Z;
  new : Z;
  hold : Z;
  high : Z;
  sold : Z;
  total : Z
}.

(** [properties.filter(p => p.stage === name).length]. *)
Definition countStage (h : heap) (name : string) (elems : list val)
  : completion Z :=
  let* kept := filterM (fun p => stageIs h p name) elems in
  Normal (Z.of_nat (length kept)).

Definition computeStats (h : heap) (properties : val) : completion Stats :=
  match arrayElems h properties with
  | None => Throw TypeError
  | Some elems =>
      let* ready := countStage h "Ready to Blast" elems in
      let* new := countStage h "New" elems in
      let* hold := countStage h "On Hold" elems in
      let* high := countStage h "Too High" elems in
      let* sold := countStage h "Sold" elems in
      Normal {| ready := ready; new := new; hold := hold; high := high;
                sold := sold; total := Z.of_nat (length elems) |}
  end.

(** *** [checkDuplicateProperty] *)

(** [Array.prototype.find] with a callback that may raise. *)
Fixpoint findM (p : val -> completion bool) (l : list val)
  : completion (option val) :=
  match l with
  | [] => Normal None
  | x :: r => let* hit := p x in if hit then Normal (Some x) else findM p r
  end.

(** [p.city.toLowerCase() === cityLower]. *)
Definition sameCity (h : heap) (cityLower : string) (p : val)
  : completion bool :=
  let* c := getProp h p "city" in
  let* s := asString c in
  Normal (String.eqb (toLowerCase s) cityLower).

(** The callback of [properties.find]: the address of the record contains
    the address asked for or is contained in it, and the cities are equal;
    the second containment test and the city test are evaluated only when
    they decide the result. *)
Definition isDuplicateOf (h : heap) (addrLower cityLower : string) (p : val)
  : completion bool :=
  let* a := getProp h p "address" in
  let* s := asString a in
  if includes addrLower (toLowerCase s) then sameCity h cityLower p
  else
    let* a' := getProp h p "address" in
    let* s' := asString a' in
    if includes (toLowerCase s') addrLower then sameCity h cityLower p
    else Normal false.

(** [found || null]. *)
Definition orNull (found : option val) : val :=
  match found with
  | Some (VRef l) => VRef l
  | Some (VPrim p) => VPrim (orElse p PNull)
  | None => VPrim PNull
  end.

Definition checkDuplicateProperty (h : heap) (properties : val)
    (address city : prim) : completion val :=
  if negb (truthy address) || negb (truthy city) then Normal (VPrim PNull)
  else
    let* addrLower := asString address in
    let addrLower := toLowerCase addrLower in
    let* cityLower := asString city in
    let cityLower := toLowerCase cityLower in
    match arrayElems h properties with
    | None => Throw TypeError
    | Some elems =>
        let* found := findM (isDuplicateOf h addrLower cityLower) elems in
        Normal (orNull found)
    end.

(** *** [validatePin] *)

(** The result object: [error] is absent when the PIN is accepted. *)
Record PinResult := {
  valid : bool;
  error : option string
}.

(** [entered.length] for a primitive: only a string has a length. *)
Definition lengthOf (p : prim) : prim :=
  match p with
  | PStr s => PNum (ofZ (Z.of_nat (String.length s)))
  | _ => PUndef
  end.

(** [validatePin(entered, pin)] on primitives. *)
Definition validatePin (entered pin : prim) : PinResult :=
  if negb (truthy entered) || lessThan (lengthOf entered) (PNum (ofZ 4))
  then {| valid := false; error := Some "Enter 4 digits" |}
  else if strictEq entered pin
       then {| valid := true; error := None |}
       else {| valid := false; error := Some "Wrong PIN" |}.

(** *** [normalizeProperties] *)

(** [if (!p[key]) p[key] = ''] on the fields of a record. *)
Definition blankIfFalsy (key : string) (fields : gmap string prim)
  : gmap string prim :=
  if negb (truthy (default PUndef (fields !! key)))
  then <[key := PStr ""]> fields
  else fields.

(** The three assignments of the callback, in their order. *)
Definition normalizeFields (fields : gmap string prim) : gmap string prim :=
  blankIfFalsy "notes" (blankIfFalsy "rehab" (blankIfFalsy "arv" fields)).

(** One call of the callback of [properties.forEach].  Reading a field of
    [null] or [undefined] raises; on another primitive the reads give
    [undefined] and the assignments are dropped (the code is not in strict
    mode); a record is updated in place.  The arrays of this heap carry no
    named fields, so an element that is itself an array is outside the
    embedding: the answer is [None]. *)
Definition normalizeOne (h : heap) (p : val) : option (heap * completion unit) :=
  match p with
  | VPrim PUndef | VPrim PNull => Some (h, Throw TypeError)
  | VPrim _ => Some (h, Normal tt)
  | VRef l =>
      match h !! l with
      | Some (CObj fields) =>
          Some (<[l := CObj (normalizeFields fields)]> h, Normal tt)
      | _ => None
      end
  end.

(** [Array.prototype.forEach] with that callback: the heap is threaded
    through the calls, and an exception ends the loop with the updates made
    so far. *)
Fixpoint normalizeEach (h : heap) (elems : list val)
  : option (heap * completion unit) :=
  match elems with
  | [] => Some (h, Normal tt)
  | p :: rest =>
      match normalizeOne h p with
      | Some (h', Normal _) => normalizeEach h' rest
      | other => other
      end
  end.

(** [normalizeProperties(properties)]: the collection itself is
    returned. *)
Definition normalizeProperties (h : heap) (properties : val)
  : option (heap * completion val) :=
  match arrayElems h properties with
  | None => Some (h, Throw TypeError)
  | Some elems =>
      match normalizeEach h elems with
      | Some (h', Normal _) => Some (h', Normal properties)
      | Some (h', Throw e) => Some (h', Throw e)
      | None => None
      end
  end.

(** The fields that [normalizeProperties] writes. *)
Definition isNormalized (key : string) : bool :=
  String.eqb key "arv" || String.eqb key "rehab" || String.eqb key "notes".

(** *** [computeCountyCounts] and [computeTypeCounts] *)

(** What the two functions see of the host.  The table of counters is a
    plain object, which inherits the functions of [Object.prototype]; a
    function put into [+ 1] gives its source text, which is the host's.
    [Array.prototype.sort] leaves the order to the host when the
    comparator is not consistent; its result still holds the elements it
    was given. *)
Record Builtins := {
  functionText : string -> string;
  unorderedSort : list (string * prim) -> list (string * prim);
  unorderedSort_permutes : forall l, Permutation (unorderedSort l) l
}.

(** The functions that a plain object inherits from [Object.prototype]. *)
Definition inheritedFunctions : list string :=
  ["constructor"; "__defineGetter__"; "__defineSetter__"; "hasOwnProperty";
   "__lookupGetter__"; "__lookupSetter__"; "isPrototypeOf";
   "propertyIsEnumerable"; "toString"; "valueOf"; "toLocaleString"].

Definition isInheritedFunction (key : string) : bool :=
  existsb (String.eqb key) inheritedFunctions.

(** The accessor of [Object.prototype] that reads and sets the prototype
    of an object. *)
Definition protoName : string := "__proto__".

(** The own property [key] of a table, whose properties are kept in the
    order of their creation. *)
Fixpoint own (key : string) (table : list (string * prim)) : option prim :=
  match table with
  | [] => None
  | (k, c) :: rest => if String.eqb k key then Some c else own key rest
  end.

(** [a + b] on numbers.  The counters stay below the length of an array,
    where the sum of two doubles is exact. *)
Definition add (a b : num) : num :=
  match a, b with
  | NaN, _ | _, NaN => NaN
  | PosInf, NegInf | NegInf, PosInf => NaN
  | PosInf, _ | _, PosInf => PosInf
  | NegInf, _ | _, NegInf => NegInf
  | Fin x, Fin y => Fin (Qred (x + y))
  end.

(** [p + 1]: a text takes the digit at its end, any other primitive is
    added to as a number. *)
Definition plusOne (p : prim) : prim :=
  match p with
  | PStr s => PStr (String.append s "1")
  | _ => PNum (add (toNumber p) (ofZ 1))
  end.

(** [(table[key] || 0) + 1].  An own property is read first.  Without one
    the prototype answers: [__proto__] gives the prototype itself and the
    names of [inheritedFunctions] give a function, both truthy objects that
    [+ 1] turns into text; any other name gives [undefined]. *)
Definition incremented (B : Builtins) (key : string)
    (table : list (string * prim)) : prim :=
  match own key table with
  | Some c => plusOne (orElse c (PNum (ofZ 0)))
  | None =>
      if String.eqb key protoName then PStr "[object Object]1"
      else if isInheritedFunction key
           then PStr (String.append (functionText B key) "1")
           else plusOne (orElse PUndef (PNum (ofZ 0)))
  end.

(** An own property [key] gets the value [c], or is created with it after
    the properties there are. *)
Fixpoint assign (key : string) (c : prim) (table : list (string * prim))
  : list (string * prim) :=
  match table with
  | [] => [(key, c)]
  | (k, old) :: rest =>
      if String.eqb k key then (k, c) :: rest
      else (k, old) :: assign key c rest
  end.

(** [table[key] = c] for a primitive [c]: the setter of [__proto__]
    ignores a value that is not an object, under any other name the value
    becomes an own property. *)
Definition store (key : string) (c : prim) (table : list (string * prim))
  : list (string * prim) :=
  if String.eqb key protoName then table else assign key c table.

(** The [forEach] loop of both functions on the field [field]. *)
Fixpoint tally (B : Builtins) (P : Platform) (h : heap) (field : string)
    (elems : list val) (table : list (string * prim))
  : completion (list (string * prim)) :=
  match elems with
  | [] => Normal table
  | p :: rest =>
      match getProp h p field with
      | Throw e => Throw e
      | Normal v =>
          if truthy v then
            let key := toString P v in
            tally B P h field rest (store key (incremented B key table) table)
          else tally B P h field rest table
      end
  end.

(** A canonical array index: the decimal numeral of an integer below
    [2^32 - 1]. *)
Definition isArrayIndex (key : string) : bool :=
  negb (isEmpty key) && allChars isDigit key
  && (String.eqb key "0"
      || negb (match key with String c _ => eqChar c "0" | _ => false end))
  && (digitsValue 0 key <? 4294967295).

(** Ascending order of the array indices. *)
Fixpoint insertIndex (e : string * prim) (sorted : list (string * prim))
  : list (string * prim) :=
  match sorted with
  | [] => [e]
  | y :: rest =>
      if digitsValue 0 (fst e) <? digitsValue 0 (fst y) then e :: sorted
      else y :: insertIndex e rest
  end.

(** [Object.entries(table)]: the array indices in ascending order, then
    the other keys in the order of their creation. *)
Definition entries (table : list (string * prim)) : list (string * prim) :=
  fold_right insertIndex []
    (List.filter (fun e => isArrayIndex (fst e)) table)
  ++ List.filter (fun e => negb (isArrayIndex (fst e))) table.

(** The comparator [(a, b) => b[1] - a[1]]. *)
Definition byCount (a b : string * prim) : num :=
  sub (toNumber (snd b)) (toNumber (snd a)).

(** One insertion of the sort, as in [arraySort]: [placed] is the sorted
    part, last element first, and the comparator is called with the new
    element first.  A comparator value that is [NaN] is read as 0. *)
Fixpoint insertByCount (x : string * prim) (placed : list (string * prim))
  : list (string * prim) :=
  match placed with
  | [] => [x]
  | y :: rest =>
      if lt (byCount x y) (ofZ 0) then y :: insertByCount x rest
      else x :: placed
  end.

Definition insertionSort (l : list (string * prim)) : list (string * prim) :=
  rev (fold_left (fun placed x => insertByCount x placed) l []).

(** The counter is a number when read by the comparator. *)
Definition numbered (e : string * prim) : bool :=
  negb (isNaN (toNumber (snd e))).

(** The sort reads the comparator value [d] as 0. *)
Definition readAsZero (d : num) : bool :=
  negb (lt d (ofZ 0) || lt (ofZ 0) d).

(** The comparator is consistent on [l]: every counter is a number, or
    no two elements are told apart.  With a counter that is no number,
    which compares as equal to every other, and two that differ, equality
    under the comparator is not transitive. *)
Definition consistent (l : list (string * prim)) : bool :=
  forallb numbered l
  || forallb (fun a => forallb (fun b => readAsZero (byCount a b)) l) l.

(** [list.sort((a, b) => b[1] - a[1])]. *)
Definition sortByCount (B : Builtins) (l : list (string * prim))
  : list (string * prim) :=
  if consistent l then insertionSort l else unorderedSort B l.

Definition computeTypeCounts (B : Builtins) (P : Platform) (h : heap)
    (properties : val) : completion (list (string * prim)) :=
  match arrayElems h properties with
  | None => Throw TypeError
  | Some elems =>
      let* types := tally B P h "type" elems [] in
      Normal (entries types)
  end.

Definition computeCountyCounts (B : Builtins) (P : Platform) (h : heap)
    (properties : val) : completion (list (string * prim)) :=
  match arrayElems h properties with
  | None => Throw TypeError
  | Some elems =>
      let* counties := tally B P h "county" elems [] in
      Normal (sortByCount B (entries counties))
  end.

(** The number of records of [elems] whose [field] is truthy and has the
    key [key]. *)
Definition occurrences (P : Platform) (h : heap) (field key : string)
    (elems : list val) : Z :=
  Z.of_nat
    (length
       (List.filter
          (fun p => truthy (fieldOf h p field)
                    && String.eqb (toString P (fieldOf h p field)) key)
          elems)).

(** The number of records of [elems] whose [field] is truthy. *)
Definition keyed (h : heap) (field : string) (elems : list val) : Z :=
  Z.of_nat (length (List.filter (fun p => truthy (fieldOf h p field)) elems)).

(** [n] times the digit 1. *)
Fixpoint ones (n : nat) : string :=
  match n with
  | O => ""
  | S m => String.append (ones m) "1"
  end.

(** The counter that [n] records with the key [key] leave in the table:
    the number [n], or for the name of an inherited function the text of
    the function with a 1 for each record. *)
Definition counterAfter (B : Builtins) (key : string) (n : Z) : prim :=
  if isInheritedFunction key
  then PStr (String.append (functionText B key) (ones (Z.to_nat n)))
  else PNum (ofZ n).

(** What the table holds under [key] after [n] records with that key:
    nothing before the first one, and never anything under [__proto__]. *)
Definition expected (B : Builtins) (key : string) (n : Z) : option prim :=
  if (n <=? 0) || String.eqb key protoName then None
  else Some (counterAfter B key n).

(** The pair holds a number from 1 up. *)
Definition numberPair (e : string * prim) : Prop :=
  exists n : Z, snd e = PNum (ofZ n) /\ 0 < n.

(** No record of [elems] has a key that a plain object inherits. *)
Definition plainKeys (P : Platform) (h : heap) (field : string)
    (elems : list val) : Prop :=
  Forall (fun p => truthy (fieldOf h p field) = true ->
                   toString P (fieldOf h p field) <> protoName
                   /\ isInheritedFunction (toString P (fieldOf h p field))
                      = false)
         elems.

(** The number that a counter holds, 0 for a counter that is a text. *)
Definition countOf (c : prim) : Z :=
  match c with
  | PNum (Fin q) => Qfloor q
  | _ => 0
  end.

Definition sumCounts (table : list (string * prim)) : Z :=
  fold_right Z.add 0 (List.map (fun e => countOf (snd e)) table).

(** *** Vocabulary for the counters and the query engine *)

(** The record [p] is in the stage [name]. *)
Definition inStage (h : heap) (name : string) (p : val) : bool :=
  strictEq (fieldOf h p "stage") (PStr name).

Definition stageCount (h : heap) (name : string) (elems : list val) : Z :=
  Z.of_nat (length (List.filter (inStage h name) elems)).

Definition stageNames : list string :=
  ["Ready to Blast"; "New"; "On Hold"; "Too High"; "Sold"].

(** The stage of [p] is one of the five stages of the pipeline. *)
Definition knownStage (h : heap) (p : val) : bool :=
  existsb (fun name => inStage h name p) stageNames.

(** The counter of [computeStats] that goes with a stage filter of
    [getFiltered]. *)
Definition bucket (filter : string) (st : Stats) : Z :=
  if String.eqb filter "all" then total st
  else if String.eqb filter "ready" then ready st
  else if String.eqb filter "new" then new st
  else if String.eqb filter "hold" then hold st
  else if String.eqb filter "high" then high st
  else if String.eqb filter "sold" then sold st
  else 0.

(** The callback of [properties.filter] answers [true]. *)
Definition passes (h : heap) (o : QueryOptions) (p : val) : bool :=
  match keeps h o p with
  | Normal b => b
  | Throw _ => false
  end.

(** No filter of [o] is active apart from the stage filter. *)
Definition stageFilterOnly (o : QueryOptions) : bool :=
  negb (truthy (countyFilter o)) && negb (truthy (typeFilter o))
  && isEmpty (searchTerm o).

(** *** Vocabulary for the order of the result *)

(** The number a numeric or missing sort key is compared as. *)
Definition sortRank (h : heap) (o : QueryOptions) (x : val) : num :=
  toNumber (orMissing o (keyOf h o x)).

(** [a] may come before [b] in the direction of [o], by number. *)
Definition inOrder (h : heap) (o : QueryOptions) (a b : val) : Prop :=
  if ascending o
  then lt (sortRank h o b) (sortRank h o a) = false
  else lt (sortRank h o a) (sortRank h o b) = false.

(** The text a text sort key is compared as. *)
Definition sortText (h : heap) (o : QueryOptions) (x : val) : string :=
  toLowerCase (textOf (keyOf h o x)).

(** A record with a text sort key that is not empty. *)
Definition hasText (h : heap) (o : QueryOptions) (x : val) : Prop :=
  isNullVal x = false
  /\ isString (keyOf h o x) = true /\ missing (keyOf h o x) = false.

(** [a] may come before [b] in the direction of [o], by text. *)
Definition inTextOrder (h : heap) (o : QueryOptions) (a b : val) : Prop :=
  if ascending o
  then String.ltb (sortText h o b) (sortText h o a) = false
  else String.ltb (sortText h o a) (sortText h o b) = false.

(** A copy of [o] with another search term. *)
Definition withSearch (o : QueryOptions) (term : string) : QueryOptions := {|
  currentFilter := currentFilter o;
  countyFilter := countyFilter o;
  typeFilter := typeFilter o;
  searchTerm := term;
  sortField := sortField o;
  sortDirection := sortDirection o
|}.

(** *** Vocabulary for the duplicate check *)

(** The record [p] has a text as address and as city; one address
    contains the other and the cities are equal, all without regard to
    case. *)
Definition similar (h : heap) (address city : string) (p : val) : bool :=
  match fieldOf h p "address", fieldOf h p "city" with
  | PStr a, PStr c =>
      (includes (toLowerCase address) (toLowerCase a)
       || includes (toLowerCase a) (toLowerCase address))
      && String.eqb (toLowerCase c) (toLowerCase city)
  | _, _ => false
  end.

(** A record whose address and city are texts. *)
Definition textAddress (h : heap) (p : val) : bool :=
  negb (isNullVal p)
  && isString (fieldOf h p "address") && isString (fieldOf h p "city").

(** *** Vocabulary for the validators *)

(** The messages of [validatePropertyData] in the order of its rules. *)
Definition allMessages : list string :=
  ["Address is required";
   "City is required";
   "Beds must be between 0 and 50";
   "Baths must be between 0 and 50";
   "Square footage must be between 0 and 1,000,000";
   "Asking price must be between $0 and $100,000,000";
   "ARV must be between $0 and $100,000,000";
   "Rehab cost must be between $0 and $100,000,000";
   "Pictures link must be a valid URL";
   "Contract link must be a valid URL";
   "Investor sheet link must be a valid URL";
   "ZIP code must be 5 digits (optional 4-digit extension)"].

(** The record has a truthy address and a truthy city. *)
Definition complete (h : heap) (p : val) : bool :=
  truthy (fieldOf h p "address") && truthy (fieldOf h p "city").

(** *** Vocabulary for the parser *)

(** [null], [Infinity] or a whole number that is not negative. *)
Definition countOrNull (p : prim) : Prop :=
  p = PNull \/ p = PNum PosInf
  \/ exists z : Z, p = PNum (ofZ z) /\ 0 <= z.

(** [null], [Infinity] or a number that is not negative. *)
Definition amountOrNull (p : prim) : Prop :=
  p = PNull \/ p = PNum PosInf
  \/ exists q : Q, p = PNum (Fin q) /\ (0 <= q)%Q.

(** The text of [n] nines. *)
Fixpoint nines (n : nat) : string :=
  match n with
  | O => ""
  | S m => String "9" (nines m)
  end.

(** The empty string or five digits. *)
Definition fiveDigitsOrEmpty (s : string) : bool :=
  isEmpty s || ((String.length s =? 5)%nat && allChars isDigit s).

Definition isNewline (c : ascii) : bool := eqChar c Parser.newline.

(** ** Listings for the examples *)

Module Samples.

Import ExampleHost.

(** Seven records and three arrays: 20 lists the first six records; 21
    lists a complete record, a record without city and a [null]; 22 lists
    three records that share two stages. *)
Definition listings : heap :=
  heapOf
    [(1%positive,
      obj [("id", str "a"); ("address", str "105 Mohawk St");
           ("city", str "Bruin"); ("county", str "Delaware");
           ("type", str "SFH"); ("stage", str "Ready to Blast");
           ("asking", int 60000); ("arv", PNull); ("rehab", int 5000);
           ("notes", str "test")]);
     (2%positive,
      obj [("id", str "b"); ("address", str "177-179 Pine St");
           ("city", str "Johnstown"); ("county", str "Delaware");
           ("type", str "SFH"); ("stage", str "New");
           ("asking", int 80000); ("arv", int 100000); ("rehab", PNull);
           ("notes", PNull)]);
     (3%positive,
      obj [("id", str "c"); ("address", str "1317 W. 3rd St");
           ("city", str "Chester"); ("county", str "Delaware");
           ("type", str "MFH"); ("stage", str "Sold");
           ("asking", int 90000); ("arv", int 200000);
           ("rehab", int 40000); ("notes", str "Great deal")]);
     (4%positive,
      obj [("id", str "d"); ("address", str "9 Oak Ave");
           ("city", str "Butler"); ("county", str "Butler");
           ("type", str "Lot"); ("stage", str "New")]);
     (5%positive,
      obj [("id", str "e"); ("address", str "12 Elm St");
           ("city", str "Ebensburg"); ("county", str "Cambria");
           ("stage", str "On Hold")]);
     (6%positive,
      obj [("id", str "f"); ("address", str "14 Elm St");
           ("city", str "Ebensburg"); ("county", str "Cambria");
           ("stage", str "Archived")]);
     (7%positive,
      obj [("id", str "g"); ("address", str "1 Main St"); ("city", str "")]);
     (20%positive,
      CArr [VRef 1; VRef 2; VRef 3; VRef 4; VRef 5; VRef 6]%positive);
     (21%positive, CArr [VRef 1; VRef 7; VPrim PNull]%positive);
     (22%positive, CArr [VRef 1; VRef 2; VRef 4]%positive)].

(** The heap after [normalizeProperties] has run on collection 20. *)
Definition normalized : heap :=
  match normalizeProperties listings (VRef 20) with
  | Some (h', _) => h'
  | None => listings
  end.

Definition onlyNew : QueryOptions := {|
  currentFilter := "new";
  countyFilter := PNull;
  typeFilter := PNull;
  searchTerm := "";
  sortField := SFasking;
  sortDirection := "asc"
|}.

Definition byAddress (direction : string) : QueryOptions := {|
  currentFilter := "all";
  countyFilter := PNull;
  typeFilter := PNull;
  searchTerm := "";
  sortField := SFaddress;
  sortDirection := direction
|}.

(** A built-in function shows as its name, the constructor as [Object];
    the sort leaves a list that it cannot order as it is. *)
Definition builtins : Builtins := {|
  functionText := fun key =>
    String.append "function "
      (String.append (if String.eqb key "constructor" then "Object" else key)
                     "() { [native code] }");
  unorderedSort := fun l => l;
  unorderedSort_permutes := fun l => Permutation_refl l
|}.

(** Records whose counties are names that a plain object inherits, and a
    record with a number for an address and too many beds. *)
Definition oddities : heap :=
  heapOf
    [(1%positive, obj [("county", str "__proto__")]);
     (2%positive, obj [("county", str "x")]);
     (3%positive, obj [("county", str "constructor")]);
     (4%positive, obj [("county", str "y")]);
     (5%positive, obj [("address", int 5); ("beds", int 51)]);
     (10%positive, CArr [VRef 1; VRef 2]%positive);
     (11%positive, CArr [VRef 2; VRef 3; VRef 4; VRef 4; VRef 3]%positive)].

End Samples.

(** * Properties *)

(** ** Heap facts *)


Lemma getProp_insert_fresh (h : heap) (l : loc) (elems : list val) v key :
  (h !! l = None \/ exists e, h !! l = Some (CArr e)) ->
  getProp (<[l := CArr elems]> h) v key = getProp h v key.
Proof.
  intros Hl. destruct v as [p|l']; [reflexivity|]. simpl.
  destruct (decide (l = l')) as [<-|Hne].
  - rewrite lookup_insert_eq. destruct Hl as [-> | [e ->]]; reflexivity.
  - rewrite lookup_insert_ne by exact Hne. reflexivity.
Qed.

(** ** Where an exception of [getFiltered] comes from *)


Section SortThrows.

Variable compareFn : val -> val -> completion Z.


Lemma insertSorted_elements (x : val) (placed r : list val) :
  insertSorted compareFn x placed = Normal r ->
  forall z, In z r -> z = x \/ In z placed.
Proof.
  revert r. induction placed as [|y l IH]; simpl; intros r.
  - intros [= <-] z [<-|[]]. by left.
  - destruct (compareFn x y) as [c|e']; simpl; [|discriminate].
    destruct (c <? 0).
    + destruct (insertSorted compareFn x l) as [r'|e'']; simpl; [|discriminate].
      intros [= <-] z [<-|Hz]; [right; by left|].
      destruct (IH r' eq_refl z Hz); [by left|right; by right].
    + intros [= <-] z [<-|Hz]; [by left|by right].
Qed.



End SortThrows.


Lemma sortCompare_heap_ext (h h' : heap) (o : QueryOptions) :
  (forall v key, getProp h' v key = getProp h v key) ->
  forall a b, sortCompare h' o a b = sortCompare h o a b.
Proof. intros Hext a b. unfold sortCompare. by rewrite !Hext. Qed.


(** ** [SameValueZero] is an equivalence *)

Lemma sameValueZero_refl a : sameValueZero a a = true.
Proof.
  destruct a as [| |b|n|s]; simpl; try done.
  - by destruct b.
  - destruct n; simpl; try done. apply Qeq_bool_refl.
  - apply String.eqb_refl.
Qed.

Lemma sameValueZero_sym a b : sameValueZero a b = true -> sameValueZero b a = true.
Proof.
  destruct a as [| |x|x|x], b as [| |y|y|y]; simpl; try done.
  - destruct x, y; done.
  - destruct x, y; simpl; try done. apply Qeq_bool_sym.
  - rewrite !String.eqb_eq. congruence.
Qed.

Lemma sameValueZero_trans a b c :
  sameValueZero a b = true -> sameValueZero b c = true -> sameValueZero a c = true.
Proof.
  destruct a as [| |x|x|x], b as [| |y|y|y]; simpl; try done;
    destruct c as [| |z|z|z]; simpl; try done.
  - destruct x, y, z; done.
  - destruct x, y; simpl; try done; destruct z; simpl; try done.
    apply Qeq_bool_trans.
  - rewrite !String.eqb_eq. congruence.
Qed.

(** ** Deduplication *)

Section Dedupe.

Variable h : heap.

Lemma hasId_app seen x i :
  hasId h (seen ++ [x]) i = hasId h seen i || sameValueZero i (idOf h x).
Proof. unfold hasId. rewrite existsb_app. simpl. by rewrite orb_false_r. Qed.

Lemma hasId_absorb seen x i :
  hasId h seen (idOf h x) = true -> hasId h (seen ++ [x]) i = hasId h seen i.
Proof.
  intros Hx. rewrite hasId_app.
  destruct (sameValueZero i (idOf h x)) eqn:E; [|by rewrite orb_false_r].
  rewrite orb_true_r. unfold hasId in *.
  apply existsb_exists in Hx as (y & Hy & Hxy).
  symmetry. apply existsb_exists. exists y. split; [done|].
  by apply sameValueZero_trans with (idOf h x).
Qed.

Lemma hasRequired_true_getProp x key :
  hasRequired h x = Normal true -> getProp h x key = Normal (fieldOf h x key).
Proof.
  unfold hasRequired, fieldOf. destruct x as [p|l]; simpl.
  - destruct p; simpl; try done.
  - by destruct (h !! l) as [[m|e]|].
Qed.

Lemma everyM_true (f : val -> completion bool) (l : list val) :
  everyM f l = Normal true <-> Forall (fun x => f x = Normal true) l.
Proof.
  induction l as [|x l IH]; simpl.
  - split; [constructor|done].
  - destruct (f x) as [[|]|e] eqn:E; simpl.
    + rewrite IH. split; [by constructor|by inversion 1].
    + split; [done|]. inversion 1; congruence.
    + split; [done|]. inversion 1; congruence.
Qed.

Lemma dedupe_firstOccurrences items :
  Forall (fun x => hasRequired h x = Normal true) items ->
  forall earlier seenIds uniqueData,
    (forall i, setHas seenIds i = hasId h earlier i) ->
    dedupe h items seenIds uniqueData
    = Normal (uniqueData ++ firstOccurrences h earlier items).
Proof.
  induction 1 as [|x items Hx _ IH]; intros earlier seenIds uniqueData Hinv;
    cbn [dedupe firstOccurrences].
  - by rewrite app_nil_r.
  - rewrite (hasRequired_true_getProp x "id" Hx). cbn [bind].
    rewrite Hinv. fold (idOf h x).
    destruct (hasId h earlier (idOf h x)) eqn:Hdup; cbn [negb].
    + apply IH. intros i. rewrite Hinv. symmetry. by apply hasId_absorb.
    + rewrite (IH (earlier ++ [x]) (seenIds ++ [idOf h x]) (uniqueData ++ [x])).
      * by rewrite <- app_assoc.
      * intros i. rewrite hasId_app. unfold setHas.
        rewrite existsb_app. simpl. rewrite orb_false_r.
        f_equal. apply Hinv.
Qed.

Lemma firstOccurrences_subset earlier items x :
  In x (firstOccurrences h earlier items) -> In x items.
Proof.
  revert earlier. induction items as [|y items IH]; intros earlier;
    cbn [firstOccurrences]; [done|].
  destruct (hasId h earlier (idOf h y)); simpl; intros Hin.
  - right. by eapply IH.
  - destruct Hin as [->|Hin]; [by left|right; by eapply IH].
Qed.

Lemma firstOccurrences_stable items :
  forall e1 e2, (forall i, hasId h e1 i = hasId h e2 i) ->
    firstOccurrences h e2 (firstOccurrences h e1 items)
    = firstOccurrences h e1 items.
Proof.
  induction items as [|x items IH]; intros e1 e2 Heq;
    cbn [firstOccurrences]; [done|].
  destruct (hasId h e1 (idOf h x)) eqn:Hdup.
  - apply IH. intros i. rewrite <- Heq. by apply hasId_absorb.
  - cbn [firstOccurrences]. rewrite <- Heq, Hdup.
    f_equal. apply IH. intros i. rewrite !hasId_app. by rewrite Heq.
Qed.

(** The items kept form a sublist of the input: order is preserved. *)
Lemma firstOccurrences_sublist earlier items :
  sublist (firstOccurrences h earlier items) items.
Proof.
  revert earlier. induction items as [|x items IH]; intros earlier;
    cbn [firstOccurrences]; [constructor|].
  destruct (hasId h earlier (idOf h x)); [apply sublist_cons|apply sublist_skip];
    apply IH.
Qed.

(** The ids of the input are the ids of the items kept. *)
Lemma firstOccurrences_same_ids items :
  forall earlier kept,
    (forall i, hasId h earlier i = hasId h kept i) ->
    forall i, hasId h (earlier ++ items) i
              = hasId h (kept ++ firstOccurrences h earlier items) i.
Proof.
  induction items as [|x items IH]; intros earlier kept Heq i;
    cbn [firstOccurrences].
  - by rewrite !app_nil_r.
  - replace (earlier ++ x :: items) with ((earlier ++ [x]) ++ items)
      by (by rewrite <- app_assoc).
    destruct (hasId h earlier (idOf h x)) eqn:Hdup.
    + apply IH. intros j. rewrite <- Heq. by apply hasId_absorb.
    + replace (kept ++ x :: firstOccurrences h (earlier ++ [x]) items)
        with ((kept ++ [x]) ++ firstOccurrences h (earlier ++ [x]) items)
        by (by rewrite <- app_assoc).
      apply IH. intros j. by rewrite !hasId_app, Heq.
Qed.

(** No item kept has the id of an item before it. *)
Lemma firstOccurrences_distinct items :
  forall earlier k1 x k2,
    firstOccurrences h earlier items = k1 ++ x :: k2 ->
    hasId h earlier (idOf h x) = false /\ hasId h k1 (idOf h x) = false.
Proof.
  induction items as [|y items IH]; intros earlier k1 x k2;
    cbn [firstOccurrences].
  - by destruct k1.
  - destruct (hasId h earlier (idOf h y)) eqn:Hdup.
    + intros Heq. destruct (IH _ _ _ _ Heq) as [He Hk].
      rewrite hasId_app in He. apply orb_false_iff in He as [He _]. done.
    + destruct k1 as [|z k1]; simpl.
      * by intros [= <- _].
      * intros [= <- Heq]. destruct (IH _ _ _ _ Heq) as [He Hk].
        rewrite hasId_app in He. apply orb_false_iff in He as [He Hy].
        split; [done|]. unfold hasId in *. simpl. by rewrite Hy, Hk.
Qed.

End Dedupe.

Lemma everyM_ext (f g : val -> completion bool) (l : list val) :
  (forall x, f x = g x) -> everyM f l = everyM g l.
Proof.
  intros Hfg. induction l as [|x l IH]; simpl; [done|].
  rewrite Hfg. destruct (g x) as [[|]|]; simpl; auto.
Qed.

Lemma hasRequired_heap_ext (h h' : heap) :
  (forall v key, getProp h' v key = getProp h v key) ->
  forall x, hasRequired h' x = hasRequired h x.
Proof. intros Hext x. unfold hasRequired. by rewrite !Hext. Qed.

Lemma dedupe_heap_ext (h h' : heap) :
  (forall v key, getProp h' v key = getProp h v key) ->
  forall items seenIds uniqueData,
    dedupe h' items seenIds uniqueData = dedupe h items seenIds uniqueData.
Proof.
  intros Hext. induction items as [|x items IH]; intros seenIds uniqueData;
    simpl; [done|].
  rewrite Hext. destruct (getProp h x "id") as [i|e]; simpl; [|done].
  destruct (setHas seenIds i); simpl; apply IH.
Qed.

Lemma validateImportData_accepted (h : heap) (data : val) (items : list val) :
  arrayElems h data = Some items ->
  everyM (hasRequired h) items = Normal true ->
  validateImportData h data
  = (<[fresh (dom h) := CArr (firstOccurrences h [] items)]> h,
     Normal (Accepted (fresh (dom h))
               (Z.of_nat (length items)
                - Z.of_nat (length (firstOccurrences h [] items))))).
Proof.
  intros Harr Hall. unfold validateImportData. rewrite Harr, Hall.
  rewrite (dedupe_firstOccurrences h items (proj1 (everyM_true _ _) Hall) [] [] []);
    [reflexivity|done].
Qed.

(** C3.  On an array that passes the required-field test,
    [validateImportData] keeps exactly the items that no earlier item of the
    input shares its id with, in input order, in a new array, and reports
    the input length minus the number of items kept.  Ids are compared as
    [Set] compares its keys, so [null] equals [null] and [undefined] equals
    [undefined].  The batch with the ids 1, 1, 2 keeps the first and the
    third record and reports one duplicate. *)
Theorem validateImportData_keeps_first_occurrences
    (h : heap) (data : val) (items : list val) :
  arrayElems h data = Some items ->
  everyM (hasRequired h) items = Normal true ->
  let kept := firstOccurrences h [] items in
  let l := fresh (dom h) in
  validateImportData h data
  = (<[l := CArr kept]> h,
     Normal (Accepted l (Z.of_nat (length items) - Z.of_nat (length kept))))
  /\ h !! l = None
  /\ sameValueZero PNull PNull = true
  /\ sameValueZero PUndef PUndef = true
  /\ validateImportData ExampleHost.deals (VRef 10)
     = (<[13%positive := CArr [VRef 1; VRef 3]%positive]> ExampleHost.deals,
        Normal (Accepted 13 1)).
Proof.
  intros Harr Hall kept l. split; [by apply validateImportData_accepted|].
  split; [apply not_elem_of_dom, is_fresh|].
  do 2 (split; [reflexivity|]). vm_compute. reflexivity.
Qed.

(** C7.  Deduplication is idempotent: when [validateImportData] accepts a
    batch, running it again on the [properties] array it returned accepts
    that array, keeps the same items in the same order and reports no
    duplicate. *)
Theorem validateImportData_idempotent
    (h : heap) (data : val) (h1 : heap) (l : loc) (n : Z) :
  validateImportData h data = (h1, Normal (Accepted l n)) ->
  exists kept l2 h2,
    h1 !! l = Some (CArr kept)
    /\ validateImportData h1 (VRef l) = (h2, Normal (Accepted l2 0))
    /\ h2 !! l2 = Some (CArr kept).
Proof.
  intros Hrun.
  destruct (arrayElems h data) as [items|] eqn:Harr;
    [|unfold validateImportData in Hrun; rewrite Harr in Hrun; discriminate].
  destruct (everyM (hasRequired h) items) as [[|]|e] eqn:Hall;
    try (unfold validateImportData in Hrun; rewrite Harr, Hall in Hrun;
         discriminate).
  rewrite (validateImportData_accepted h data items Harr Hall) in Hrun.
  injection Hrun as <- <- <-.
  set (kept := firstOccurrences h [] items).
  set (l := fresh (dom h)).
  assert (Hfresh : h !! l = None) by apply not_elem_of_dom, is_fresh.
  set (h1 := <[l := CArr kept]> h).
  assert (Hext : forall v key, getProp h1 v key = getProp h v key).
  { intros v key. apply getProp_insert_fresh. by left. }
  assert (Harr1 : arrayElems h1 (VRef l) = Some kept).
  { simpl. unfold h1. by rewrite lookup_insert_eq. }
  assert (Hall1 : everyM (hasRequired h1) kept = Normal true).
  { rewrite (everyM_ext _ _ _ (hasRequired_heap_ext h h1 Hext)).
    apply everyM_true, Forall_forall. intros x Hx.
    apply list_elem_of_In, firstOccurrences_subset in Hx.
    apply everyM_true in Hall.
    rewrite Forall_forall in Hall. apply Hall. by apply list_elem_of_In. }
  exists kept, (fresh (dom h1)), (<[fresh (dom h1) := CArr kept]> h1).
  split; [unfold h1; by rewrite lookup_insert_eq|]. split.
  - unfold validateImportData. rewrite Harr1, Hall1.
    rewrite (dedupe_heap_ext h h1 Hext).
    assert (Hreq : Forall (fun x => hasRequired h x = Normal true) kept).
    { apply everyM_true.
      by rewrite <- (everyM_ext _ _ _ (hasRequired_heap_ext h h1 Hext)). }
    rewrite (dedupe_firstOccurrences h kept Hreq [] [] []); [|done].
    unfold kept at 1 2 3.
    rewrite (firstOccurrences_stable h items [] []); [|done].
    fold kept. simpl. unfold allocArray.
    repeat f_equal. lia.
  - by rewrite lookup_insert_eq.
Qed.

(** ** Property reads that cannot raise *)

Lemma getProp_nonnull (h : heap) (v : val) (key : string) :
  isNullVal v = false -> getProp h v key = Normal (fieldOf h v key).
Proof.
  unfold fieldOf. destruct v as [p|l]; simpl.
  - by destruct p.
  - by destruct (h !! l) as [[m|e]|].
Qed.

Lemma everyM_hasRequired_returns (h : heap) (items : list val) :
  Forall (fun v => isNullVal v = false) items ->
  exists b, everyM (hasRequired h) items = Normal b.
Proof.
  induction 1 as [|x items Hx _ [b IH]]; simpl; [by exists true|].
  unfold hasRequired. rewrite !(getProp_nonnull h x _ Hx). simpl.
  destruct (truthy (fieldOf h x "address")); simpl; [|by exists false].
  destruct (truthy (fieldOf h x "city")); [by exists b|by exists false].
Qed.

(** ** The validator as independent checks *)

Lemma blank_isBlank (v : prim) :
  textOrFalsy v = true -> blank v = Normal (isBlank v).
Proof.
  unfold blank, isBlank, textOrFalsy.
  destruct v as [| |b|n|s]; simpl; try done.
  - by destruct b.
  - intros ->. done.
  - by destruct s.
Qed.

Lemma pushIf_app (c : bool) (msg : string) (errors : list string) :
  pushIf c msg errors = errors ++ (if c then [msg] else []).
Proof. destruct c; simpl; [done|by rewrite app_nil_r]. Qed.

Lemma reported_cons (c : bool) (msg : string) (cs : list (bool * string)) :
  reported ((c, msg) :: cs) = (if c then [msg] else []) ++ reported cs.
Proof. unfold reported. simpl. by destruct c. Qed.

Lemma validatePropertyData_checks (P : Platform) (h : heap) (data : val) :
  isNullVal data = false ->
  textOrFalsy (fieldOf h data "address") = true ->
  textOrFalsy (fieldOf h data "city") = true ->
  validatePropertyData P h data = Normal (reported (checks P (fieldOf h data))).
Proof.
  intros Hnn Ha Hc. unfold validatePropertyData.
  rewrite !(getProp_nonnull h data _ Hnn). cbn [bind].
  rewrite (blank_isBlank _ Ha), (blank_isBlank _ Hc). cbn [bind].
  unfold checks. rewrite !reported_cons, !pushIf_app.
  unfold reported. simpl List.filter. simpl List.map.
  by rewrite app_nil_r, <- !app_assoc.
Qed.





(** C4, as amended.  [validateImportData] answers a value that is not an
    array with the rejection descriptor, and never raises on an array none
    of whose items is [null] or [undefined]; [validatePropertyData] never
    raises on a candidate that is neither [null] nor [undefined] and whose
    address and city are text or falsy: it returns its list of messages. *)
Theorem validators_return_on_non_null_input
    (P : Platform) (h : heap) (batch candidate : val) :
  noNullItem h batch = true ->
  isNullVal candidate = false ->
  textOrFalsy (fieldOf h candidate "address") = true ->
  textOrFalsy (fieldOf h candidate "city") = true ->
  match arrayElems h batch with
  | None =>
      validateImportData h batch
      = (h, Normal (Rejected "Expected array of properties"))
  | Some _ => exists h' r, validateImportData h batch = (h', Normal r)
  end
  /\ exists errors, validatePropertyData P h candidate = Normal errors.
Proof.
  intros Hitems Hnn Ha Hc. split.
  - unfold noNullItem in Hitems.
    destruct (arrayElems h batch) as [items|] eqn:Harr.
    + assert (Hall : Forall (fun v => isNullVal v = false) items).
      { apply Forall_forall. intros v Hv%list_elem_of_In.
        rewrite forallb_forall in Hitems.
        by apply negb_true_iff, Hitems. }
      destruct (everyM_hasRequired_returns h items Hall) as [[|] Hb].
      * rewrite (validateImportData_accepted h batch items Harr Hb). eauto.
      * unfold validateImportData. rewrite Harr, Hb. eauto.
    + unfold validateImportData. by rewrite Harr.
  - eexists. by apply validatePropertyData_checks.
Qed.

(** ** Quoting of CSV cells *)

Lemma count_quotes_doubled (s : string) :
  count isQuote (doubleQuotes s) = (2 * count isQuote s)%nat.
Proof.
  induction s as [|c s IH]; [reflexivity|].
  cbn [doubleQuotes count].
  destruct (eqChar c dquote) eqn:E; cbn [count];
    change (isQuote c) with (eqChar c dquote); rewrite E; lia.
Qed.

Lemma count_append (p : ascii -> bool) (s t : string) :
  count p (String.append s t) = (count p s + count p t)%nat.
Proof. induction s as [|c s IH]; simpl; [done|]. rewrite IH. lia. Qed.

Lemma count_quotes_quoted (s : string) :
  count isQuote (quoted s) = (2 + count isQuote s)%nat.
Proof.
  unfold quoted. cbn [count]. rewrite count_append. cbn [count].
  change (isQuote dquote) with true. cbv iota. lia.
Qed.

Lemma eqChar_eq (a b : ascii) : eqChar a b = true -> a = b.
Proof.
  unfold eqChar, code. intros H%N.eqb_eq.
  rewrite <- (ascii_N_embedding a), <- (ascii_N_embedding b). by rewrite H.
Qed.

Lemma readQuotedBody_doubled (s : string) :
  readQuotedBody (String.append (doubleQuotes s) (String dquote "")) = Some s.
Proof.
  induction s as [|c s IH]; [reflexivity|].
  cbn [doubleQuotes]. destruct (eqChar c dquote) eqn:E; simpl; rewrite !E, IH.
  - simpl. by rewrite (eqChar_eq _ _ E).
  - reflexivity.
Qed.

Lemma readQuotedCell_doubled (s : string) :
  readQuotedCell (quoted (doubleQuotes s)) = Some s.
Proof. unfold readQuotedCell, quoted. simpl. apply readQuotedBody_doubled. Qed.

(** What a reader gets from a body is never longer than the field that was
    written, and is shorter as soon as the field holds a quote. *)
Lemma readQuotedBody_verbatim (n : nat) :
  forall s t, (String.length s < n)%nat ->
    readQuotedBody (String.append s (String dquote "")) = Some t ->
    (String.length t <= String.length s)%nat
    /\ ((0 < count isQuote s)%nat -> (String.length t < String.length s)%nat).
Proof.
  induction n as [|n IH]; intros s t Hlen Hread; [lia|].
  destruct s as [|c s]; simpl in Hread.
  - injection Hread as <-. simpl. lia.
  - destruct (eqChar c dquote) eqn:E.
    + destruct s as [|c' s]; simpl in Hread; [discriminate|].
      destruct (eqChar c' dquote); [|discriminate].
      destruct (readQuotedBody (String.append s (String dquote ""))) as [t'|] eqn:Ht;
        [|discriminate].
      injection Hread as <-.
      destruct (IH s t') as [Hle _]; [simpl in Hlen; lia|exact Ht|].
      simpl. lia.
    + destruct (readQuotedBody (String.append s (String dquote ""))) as [t'|] eqn:Ht;
        [|discriminate].
      injection Hread as <-.
      destruct (IH s t') as [Hle Hlt]; [simpl in Hlen; lia|exact Ht|].
      simpl. unfold isQuote at 1. rewrite E. simpl. split; [lia|].
      intros Hq. specialize (Hlt Hq). lia.
Qed.

Lemma readQuotedCell_verbatim (s : string) :
  (0 < count isQuote s)%nat -> readQuotedCell (quoted s) <> Some s.
Proof.
  intros Hq Hread. unfold readQuotedCell, quoted in Hread. simpl in Hread.
  destruct (readQuotedBody_verbatim (S (String.length s)) s s) as [_ Hlt];
    [lia|exact Hread|].
  specialize (Hlt Hq). lia.
Qed.

(** ** The cells of a CSV row *)

Lemma asString_orElse_text (v : prim) :
  textOrFalsy v = true -> asString (orElse v (PStr "")) = Normal (textOf v).
Proof.
  unfold textOrFalsy, orElse. destruct (truthy v) eqn:Ht.
  - rewrite orb_false_r. by destruct v.
  - intros _. destruct v as [| |b|n|s]; try done. by destruct s.
Qed.

Lemma joinItem_empty_or_text (P : Platform) (v : prim) :
  (joinItem P v = "" \/ joinItem P v = toString P v)
  /\ (missing v = true -> joinItem P v = "").
Proof.
  unfold joinItem, missing. destruct v as [| |b|n|s]; simpl;
    try (split; [by left|done]); try (split; [by right|done]).
  split; [by right|]. by intros ->%String.eqb_eq.
Qed.

Lemma joinItem_orElse (P : Platform) (v : prim) :
  (joinItem P (orElse v (PStr "")) = ""
   \/ joinItem P (orElse v (PStr "")) = toString P v)
  /\ (missing v = true -> joinItem P (orElse v (PStr "")) = "").
Proof.
  unfold orElse. destruct (truthy v) eqn:Ht.
  - apply joinItem_empty_or_text.
  - split; [by left|done].
Qed.

Lemma joinItem_orElse_eq (P : Platform) (v : prim) :
  joinItem P (orElse v (PStr ""))
  = if truthy v then toString P v else "".
Proof.
  unfold orElse, joinItem. destruct (truthy v) eqn:Ht; [|reflexivity].
  by destruct v.
Qed.

Lemma rowCells_eq (P : Platform) (h : heap) (p : val) :
  isNullVal p = false ->
  textOrFalsy (fieldOf h p "notes") = true ->
  let get := fieldOf h p in
  let plain key := joinItem P (orElse (get key) (PStr "")) in
  rowCells P h p
  = Normal
      [quoted (toString P (get "address"));
       joinItem P (get "city");
       plain "zip"; plain "county";
       joinItem P (get "type");
       plain "beds"; plain "baths"; plain "sqft"; plain "asking";
       plain "arv"; plain "rehab";
       quoted (toString P (orElse (get "access") (PStr "")));
       joinItem P (get "stage");
       quoted (doubleQuotes (textOf (get "notes")));
       plain "pictures"; plain "contractLink"; plain "investorSheetLink";
       plain "lat"; plain "lng"; plain "geoPrecision"; plain "dateAdded";
       (if truthy (get "dateAdded")
        then numberToString P (elapsedDays P (get "dateAdded")) else "");
       plain "lastUpdated"].
Proof.
  intros Hnn Hnotes get plain. unfold rowCells, rowValues.
  rewrite !(getProp_nonnull h p _ Hnn). cbn [bind].
  rewrite (asString_orElse_text _ Hnotes). cbn [bind List.map].
  unfold getDaysSinceAdded. fold get.
  destruct (truthy (get "dateAdded")); reflexivity.
Qed.

Lemma mapM_middle {A B} (f : A -> completion B) (before : list A) (x : A)
    (after : list A) (rows : list B) :
  mapM f (before ++ x :: after) = Normal rows ->
  exists r1 y r2,
    rows = r1 ++ y :: r2 /\ f x = Normal y /\ length r1 = length before.
Proof.
  revert rows. induction before as [|b before IH]; simpl; intros rows.
  - destruct (f x) as [y|e]; simpl; [|discriminate].
    destruct (mapM f after) as [r2|e]; simpl; [|discriminate].
    intros [= <-]. by exists [], y, r2.
  - destruct (f b) as [z|e]; simpl; [|discriminate].
    destruct (mapM f (before ++ x :: after)) as [r|e]; simpl; [|discriminate].
    intros [= <-]. destruct (IH r eq_refl) as (r1 & y & r2 & -> & Hy & Hlen).
    exists (z :: r1), y, r2. simpl. by rewrite Hlen.
Qed.

(** The line of a record in the exported text: whenever the export of a
    collection succeeds, the line that follows the header and the lines of
    the records before [p] is the comma-join of the cells of [p]. *)
Lemma exportCSVString_line (P : Platform) (h : heap) (properties : val)
    (before : list val) (p : val) (after : list val) (csv : string) :
  arrayElems h properties = Some (before ++ p :: after) ->
  exportCSVString P h properties = Normal csv ->
  exists cells linesBefore linesAfter,
    rowCells P h p = Normal cells
    /\ length linesBefore = length before
    /\ csv = Parser.joinLines
               (String.concat "," header
                :: linesBefore ++ String.concat "," cells :: linesAfter).
Proof.
  intros Harr. unfold exportCSVString. rewrite Harr.
  destruct (mapM (rowCells P h) (before ++ p :: after)) as [rows|e] eqn:Hrows;
    simpl; [|discriminate].
  intros [= <-].
  destruct (mapM_middle _ _ _ _ _ Hrows) as (r1 & cells & r2 & -> & Hp & Hlen).
  exists cells, (List.map (String.concat ",") r1), (List.map (String.concat ",") r2).
  split; [exact Hp|]. split; [by rewrite length_map|].
  by rewrite map_app.
Qed.

(** C9.  A record whose notes are text or absent has a row of 23 cells,
    and that row, joined with commas, is its line in every successful
    export of a collection that holds it.  In the row the cells of address,
    access and notes are wrapped in double quotes, every double quote of
    the notes is doubled (so that a reader of the cell gets the notes
    back), and each of the twenty other cells is either empty or the bare
    text of its value, and is empty whenever the value is [null],
    [undefined] or the empty string.  Cell by cell: a column written as
    [p.field || ''] shows the bare text of a truthy value and nothing for
    a falsy one; the columns of city, type and stage show the bare text of
    the value and nothing for [null] and [undefined]; the column of the
    day count shows the number of days when the date is truthy and nothing
    otherwise. *)
Theorem exportCSVString_quotes_three_columns
    (P : Platform) (h : heap) (p : val) :
  isNullVal p = false ->
  textOrFalsy (fieldOf h p "notes") = true ->
  exists cells,
    rowCells P h p = Normal cells
    /\ length cells = 23%nat
    /\ (forall properties before after csv,
          arrayElems h properties = Some (before ++ p :: after) ->
          exportCSVString P h properties = Normal csv ->
          exists linesBefore linesAfter,
            length linesBefore = length before
            /\ csv = Parser.joinLines
                       (String.concat "," header
                        :: linesBefore
                           ++ String.concat "," cells :: linesAfter))
    /\ cells !! 0%nat = Some (quoted (toString P (fieldOf h p "address")))
    /\ cells !! 11%nat
       = Some (quoted (toString P (orElse (fieldOf h p "access") (PStr ""))))
    /\ cells !! 13%nat
       = Some (quoted (doubleQuotes (textOf (fieldOf h p "notes"))))
    /\ (forall s, count isQuote (doubleQuotes s) = (2 * count isQuote s)%nat
                  /\ readQuotedCell (quoted (doubleQuotes s)) = Some s)
    /\ (forall i key, In (i, key) plainColumns ->
        exists c, cells !! i = Some c
                  /\ (c = "" \/ c = toString P (fieldOf h p key))
                  /\ (missing (fieldOf h p key) = true -> c = ""))
    /\ (exists c, cells !! 21%nat = Some c
                  /\ (c = ""
                      \/ c = numberToString P
                               (elapsedDays P (fieldOf h p "dateAdded")))
                  /\ (missing (fieldOf h p "dateAdded") = true -> c = ""))
    /\ (forall i key, In (i, key) defaultedColumns ->
        cells !! i
        = Some (if truthy (fieldOf h p key)
                then toString P (fieldOf h p key) else ""))
    /\ (forall i key, In (i, key) bareColumns ->
        cells !! i
        = Some (if isNullish (fieldOf h p key)
                then "" else toString P (fieldOf h p key)))
    /\ cells !! 21%nat
       = Some (if truthy (fieldOf h p "dateAdded")
               then numberToString P (elapsedDays P (fieldOf h p "dateAdded"))
               else "").
Proof.
  intros Hnn Hnotes. eexists. split; [by apply rowCells_eq|].
  split; [reflexivity|]. split.
  { intros properties before after csv Harr Hcsv.
    destruct (exportCSVString_line P h properties before p after csv Harr Hcsv)
      as (cells & l1 & l2 & Hcells & Hlen & ->).
    rewrite (rowCells_eq P h p Hnn Hnotes) in Hcells.
    injection Hcells as <-. by exists l1, l2. }
  do 3 (split; [reflexivity|]).
  split; [intros s; split; [apply count_quotes_doubled|apply readQuotedCell_doubled]|].
  split.
  - intros i key Hin. unfold plainColumns in Hin. simpl in Hin.
    repeat (destruct Hin as [[= <- <-]|Hin];
            [eexists; split; [reflexivity|];
             first [apply joinItem_orElse | apply joinItem_empty_or_text]|]).
    destruct Hin.
  - split; [|split; [|split]].
    + eexists. split; [reflexivity|].
      destruct (truthy (fieldOf h p "dateAdded")) eqn:Ht; split; auto.
      unfold missing. intros Hm.
      destruct (fieldOf h p "dateAdded") as [| |b|n|s]; simpl in *; try done.
      apply String.eqb_eq in Hm as ->. done.
    + intros i key Hin. unfold defaultedColumns in Hin. simpl in Hin.
      repeat (destruct Hin as [[= <- <-]|Hin];
              [cbn [lookup list_lookup]; f_equal; apply joinItem_orElse_eq|]).
      destruct Hin.
    + intros i key Hin. unfold bareColumns in Hin. simpl in Hin.
      repeat (destruct Hin as [[= <- <-]|Hin]; [reflexivity|]).
      destruct Hin.
    + reflexivity.
Qed.

(** C10, as amended.  A double quote in the address or in the access text
    is written as it is between the wrapping quotes: the cell is not the
    escaped form of the field and a reader of the cell never gets the field
    back.  The cell holds two quotes more than the field, so its quotes are
    odd in number exactly when those of the field are. *)
Theorem exportCSVString_address_access_verbatim
    (P : Platform) (h : heap) (p : val) :
  isNullVal p = false ->
  textOrFalsy (fieldOf h p "notes") = true ->
  exists cells,
    rowCells P h p = Normal cells
    /\ forall i key s,
         In (i, key) [(0%nat, "address"); (11%nat, "access")] ->
         fieldOf h p key = PStr s ->
         (0 < count isQuote s)%nat ->
         cells !! i = Some (quoted s)
         /\ quoted s <> quoted (doubleQuotes s)
         /\ readQuotedCell (quoted s) <> Some s
         /\ count isQuote (quoted s) = (2 + count isQuote s)%nat
         /\ Nat.odd (count isQuote (quoted s)) = Nat.odd (count isQuote s).
Proof.
  intros Hnn Hnotes. eexists. split; [by apply rowCells_eq|].
  intros i key s Hin Hs Hq.
  assert (Hcell : (i = 0%nat /\ key = "address") \/ (i = 11%nat /\ key = "access")).
  { simpl in Hin. destruct Hin as [[= <- <-]|[[= <- <-]|[]]]; auto. }
  split; [|split; [|split; [|split]]].
  - destruct Hcell as [[-> ->]|[-> ->]]; simpl; rewrite Hs; [done|].
    unfold orElse. by destruct s.
  - intros Heq. apply (f_equal (count isQuote)) in Heq.
    rewrite !count_quotes_quoted, count_quotes_doubled in Heq. lia.
  - by apply readQuotedCell_verbatim.
  - apply count_quotes_quoted.
  - by rewrite count_quotes_quoted.
Qed.

(** ** The ARV rule of the parser *)

Lemma accessRule_keeps_prices (st st' : Parser.Locals) (line : string) :
  Parser.accessRule st line = Some st' ->
  Parser.arv st' = Parser.arv st /\ Parser.asking st' = Parser.asking st
  /\ Parser.notes st' = Parser.notes st.
Proof.
  unfold Parser.accessRule.
  destruct (_ || _); [|discriminate]. by intros [= <-].
Qed.

Lemma picturesRule_keeps_prices (st st' : Parser.Locals) (line : string) :
  Parser.picturesRule st line = Some st' ->
  Parser.arv st' = Parser.arv st /\ Parser.asking st' = Parser.asking st
  /\ Parser.notes st' = Parser.notes st.
Proof.
  unfold Parser.picturesRule.
  destruct (_ || _); [|discriminate].
  destruct (findFirst Parser.urlAt line); [|discriminate]. by intros [= <-].
Qed.

Lemma notesRule_keeps_prices (st : Parser.Locals) (line : string) :
  Parser.arv (Parser.notesRule st line) = Parser.arv st
  /\ Parser.asking (Parser.notesRule st line) = Parser.asking st.
Proof. unfold Parser.notesRule. by destruct (_ <? _)%nat. Qed.

Lemma askingRule_needs_kNumber (st : Parser.Locals) (line : string) :
  Parser.kNumber line = None -> Parser.askingRule st line = None.
Proof. intros Hk. unfold Parser.askingRule. rewrite Hk. by destruct (_ || _). Qed.

(** C6, as amended.  A line that reaches the ARV rule and holds [arv] or
    [worth]: with a K-suffixed number it sets [arv] to [Math.round] of the
    product, taken in doubles, of the parsed number and 1000, and nothing
    else, so it is never an asking price; without one it changes neither
    [arv] nor [asking] and goes on to the access and picture rules, and it
    is appended to the notes (when longer than three characters) only if
    neither of the two takes it.  The block whose second line is the ARV in
    dollars without a K leaves [arv] null; the line [ARV 0.5005k] gives 500,
    the product in doubles lying just under 500.5. *)
Theorem parseBlock_arv_line (st : Parser.Locals) (line : string) :
  Parser.addressRule st line = None ->
  Parser.countyRule st line = None ->
  Parser.bedsBathsRule st line = None ->
  includes "arv" (toLowerCase line) || includes "worth" (toLowerCase line)
  = true ->
  match Parser.kNumber line with
  | Some x =>
      Parser.parseLine st line
      = {| Parser.address := Parser.address st; Parser.city := Parser.city st;
           Parser.zip := Parser.zip st; Parser.county := Parser.county st;
           Parser.beds := Parser.beds st; Parser.baths := Parser.baths st;
           Parser.asking := Parser.asking st;
           Parser.access := Parser.access st;
           Parser.pictures := Parser.pictures st;
           Parser.arv := PNum (round (JsDouble.mul x (ofZ 1000)));
           Parser.notes := Parser.notes st |}
  | None =>
      Parser.arv (Parser.parseLine st line) = Parser.arv st
      /\ Parser.asking (Parser.parseLine st line) = Parser.asking st
      /\ (Parser.accessRule st line = None ->
          Parser.picturesRule st line = None ->
          Parser.notes (Parser.parseLine st line)
          = if (3 <? String.length line)%nat
            then Parser.notes st ++ [line] else Parser.notes st)
      /\ (Parser.accessRule st line <> None
          \/ Parser.picturesRule st line <> None ->
          Parser.notes (Parser.parseLine st line) = Parser.notes st)
  end
  /\ parseBlock (ExampleHost.block ["123 Main St, Chester, PA"; "ARV $275,000"])
     !! "arv" = Some PNull
  /\ parseBlock (ExampleHost.block ["123 Main St, Chester, PA"; "ARV 0.5005k"])
     !! "arv" = Some (PNum (ofZ 500)).
Proof.
  intros Haddr Hcounty Hbeds Hword.
  split; [|split; vm_compute; reflexivity].
  assert (Hrule : Parser.kNumber line = None -> Parser.arvRule st line = None).
  { intros Hk. unfold Parser.arvRule. rewrite Hk. by destruct (_ || _). }
  unfold Parser.parseLine. cbn [Parser.firstOf].
  rewrite Haddr, Hcounty, Hbeds.
  destruct (Parser.kNumber line) as [q|] eqn:Hk.
  { unfold Parser.arvRule, Parser.lower. by rewrite Hword, Hk. }
  rewrite (Hrule eq_refl), (askingRule_needs_kNumber st line Hk).
  destruct (Parser.accessRule st line) as [sa|] eqn:Ha.
  { destruct (accessRule_keeps_prices _ _ _ Ha) as (Harv & Hask & Hnotes).
    split; [exact Harv|]. split; [exact Hask|]. split; [discriminate|].
    intros _. exact Hnotes. }
  destruct (Parser.picturesRule st line) as [sp|] eqn:Hp.
  { destruct (picturesRule_keeps_prices _ _ _ Hp) as (Harv & Hask & Hnotes).
    split; [exact Harv|]. split; [exact Hask|]. split; [discriminate|].
    intros _. exact Hnotes. }
  destruct (notesRule_keeps_prices st line) as [Harv Hask].
  split; [exact Harv|]. split; [exact Hask|]. split.
  - intros _ _. unfold Parser.notesRule. by destruct (_ <? _)%nat.
  - intros [?|?]; done.
Qed.

(** ** When [getFiltered] returns *)

Lemma filterM_returns (p : val -> completion bool) (l : list val) :
  Forall (fun x => returns (p x)) l ->
  exists r, filterM p l = Normal r /\ forall x, In x r -> In x l.
Proof.
  induction 1 as [|x l Hx _ (r & Hr & Hsub)]; simpl.
  - by exists [].
  - destruct (p x) as [b|e]; [|destruct Hx]. simpl. rewrite Hr. simpl.
    destruct b; eexists; split; try reflexivity; simpl; intuition.
Qed.

Section SortReturns.

Variable compareFn : val -> val -> completion Z.
Variable ok : val -> Prop.
Hypothesis compare_returns : forall a b, ok a -> ok b -> returns (compareFn a b).

Lemma insertSorted_returns (x : val) (placed : list val) :
  ok x -> Forall ok placed ->
  exists r, insertSorted compareFn x placed = Normal r /\ Forall ok r.
Proof.
  intros Hx. induction 1 as [|y placed Hy Hplaced (r & Hr & Hok)]; simpl.
  - exists [x]. by repeat constructor.
  - pose proof (compare_returns x y Hx Hy) as Hc.
    destruct (compareFn x y) as [c|e]; [|destruct Hc]. simpl.
    destruct (c <? 0).
    + rewrite Hr. simpl. eexists. split; [reflexivity|by constructor].
    + eexists. split; [reflexivity|]. by repeat constructor.
Qed.

Lemma insertAll_returns (todo placed : list val) :
  Forall ok todo -> Forall ok placed ->
  exists r, insertAll compareFn todo placed = Normal r.
Proof.
  intros Htodo. revert placed.
  induction Htodo as [|x todo Hx _ IH]; intros placed Hplaced; simpl.
  - by eexists.
  - destruct (insertSorted_returns x placed Hx Hplaced) as (r & -> & Hr).
    simpl. by apply IH.
Qed.

Lemma arraySort_returns (l : list val) :
  Forall ok l -> exists r, arraySort compareFn l = Normal r.
Proof.
  intros Hl. unfold arraySort.
  destruct (insertAll_returns (List.filter (fun v => negb (isUndefined v)) l) [])
    as [r ->]; [|constructor|by eexists].
  apply Forall_forall. intros x Hx%list_elem_of_In%filter_In.
  rewrite Forall_forall in Hl. apply Hl, list_elem_of_In. tauto.
Qed.

End SortReturns.

(** [getFiltered] returns whenever none of its two callbacks raises on the
    elements of the collection. *)
Lemma getFiltered_returns (h : heap) (properties : val) (o : QueryOptions)
    (elems : list val) :
  arrayElems h properties = Some elems ->
  Forall (fun x => returns (keeps h o x)) elems ->
  (forall a b, In a elems -> In b elems -> returns (sortCompare h o a b)) ->
  returns (snd (getFiltered h properties o)).
Proof.
  intros Harr Hkeeps Hcmp. unfold getFiltered. rewrite Harr.
  destruct (filterM_returns _ _ Hkeeps) as (kept & -> & Hsub).
  unfold allocArray.
  set (h1 := <[fresh (dom h) := CArr kept]> h).
  assert (Hext : forall v key, getProp h1 v key = getProp h v key).
  { intros v key. apply getProp_insert_fresh. left.
    apply not_elem_of_dom, is_fresh. }
  destruct (arraySort_returns (sortCompare h1 o) (fun x => In x elems)) with (l := kept)
    as [sorted ->]; [| |done].
  - intros a b Ha Hb. rewrite (sortCompare_heap_ext h h1 o Hext). by apply Hcmp.
  - apply Forall_forall. intros x Hx. by apply Hsub, list_elem_of_In.
Qed.

(** ** A missing key against a text key *)

Lemma sortCompare_missing_then_text (h : heap) (o : QueryOptions)
    (a b : val) (s : string) :
  isNullVal a = false -> isNullVal b = false ->
  missing (fieldOf h a (sortKey (sortField o))) = true ->
  fieldOf h b (sortKey (sortField o)) = PStr s ->
  isEmpty s = false ->
  ofString s = NaN ->
  sortCompare h o a b = Normal 0
  /\ sortCompare h o b a = Throw TypeError.
Proof.
  intros Ha Hb Hmiss Hs Hne Hnan. unfold sortCompare.
  rewrite (getProp_nonnull h a _ Ha), (getProp_nonnull h b _ Hb), Hs.
  cbn [bind]. unfold orMissing. fold (missing (fieldOf h a (sortKey (sortField o)))).
  rewrite Hmiss.
  assert (Hs' : isNullish (PStr s) || strictEq (PStr s) (PStr "") = false).
  { simpl. by destruct s. }
  rewrite Hs'. unfold missingKey. split.
  - cbn [isString bind]. unfold greaterThan, lessThan. cbn [toNumber].
    rewrite Hnan. by destruct (ascending o).
  - reflexivity.
Qed.

(** C5.  [computeSpread] returns [null] exactly when [arv] or [asking] is
    falsy, and zero, [null], [undefined] and the empty string are falsy;
    otherwise it returns the number [arv - asking - (rehab || 0)], which can
    be negative. *)
Theorem computeSpread_null_iff_falsy :
  (forall arv asking rehab : prim,
     (computeSpread arv asking rehab = PNull
      <-> truthy arv = false \/ truthy asking = false)
     /\ computeSpread arv asking rehab
        = if truthy arv && truthy asking
          then PNum (sub (sub (toNumber arv) (toNumber asking))
                         (toNumber (if truthy rehab then rehab
                                    else PNum (ofZ 0))))
          else PNull)
  /\ (truthy (PNum (ofZ 0)) = false /\ truthy PNull = false
      /\ truthy PUndef = false /\ truthy (PStr "") = false)
  /\ computeSpread (PNum (ofZ 100000)) (PNum (ofZ 150000)) (PNum (ofZ 20000))
     = PNum (ofZ (-70000)).
Proof.
  split; [|split; [by repeat split|reflexivity]].
  intros arv asking rehab. unfold computeSpread, subtract, orElse.
  destruct (truthy arv), (truthy asking); simpl; split;
    try reflexivity; try (split; [intros _; auto|reflexivity]).
  split; [discriminate|]. intros [?|?]; discriminate.
Qed.

(** ** Missing keys against numeric keys *)

Section NumericKeys.

Variable h : heap.
Variable o : QueryOptions.

Lemma orMissing_missing (p : prim) :
  missing p = true -> orMissing o p = missingKey o.
Proof. unfold orMissing, missing. by intros ->. Qed.

Lemma orMissing_finite (p : prim) :
  finiteKey p = true -> orMissing o p = p.
Proof. destruct p as [| |b|[]|s]; try done. Qed.

Lemma sortCompare_absent_first (a b : val) :
  absent h o a -> absent h o b \/ present h o b ->
  exists c, sortCompare h o a b = Normal c /\ 0 <= c.
Proof.
  intros [Ha Hka] Hb. unfold sortCompare.
  rewrite (getProp_nonnull h a _ Ha). fold (keyOf h o a).
  assert (Hnb : isNullVal b = false) by (destruct Hb as [[? _]|[? _]]; done).
  rewrite (getProp_nonnull h b _ Hnb). fold (keyOf h o b). cbn [bind].
  rewrite (orMissing_missing _ Hka).
  destruct Hb as [[_ Hkb]|[_ Hkb]].
  - rewrite (orMissing_missing _ Hkb). unfold missingKey.
    destruct (ascending o); simpl; eexists; split; try reflexivity; lia.
  - rewrite (orMissing_finite _ Hkb). unfold missingKey.
    destruct (keyOf h o b) as [| |?|[| | |q]|?]; try done.
    destruct (ascending o); simpl; eexists; split; try reflexivity; lia.
Qed.

Lemma sortCompare_present_absent (a b : val) :
  present h o a -> absent h o b -> sortCompare h o a b = Normal (-1).
Proof.
  intros [Ha Hka] [Hb Hkb]. unfold sortCompare.
  rewrite (getProp_nonnull h a _ Ha), (getProp_nonnull h b _ Hb).
  fold (keyOf h o a) (keyOf h o b). cbn [bind].
  rewrite (orMissing_missing _ Hkb), (orMissing_finite _ Hka). unfold missingKey.
  destruct (keyOf h o a) as [| |?|[| | |q]|?]; try done.
  by destruct (ascending o).
Qed.

Lemma sortCompare_present_present (a b : val) :
  present h o a -> present h o b -> exists c, sortCompare h o a b = Normal c.
Proof.
  intros [Ha Hka] [Hb Hkb]. unfold sortCompare.
  rewrite (getProp_nonnull h a _ Ha), (getProp_nonnull h b _ Hb).
  fold (keyOf h o a) (keyOf h o b). cbn [bind].
  rewrite (orMissing_finite _ Hka), (orMissing_finite _ Hkb).
  destruct (keyOf h o a) as [| |?|[| | |q]|?]; try done.
  destruct (keyOf h o b) as [| |?|[| | |q']|?]; try done.
  simpl. by eexists.
Qed.

Lemma insertSorted_present (x : val) (withKey : list val) :
  present h o x -> Forall (present h o) withKey ->
  exists r, insertSorted (sortCompare h o) x withKey = Normal r /\ Forall (present h o) r.
Proof.
  intros Hx. induction 1 as [|y l Hy Hl (r & Hr & Hall)]; simpl.
  - exists [x]. split; [reflexivity|]. by apply List.Forall_cons.
  - destruct (sortCompare_present_present x y Hx Hy) as [c ->]. simpl.
    destruct (c <? 0).
    + rewrite Hr. simpl. eexists. split; [reflexivity|by apply List.Forall_cons].
    + eexists. split; [reflexivity|]. apply List.Forall_cons; [done|].
      by apply List.Forall_cons.
Qed.

Lemma insertSorted_keeps_shape (x : val) (placed : list val) :
  absent h o x \/ present h o x -> absentThenPresent h o placed ->
  exists r, insertSorted (sortCompare h o) x placed = Normal r
            /\ absentThenPresent h o r.
Proof.
  intros Hx (without & withKey & -> & Hwo & Hwk). destruct Hx as [Hx|Hx].
  - exists (x :: without ++ withKey). split.
    + destruct without as [|y l]; simpl.
      * destruct withKey as [|y l]; simpl; [done|].
        inversion Hwk; subst.
        destruct (sortCompare_absent_first x y Hx) as (c & -> & Hc); [by right|].
        simpl. destruct (c <? 0) eqn:E; [lia|done].
      * inversion Hwo; subst.
        destruct (sortCompare_absent_first x y Hx) as (c & -> & Hc); [by left|].
        simpl. destruct (c <? 0) eqn:E; [lia|done].
    + exists (x :: without), withKey.
      split; [reflexivity|]. split; [by apply List.Forall_cons|done].
  - induction Hwo as [|y l Hy _ IH]; simpl.
    + destruct (insertSorted_present x withKey Hx Hwk) as (r & Hr & Hall).
      exists r. split; [done|]. exists [], r.
      split; [reflexivity|]. split; [apply List.Forall_nil|done].
    + rewrite (sortCompare_present_absent x y Hx Hy). simpl.
      destruct IH as (r & -> & without & wk & -> & Hwo' & Hwk'). simpl.
      eexists. split; [reflexivity|].
      exists (y :: without), wk.
      split; [reflexivity|]. split; [by apply List.Forall_cons|done].
Qed.

Lemma insertAll_keeps_shape (todo placed : list val) :
  Forall (fun x => absent h o x \/ present h o x) todo -> absentThenPresent h o placed ->
  exists r, insertAll (sortCompare h o) todo placed = Normal r
            /\ absentThenPresent h o r.
Proof.
  intros Htodo. revert placed.
  induction Htodo as [|x todo Hx _ IH]; intros placed Hplaced; simpl.
  - by exists placed.
  - destruct (insertSorted_keeps_shape x placed Hx Hplaced) as (r & -> & Hr).
    simpl. by apply IH.
Qed.

Lemma arraySort_missing_last (l : list val) :
  Forall (fun x => absent h o x \/ present h o x) l ->
  exists withKey without,
    arraySort (sortCompare h o) l = Normal (withKey ++ without)
    /\ Forall (present h o) withKey /\ Forall (absent h o) without.
Proof.
  intros Hl. unfold arraySort.
  assert (Hdef : List.filter (fun v => negb (isUndefined v)) l = l
                 /\ List.filter isUndefined l = []).
  { induction Hl as [|x l Hx _ [IH1 IH2]]; [done|]. simpl.
    assert (isUndefined x = false) as ->.
    { destruct Hx as [[Hn _]|[Hn _]]; by destruct x as [[]|]. }
    simpl. by rewrite IH1, IH2. }
  destruct Hdef as [-> ->].
  destruct (insertAll_keeps_shape l [] Hl) as (r & -> & wo & wk & -> & Hwo & Hwk).
  { exists [], []. split; [reflexivity|]. split; apply List.Forall_nil. }
  simpl. exists (rev wk), (rev wo).
  rewrite app_nil_r, rev_app_distr.
  split; [reflexivity|]. split; by apply Forall_rev.
Qed.

End NumericKeys.


Lemma keeps_returns_without_search (h : heap) (o : QueryOptions) (x : val) :
  isEmpty (searchTerm o) = true -> isNullVal x = false ->
  returns (keeps h o x).
Proof.
  intros Hs Hx. unfold keeps, stageOk, stageIs, fieldOk, searchOk.
  rewrite Hs, !(getProp_nonnull h x _ Hx).
  repeat match goal with
         | |- context [if ?c then _ else _] => destruct c
         end; done.
Qed.

(** For a sort field whose values are finite numbers or missing, the
    array that [getFiltered] returns lists the records with a value before
    the records without one, in both directions. *)
Lemma getFiltered_numeric_keys_missing_last
    (h : heap) (properties : val) (o : QueryOptions) (elems : list val) :
  arrayElems h properties = Some elems ->
  Forall (fun x => absent h o x \/ present h o x) elems ->
  Forall (fun x => returns (keeps h o x)) elems ->
  exists f withKey without,
    getFiltered h properties o
    = (<[f := CArr (withKey ++ without)]> h, Normal (VRef f))
    /\ h !! f = None
    /\ Forall (present h o) withKey /\ Forall (absent h o) without.
Proof.
  intros Harr Hkeys Hkeeps. unfold getFiltered. rewrite Harr.
  destruct (filterM_returns _ _ Hkeeps) as (kept & -> & Hsub).
  unfold allocArray.
  set (f := fresh (dom h)). set (h1 := <[f := CArr kept]> h).
  assert (Hfresh : h !! f = None) by apply not_elem_of_dom, is_fresh.
  assert (Hext : forall v key, fieldOf h1 v key = fieldOf h v key).
  { intros v key. unfold fieldOf, h1.
    rewrite getProp_insert_fresh; [done|by left]. }
  assert (Hkept : Forall (fun x => absent h1 o x \/ present h1 o x) kept).
  { apply Forall_forall. intros x Hx%list_elem_of_In%Hsub%list_elem_of_In.
    rewrite Forall_forall in Hkeys. specialize (Hkeys x Hx).
    unfold absent, present, keyOf in *. by rewrite Hext. }
  destruct (arraySort_missing_last h1 o kept Hkept)
    as (withKey & without & -> & Hwk & Hwo).
  exists f, withKey, without. unfold h1. rewrite insert_insert_eq.
  split; [reflexivity|]. split; [exact Hfresh|].
  split; (eapply Forall_impl; [eassumption|]); intros x;
    unfold absent, present, keyOf; by rewrite Hext.
Qed.

(** C1.  The code does not put a missing text key last.  Collection 11
    lists a record without county before the record of Butler county;
    sorted by county, the comparator answers 0 when the record without
    county is its first argument and raises a [TypeError] when it is the
    second, so [getFiltered] does not return the array with that record
    last: it raises, in both directions. *)
Theorem getFiltered_missing_county_not_last :
  arrayElems ExampleHost.deals (VRef 11) = Some [VRef 1; VRef 2]%positive
  /\ fieldOf ExampleHost.deals (VRef 1) "county" = PNull
  /\ fieldOf ExampleHost.deals (VRef 2) "county" = PStr "Butler"
  /\ sortCompare ExampleHost.deals (ExampleHost.byCounty "asc") (VRef 1) (VRef 2)
     = Normal 0
  /\ sortCompare ExampleHost.deals (ExampleHost.byCounty "asc") (VRef 2) (VRef 1)
     = Throw TypeError
  /\ snd (getFiltered ExampleHost.deals (VRef 11) (ExampleHost.byCounty "asc"))
     = Throw TypeError
  /\ snd (getFiltered ExampleHost.deals (VRef 11) (ExampleHost.byCounty "desc"))
     = Throw TypeError.
Proof. repeat split; vm_compute; reflexivity. Qed.

(** ** Instances *)

Lemma validateImportData_keeps_first_occurrences_witness :
  arrayElems ExampleHost.deals (VRef 10) = Some [VRef 1; VRef 2; VRef 3]%positive
  /\ everyM (hasRequired ExampleHost.deals) [VRef 1; VRef 2; VRef 3]%positive
     = Normal true
  /\ validateImportData ExampleHost.deals (VRef 10)
     = (<[fresh (dom ExampleHost.deals)
          := CArr (firstOccurrences ExampleHost.deals []
                     [VRef 1; VRef 2; VRef 3]%positive)]> ExampleHost.deals,
        Normal (Accepted (fresh (dom ExampleHost.deals))
                  (Z.of_nat (length [VRef 1; VRef 2; VRef 3]%positive)
                   - Z.of_nat (length (firstOccurrences ExampleHost.deals []
                                         [VRef 1; VRef 2; VRef 3]%positive))))).
Proof.
  assert (H1 : arrayElems ExampleHost.deals (VRef 10)
               = Some [VRef 1; VRef 2; VRef 3]%positive)
    by (vm_compute; reflexivity).
  assert (H2 : everyM (hasRequired ExampleHost.deals)
                 [VRef 1; VRef 2; VRef 3]%positive = Normal true)
    by (vm_compute; reflexivity).
  split; [exact H1|]. split; [exact H2|].
  exact (proj1 (validateImportData_keeps_first_occurrences
                  ExampleHost.deals (VRef 10) _ H1 H2)).
Defined.

Lemma validateImportData_idempotent_witness :
  validateImportData ExampleHost.deals (VRef 10)
  = (<[13%positive := CArr [VRef 1; VRef 3]%positive]> ExampleHost.deals,
     Normal (Accepted 13 1))
  /\ exists kept l2 h2,
       (<[13%positive := CArr [VRef 1; VRef 3]%positive]> ExampleHost.deals)
         !! 13%positive = Some (CArr kept)
       /\ validateImportData
            (<[13%positive := CArr [VRef 1; VRef 3]%positive]> ExampleHost.deals)
            (VRef 13)
          = (h2, Normal (Accepted l2 0))
       /\ h2 !! l2 = Some (CArr kept).
Proof.
  assert (H : validateImportData ExampleHost.deals (VRef 10)
              = (<[13%positive := CArr [VRef 1; VRef 3]%positive]>
                   ExampleHost.deals,
                 Normal (Accepted 13 1)))
    by (vm_compute; reflexivity).
  split; [exact H|].
  exact (validateImportData_idempotent _ _ _ _ _ H).
Defined.


Lemma validators_return_on_non_null_input_witness :
  noNullItem ExampleHost.deals (VRef 10) = true
  /\ isNullVal (VRef 1) = false
  /\ textOrFalsy (fieldOf ExampleHost.deals (VRef 1) "address") = true
  /\ textOrFalsy (fieldOf ExampleHost.deals (VRef 1) "city") = true
  /\ (exists h' r, validateImportData ExampleHost.deals (VRef 10)
                   = (h', Normal r))
  /\ (exists errors,
        validatePropertyData ExampleHost.host ExampleHost.deals (VRef 1)
        = Normal errors).
Proof.
  assert (H0 : noNullItem ExampleHost.deals (VRef 10) = true)
    by (vm_compute; reflexivity).
  assert (H1 : textOrFalsy (fieldOf ExampleHost.deals (VRef 1) "address") = true)
    by (vm_compute; reflexivity).
  assert (H2 : textOrFalsy (fieldOf ExampleHost.deals (VRef 1) "city") = true)
    by (vm_compute; reflexivity).
  destruct (validators_return_on_non_null_input
              ExampleHost.host ExampleHost.deals (VRef 10) (VRef 1)
              H0 eq_refl H1 H2)
    as (Himport & Hvalidate).
  assert (Harr : arrayElems ExampleHost.deals (VRef 10)
                 = Some [VRef 1; VRef 2; VRef 3]%positive)
    by (vm_compute; reflexivity).
  rewrite Harr in Himport.
  repeat split; assumption.
Defined.

Lemma exportCSVString_quotes_three_columns_witness :
  isNullVal (VRef 1) = false
  /\ textOrFalsy (fieldOf ExampleHost.deals (VRef 1) "notes") = true
  /\ exists cells,
       rowCells ExampleHost.host ExampleHost.deals (VRef 1) = Normal cells
       /\ cells !! 13%nat
          = Some (quoted (doubleQuotes
                            (textOf (fieldOf ExampleHost.deals (VRef 1) "notes"))))
       /\ cells !! 5%nat
          = Some (if truthy (fieldOf ExampleHost.deals (VRef 1) "beds")
                  then toString ExampleHost.host
                         (fieldOf ExampleHost.deals (VRef 1) "beds")
                  else "").
Proof.
  assert (H : textOrFalsy (fieldOf ExampleHost.deals (VRef 1) "notes") = true)
    by (vm_compute; reflexivity).
  destruct (exportCSVString_quotes_three_columns
              ExampleHost.host ExampleHost.deals (VRef 1) eq_refl H)
    as (cells & Hrow & _ & _ & _ & _ & Hnotes & _ & _ & _ & Hplain & _).
  split; [reflexivity|]. split; [exact H|]. exists cells.
  split; [exact Hrow|]. split; [exact Hnotes|].
  apply (Hplain 5%nat "beds"). unfold defaultedColumns. simpl. tauto.
Defined.

Lemma exportCSVString_address_access_verbatim_witness :
  isNullVal (VRef 4) = false
  /\ textOrFalsy (fieldOf ExampleHost.deals (VRef 4) "notes") = true
  /\ fieldOf ExampleHost.deals (VRef 4) "address" = PStr ExampleHost.pairedQuotes
  /\ (0 < count isQuote ExampleHost.pairedQuotes)%nat
  /\ exists cells,
       rowCells ExampleHost.host ExampleHost.deals (VRef 4) = Normal cells
       /\ cells !! 0%nat = Some (quoted ExampleHost.pairedQuotes)
       /\ readQuotedCell (quoted ExampleHost.pairedQuotes)
          <> Some ExampleHost.pairedQuotes.
Proof.
  assert (H1 : textOrFalsy (fieldOf ExampleHost.deals (VRef 4) "notes") = true)
    by (vm_compute; reflexivity).
  assert (H2 : fieldOf ExampleHost.deals (VRef 4) "address"
               = PStr ExampleHost.pairedQuotes)
    by (vm_compute; reflexivity).
  assert (H3 : (0 < count isQuote ExampleHost.pairedQuotes)%nat)
    by (vm_compute; lia).
  destruct (exportCSVString_address_access_verbatim
              ExampleHost.host ExampleHost.deals (VRef 4) eq_refl H1)
    as (cells & Hrow & Hcells).
  destruct (Hcells 0%nat "address" ExampleHost.pairedQuotes
                   (or_introl eq_refl) H2 H3)
    as (H0 & _ & Hread & _).
  repeat split; try assumption. by exists cells.
Defined.

Lemma parseBlock_arv_line_witness :
  Parser.addressRule ExampleHost.afterAddress "ARV 275k" = None
  /\ Parser.countyRule ExampleHost.afterAddress "ARV 275k" = None
  /\ Parser.bedsBathsRule ExampleHost.afterAddress "ARV 275k" = None
  /\ includes "arv" (toLowerCase "ARV 275k")
     || includes "worth" (toLowerCase "ARV 275k") = true
  /\ Parser.arv (Parser.parseLine ExampleHost.afterAddress "ARV 275k")
     = PNum (ofZ 275000)
  /\ Parser.asking (Parser.parseLine ExampleHost.afterAddress "ARV 275k")
     = PNull.
Proof.
  assert (H1 : Parser.addressRule ExampleHost.afterAddress "ARV 275k" = None)
    by (vm_compute; reflexivity).
  assert (H2 : Parser.countyRule ExampleHost.afterAddress "ARV 275k" = None)
    by (vm_compute; reflexivity).
  assert (H3 : Parser.bedsBathsRule ExampleHost.afterAddress "ARV 275k" = None)
    by (vm_compute; reflexivity).
  assert (H4 : includes "arv" (toLowerCase "ARV 275k")
               || includes "worth" (toLowerCase "ARV 275k") = true)
    by (vm_compute; reflexivity).
  assert (Hk : Parser.kNumber "ARV 275k" = Some (ofZ 275))
    by (vm_compute; reflexivity).
  destruct (parseBlock_arv_line ExampleHost.afterAddress "ARV 275k" H1 H2 H3 H4)
    as [Hline _].
  rewrite Hk in Hline.
  repeat split; try assumption; rewrite Hline; vm_compute; reflexivity.
Defined.

(** ** Inputs on which a claim of the specification fails *)

(** C4: an array that holds [null], a candidate that is [null] or
    [undefined], and a record whose address is a number make the
    validators raise. *)
Lemma validators_throw_on_null_input :
  arrayElems ExampleHost.deals (VRef 12) = Some [VPrim PNull]
  /\ snd (validateImportData ExampleHost.deals (VRef 12)) = Throw TypeError
  /\ validatePropertyData ExampleHost.host ExampleHost.deals (VPrim PNull)
     = Throw TypeError
  /\ validatePropertyData ExampleHost.host ExampleHost.deals (VPrim PUndef)
     = Throw TypeError
  /\ fieldOf ExampleHost.deals (VRef 5) "address" = PNum (ofZ 5)
  /\ validatePropertyData ExampleHost.host ExampleHost.deals (VRef 5)
     = Throw TypeError.
Proof. repeat split; vm_compute; reflexivity. Qed.


(** C6: a line with [worth] and no K-suffixed number, longer than three
    characters, that none of the address, county and beds rules takes; it
    becomes the access text and the notes stay empty. *)
Lemma parseBlock_worth_line_taken_as_access :
  let st := ExampleHost.afterAddress in
  let line := "Worth a look, back door open" in
  Parser.addressRule st line = None
  /\ Parser.countyRule st line = None
  /\ Parser.bedsBathsRule st line = None
  /\ includes "worth" (toLowerCase line) = true
  /\ Parser.kNumber line = None
  /\ (3 < String.length line)%nat
  /\ Parser.notes st = []
  /\ Parser.notes (Parser.parseLine st line) = []
  /\ Parser.notes (Parser.parseLine st line) <> Parser.notes st ++ [line]
  /\ Parser.access (Parser.parseLine st line) = PStr line
  /\ parseBlock (ExampleHost.block ["123 Main St, Chester, PA"; line])
     !! "notes" = Some (PStr "")
  /\ parseBlock (ExampleHost.block ["123 Main St, Chester, PA"; line])
     !! "access" = Some (PStr line).
Proof.
  cbv zeta. repeat split; try (vm_compute; reflexivity).
  - vm_compute. lia.
  - vm_compute. discriminate.
Qed.

(** C10: the address of record 4 holds two adjacent double quotes; its
    cell has four quotes, an even number, and is a well-formed quoted
    cell, which a reader accepts. *)
Lemma exportCSVString_paired_quotes_balanced :
  fieldOf ExampleHost.deals (VRef 4) "address" = PStr ExampleHost.pairedQuotes
  /\ (0 < count isQuote ExampleHost.pairedQuotes)%nat
  /\ (exists cells,
        rowCells ExampleHost.host ExampleHost.deals (VRef 4) = Normal cells
        /\ cells !! 0%nat = Some (quoted ExampleHost.pairedQuotes))
  /\ count isQuote (quoted ExampleHost.pairedQuotes) = 4%nat
  /\ Nat.even (count isQuote (quoted ExampleHost.pairedQuotes)) = true
  /\ readQuotedCell (quoted ExampleHost.pairedQuotes)
     = Some (String "a" (String dquote "b")).
Proof.
  repeat split; try (vm_compute; reflexivity).
  - vm_compute. lia.
  - eexists. split; vm_compute; reflexivity.
Qed.

(** ** Agreement with the test suite *)

Example parseBlock_complete_block :
  let deal :=
    parseBlock
      (ExampleHost.block
         ["105 Mohawk St, Bruin, PA 16022"; "Butler County"; "2 bed 2 bath";
          "Asking 29.9k"; "ARV 80k"; "Access: 3333 front door";
          "https://www.dropbox.com/scl/fo/xyz"; "No heat, No electric"]) in
  deal !! "address" = Some (PStr "105 Mohawk St")
  /\ deal !! "city" = Some (PStr "Bruin")
  /\ deal !! "zip" = Some (PStr "16022")
  /\ deal !! "county" = Some (PStr "Butler")
  /\ deal !! "beds" = Some (PNum (ofZ 2))
  /\ deal !! "baths" = Some (PNum (ofZ 2))
  /\ deal !! "asking" = Some (PNum (ofZ 29900))
  /\ deal !! "arv" = Some (PNum (ofZ 80000))
  /\ deal !! "access" = Some (PStr "3333 front door")
  /\ deal !! "pictures" = Some (PStr "https://www.dropbox.com/scl/fo/xyz")
  /\ deal !! "notes" = Some (PStr "No heat, No electric").
Proof. cbv zeta. repeat split; vm_compute; reflexivity. Qed.

Example parseBlock_abbreviations :
  let deal :=
    parseBlock
      (ExampleHost.block
         ["456 Oak Ave, Johnstown"; "4br 2.5ba"; "$49.9k"; "ok";
          "Lockbox 1234"; "Photos: https://www.dropbox.com/scl/fo/xyz"]) in
  deal !! "address" = Some (PStr "456 Oak Ave")
  /\ deal !! "city" = Some (PStr "Johnstown")
  /\ deal !! "beds" = Some (PNum (ofZ 4))
  /\ deal !! "baths" = Some (PNum (Fin (5 # 2)))
  /\ deal !! "asking" = Some (PNum (ofZ 49900))
  /\ deal !! "access" = Some (PStr "Lockbox 1234")
  /\ deal !! "pictures" = Some (PStr "https://www.dropbox.com/scl/fo/xyz")
  /\ deal !! "notes" = Some (PStr "").
Proof. cbv zeta. repeat split; vm_compute; reflexivity. Qed.

Example parseBlock_arv_does_not_overwrite_asking :
  let deal :=
    parseBlock
      (ExampleHost.block
         ["123 Main St, Chester, PA"; "Asking 99k"; "Worth 200k"]) in
  deal !! "asking" = Some (PNum (ofZ 99000))
  /\ deal !! "arv" = Some (PNum (ofZ 200000)).
Proof. cbv zeta. repeat split; vm_compute; reflexivity. Qed.

Example parseBlock_unparseable :
  parseBlock "just some random text" !! "address" = Some (PStr "")
  /\ parseBlock "" !! "address" = Some (PStr "")
  /\ parseBlock "" !! "city" = Some (PStr "").
Proof. repeat split; vm_compute; reflexivity. Qed.

Example getFiltered_sorts_by_beds :
  (let '(h', r) := getFiltered ExampleHost.deals (VRef 10)
                     (ExampleHost.byBeds "asc") in
   r = Normal (VRef 13)
   /\ h' !! 13%positive = Some (CArr [VRef 1; VRef 2; VRef 3]%positive))
  /\ (let '(h', r) := getFiltered ExampleHost.deals (VRef 10)
                        (ExampleHost.byBeds "desc") in
      r = Normal (VRef 13)
      /\ h' !! 13%positive = Some (CArr [VRef 2; VRef 1; VRef 3]%positive)).
Proof. repeat split; vm_compute; reflexivity. Qed.

Example validatePropertyData_sample :
  validatePropertyData ExampleHost.host ExampleHost.deals (VRef 1) = Normal []
  /\ validatePropertyData ExampleHost.host ExampleHost.deals (VRef 2)
     = Normal ["Beds must be between 0 and 50"]
  /\ validatePropertyData ExampleHost.host ExampleHost.deals (VRef 10)
     = Normal ["Address is required"; "City is required"].
Proof. repeat split; vm_compute; reflexivity. Qed.

Example validateImportData_rejects :
  snd (validateImportData ExampleHost.deals (VPrim PNull))
  = Normal (Rejected "Expected array of properties")
  /\ snd (validateImportData ExampleHost.deals (VPrim (PStr "not an array")))
     = Normal (Rejected "Expected array of properties")
  /\ snd (validateImportData ExampleHost.deals (VRef 1))
     = Normal (Rejected "Expected array of properties").
Proof. repeat split; vm_compute; reflexivity. Qed.

Example exportCSVString_notes_cell :
  exists cells,
    rowCells ExampleHost.host ExampleHost.deals (VRef 1) = Normal cells
    /\ cells !! 0%nat = Some (quoted "123 Main St")
    /\ cells !! 5%nat = Some ""
    /\ cells !! 13%nat = Some (quoted "Gas heat, central air").
Proof. eexists. repeat split; vm_compute; reflexivity. Qed.

Example computeSpread_samples :
  computeSpread (PNum (ofZ 275000)) (PNum (ofZ 189000)) (PNum (ofZ 40000))
  = PNum (ofZ 46000)
  /\ computeSpread (PNum (ofZ 200000)) (PNum (ofZ 100000)) PNull
     = PNum (ofZ 100000)
  /\ computeSpread PNull (PNum (ofZ 100000)) (PNum (ofZ 40000)) = PNull
  /\ computeSpread (PNum (ofZ 0)) (PNum (ofZ 100000)) PNull = PNull.
Proof. repeat split; vm_compute; reflexivity. Qed.
(** ** [sanitizeInput] *)

Lemma removeAngles_clean (s : string) : count isAngle (removeAngles s) = 0%nat.
Proof.
  induction s as [|c r IH]; simpl; [done|].
  destruct (isAngle c) eqn:E; simpl; [done|]. by rewrite E.
Qed.

Lemma removeAngles_id (s : string) :
  count isAngle s = 0%nat -> removeAngles s = s.
Proof.
  induction s as [|c r IH]; simpl; [done|].
  destruct (isAngle c); simpl; [done|]. intros H. by rewrite IH.
Qed.

Lemma removeAngles_length (s : string) :
  (String.length (removeAngles s) <= String.length s)%nat.
Proof.
  induction s as [|c r IH]; simpl; [done|].
  destruct (isAngle c); simpl; lia.
Qed.

Lemma count_trimStart (p : ascii -> bool) (s : string) :
  (count p (trimStart s) <= count p s)%nat.
Proof.
  induction s as [|c r IH]; simpl; [done|].
  destruct (isWhiteSpace c); simpl; lia.
Qed.

Lemma count_trimEnd (p : ascii -> bool) (s : string) :
  (count p (trimEnd s) <= count p s)%nat.
Proof.
  induction s as [|c r IH]; simpl; [done|].
  destruct (isEmpty (trimEnd r) && isWhiteSpace c); simpl; lia.
Qed.

Lemma count_trim (p : ascii -> bool) (s : string) :
  (count p (trim s) <= count p s)%nat.
Proof.
  unfold trim. etransitivity; [apply count_trimEnd|apply count_trimStart].
Qed.

Lemma trimStart_length (s : string) :
  (String.length (trimStart s) <= String.length s)%nat.
Proof.
  induction s as [|c r IH]; simpl; [done|].
  destruct (isWhiteSpace c); simpl; lia.
Qed.

Lemma trimEnd_length (s : string) :
  (String.length (trimEnd s) <= String.length s)%nat.
Proof.
  induction s as [|c r IH]; simpl; [done|].
  destruct (isEmpty (trimEnd r) && isWhiteSpace c); simpl; lia.
Qed.

Lemma trim_length (s : string) :
  (String.length (trim s) <= String.length s)%nat.
Proof.
  unfold trim. etransitivity; [apply trimEnd_length|apply trimStart_length].
Qed.

Lemma trimEnd_idem (s : string) : trimEnd (trimEnd s) = trimEnd s.
Proof.
  induction s as [|c r IH]; simpl; [done|].
  destruct (isEmpty (trimEnd r)) eqn:E, (isWhiteSpace c) eqn:W; simpl;
    rewrite ?IH, ?E, ?W; simpl; try done.
Qed.

Lemma trimStart_startsClean (s : string) : startsClean (trimStart s) = true.
Proof.
  induction s as [|c r IH]; simpl; [done|].
  destruct (isWhiteSpace c) eqn:W; simpl; [done|]. by rewrite W.
Qed.

Lemma trimStart_id (s : string) : startsClean s = true -> trimStart s = s.
Proof. destruct s as [|c r]; simpl; [done|]. by destruct (isWhiteSpace c). Qed.

Lemma trimEnd_startsClean (s : string) :
  startsClean s = true -> startsClean (trimEnd s) = true.
Proof.
  destruct s as [|c r]; simpl; [done|].
  destruct (isWhiteSpace c) eqn:W; simpl; [discriminate|].
  rewrite andb_false_r. simpl. by rewrite W.
Qed.

Lemma trim_idem (s : string) : trim (trim s) = trim s.
Proof.
  unfold trim.
  rewrite (trimStart_id (trimEnd (trimStart s))).
  - apply trimEnd_idem.
  - apply trimEnd_startsClean, trimStart_startsClean.
Qed.

(** X1.  [sanitizeInput] hands back anything that is not a string as it
    is.  From a string it returns a string without angle brackets that is
    no longer than the input, and a text without white space at its ends
    and without angle brackets comes back unchanged. *)
Theorem sanitizeInput_removes_angle_brackets :
  (forall input : val,
     (forall s, input <> VPrim (PStr s)) -> sanitizeInput input = input)
  /\ (forall s : string,
        exists t, sanitizeInput (VPrim (PStr s)) = VPrim (PStr t)
                  /\ count isAngle t = 0%nat
                  /\ (String.length t <= String.length s)%nat)
  /\ (forall s : string,
        trim s = s -> count isAngle s = 0%nat ->
        sanitizeInput (VPrim (PStr s)) = VPrim (PStr s)).
Proof.
  split; [|split].
  - intros [p|l] Hns; [|done]. destruct p; try done. by destruct (Hns s).
  - intros s. exists (removeAngles (trim s)). split; [done|].
    split; [apply removeAngles_clean|].
    etransitivity; [apply removeAngles_length|apply trim_length].
  - intros s Ht Hc. simpl. rewrite Ht. by rewrite removeAngles_id.
Qed.

Lemma sanitizeInput_removes_angle_brackets_witness :
  sanitizeInput (VPrim (PStr "12 Main St")) = VPrim (PStr "12 Main St").
Proof.
  apply (proj2 (proj2 sanitizeInput_removes_angle_brackets)); reflexivity.
Defined.

(** X2.  [sanitizeInput] is not idempotent: deleting the angle brackets can
    uncover white space at the ends, which a second call trims.  The second
    call does nothing else, and its result is a fixed point. *)
Theorem sanitizeInput_twice (s : string) :
  sanitizeInput (sanitizeInput (VPrim (PStr s)))
  = VPrim (PStr (trim (removeAngles (trim s))))
  /\ sanitizeInput (sanitizeInput (sanitizeInput (VPrim (PStr s))))
     = sanitizeInput (sanitizeInput (VPrim (PStr s)))
  /\ sanitizeInput (VPrim (PStr "< a >")) = VPrim (PStr " a ")
  /\ sanitizeInput (VPrim (PStr " a ")) = VPrim (PStr "a").
Proof.
  assert (H2 : forall u, count isAngle u = 0%nat ->
                         removeAngles (trim u) = trim u).
  { intros u Hu. apply removeAngles_id.
    pose proof (count_trim isAngle u). lia. }
  split; [|split; [|split; reflexivity]].
  - simpl. by rewrite (H2 _ (removeAngles_clean _)).
  - simpl. rewrite !(H2 _ (removeAngles_clean _)).
    by rewrite trim_idem.
Qed.
(** ** [Array.prototype.filter] and [Array.prototype.sort] keep the elements *)

Lemma filterM_filter (p : val -> completion bool) (q : val -> bool)
    (l : list val) :
  Forall (fun x => p x = Normal (q x)) l ->
  filterM p l = Normal (List.filter q l).
Proof.
  induction 1 as [|x l Hx _ IH]; simpl; [done|].
  rewrite Hx, IH. simpl. by destruct (q x).
Qed.

Lemma filterM_normal (p : val -> completion bool) (l r : list val) :
  filterM p l = Normal r ->
  Forall (fun x => returns (p x)) l
  /\ r = List.filter
           (fun x => match p x with Normal b => b | Throw _ => false end) l.
Proof.
  revert r. induction l as [|x l IH]; simpl; intros r.
  - intros [= <-]. split; [constructor|done].
  - destruct (p x) as [b|e] eqn:Hx; simpl; [|discriminate].
    destruct (filterM p l) as [r'|e]; simpl; [|discriminate].
    destruct (IH r' eq_refl) as [Hall ->]. intros [= <-].
    split; [constructor; [by rewrite Hx|done]|].
    by destruct b.
Qed.

Lemma filter_split_Permutation {A} (p : A -> bool) (l : list A) :
  Permutation (List.filter (fun v => negb (p v)) l ++ List.filter p l) l.
Proof.
  induction l as [|x l IH]; simpl; [constructor|].
  destruct (p x); simpl.
  - symmetry. apply Permutation_cons_app. by symmetry.
  - by constructor.
Qed.

Section SortPermutes.

Variable compareFn : val -> val -> completion Z.

Lemma insertSorted_Permutation (x : val) (placed r : list val) :
  insertSorted compareFn x placed = Normal r -> Permutation r (x :: placed).
Proof.
  revert r. induction placed as [|y l IH]; simpl; intros r.
  - by intros [= <-].
  - destruct (compareFn x y) as [c|e]; simpl; [|discriminate].
    destruct (c <? 0).
    + destruct (insertSorted compareFn x l) as [r'|e]; simpl; [|discriminate].
      intros [= <-]. rewrite (IH r' eq_refl). apply perm_swap.
    + by intros [= <-].
Qed.

Lemma insertAll_Permutation (todo placed r : list val) :
  insertAll compareFn todo placed = Normal r -> Permutation r (todo ++ placed).
Proof.
  revert placed r. induction todo as [|x todo IH]; simpl; intros placed r.
  - by intros [= <-].
  - destruct (insertSorted compareFn x placed) as [p'|e] eqn:Hins; simpl;
      [|discriminate].
    intros Hall. rewrite (IH _ _ Hall).
    rewrite (insertSorted_Permutation _ _ _ Hins).
    by rewrite Permutation_middle.
Qed.

Lemma arraySort_Permutation (l r : list val) :
  arraySort compareFn l = Normal r -> Permutation r l.
Proof.
  unfold arraySort.
  destruct (insertAll compareFn _ []) as [placed|e] eqn:Hall; simpl;
    [|discriminate].
  intros [= <-]. apply insertAll_Permutation in Hall.
  rewrite app_nil_r in Hall.
  etransitivity; [|apply (filter_split_Permutation isUndefined l)].
  apply Permutation_app; [|done].
  rewrite <- Permutation_rev. exact Hall.
Qed.

End SortPermutes.

(** What a call of [getFiltered] that returns has computed. *)
Lemma getFiltered_normal (h h' : heap) (properties v : val) (o : QueryOptions) :
  getFiltered h properties o = (h', Normal v) ->
  exists f elems sorted,
    v = VRef f /\ h !! f = None
    /\ arrayElems h properties = Some elems
    /\ Forall (fun x => returns (keeps h o x)) elems
    /\ h' = <[f := CArr sorted]> h
    /\ arraySort (sortCompare h o) (List.filter (passes h o) elems)
       = Normal sorted.
Proof.
  unfold getFiltered.
  destruct (arrayElems h properties) as [elems|] eqn:Harr; [|discriminate].
  destruct (filterM (keeps h o) elems) as [kept|e] eqn:Hkept; [|discriminate].
  apply filterM_normal in Hkept as [Hret ->]. fold (passes h o).
  unfold allocArray.
  set (f := fresh (dom h)).
  assert (Hfresh : h !! f = None) by apply not_elem_of_dom, is_fresh.
  assert (Hext : forall v key,
             getProp (<[f := CArr (List.filter (passes h o) elems)]> h) v key
             = getProp h v key).
  { intros w key. apply getProp_insert_fresh. by left. }
  destruct (arraySort _ _) as [sorted|e] eqn:Hsort; [|discriminate].
  intros [= <- <-]. exists f, elems, sorted.
  rewrite insert_insert_eq. do 5 (split; [done|]).
  rewrite <- Hsort. unfold arraySort. f_equal.
  clear Hsort. generalize (@nil val).
  induction (List.filter (fun v0 : val => negb (isUndefined v0))
               (List.filter (passes h o) elems)) as [|x t IH]; intros placed;
    simpl; [done|].
  assert (Hins : forall pl, insertSorted (sortCompare h o) x pl
            = insertSorted
                (sortCompare (<[f:=CArr (List.filter (passes h o) elems)]> h) o)
                x pl).
  { induction pl as [|y pl IHp]; simpl; [done|].
    rewrite (sortCompare_heap_ext h _ o Hext). by rewrite IHp. }
  rewrite Hins. destruct (insertSorted _ x placed); simpl; [apply IH|done].
Qed.

(** X3.  The array that [getFiltered] returns holds the records of the
    collection that pass the filter, each as often as the collection holds
    it: no record is dropped, added or repeated by the sort.  In particular
    every record of the result is a record of the collection for which the
    filter callback answered [true]. *)
Theorem getFiltered_permutes_filtered
    (h h' : heap) (properties v : val) (o : QueryOptions) :
  getFiltered h properties o = (h', Normal v) ->
  exists f elems sorted,
    v = VRef f
    /\ arrayElems h properties = Some elems
    /\ h' !! f = Some (CArr sorted)
    /\ Permutation sorted (List.filter (passes h o) elems)
    /\ (forall x, In x sorted <-> In x elems /\ keeps h o x = Normal true)
    /\ (length sorted <= length elems)%nat.
Proof.
  intros Hrun.
  destruct (getFiltered_normal _ _ _ _ _ Hrun)
    as (f & elems & sorted & -> & Hf & Harr & Hret & -> & Hsort).
  apply arraySort_Permutation in Hsort.
  exists f, elems, sorted. split; [done|]. split; [done|].
  split; [by rewrite lookup_insert_eq|]. split; [done|]. split.
  - intros x. rewrite <- !list_elem_of_In, Hsort, !list_elem_of_In, filter_In.
    unfold passes. split; intros [Hin Hk]; (split; [done|]).
    + destruct (keeps h o x) as [[]|]; done.
    + by rewrite Hk.
  - rewrite (Permutation_length Hsort). apply filter_length_le.
Qed.

Lemma getFiltered_permutes_filtered_witness :
  getFiltered ExampleHost.deals (VRef 10) (ExampleHost.byBeds "asc")
  = (<[13%positive := CArr [VRef 1; VRef 2; VRef 3]%positive]>
       ExampleHost.deals, Normal (VRef 13))
  /\ exists f elems sorted,
       VRef 13%positive = VRef f
       /\ arrayElems ExampleHost.deals (VRef 10%positive) = Some elems
       /\ (<[13%positive := CArr [VRef 1; VRef 2; VRef 3]%positive]>
             ExampleHost.deals) !! f = Some (CArr sorted)
       /\ Permutation sorted
            (List.filter (passes ExampleHost.deals (ExampleHost.byBeds "asc"))
               elems)
       /\ (forall x, In x sorted
                     <-> In x elems
                         /\ keeps ExampleHost.deals (ExampleHost.byBeds "asc") x
                            = Normal true)
       /\ (length sorted <= length elems)%nat.
Proof.
  assert (H : getFiltered ExampleHost.deals (VRef 10) (ExampleHost.byBeds "asc")
              = (<[13%positive := CArr [VRef 1; VRef 2; VRef 3]%positive]>
                   ExampleHost.deals, Normal (VRef 13)))
    by (vm_compute; reflexivity).
  split; [exact H|].
  exact (getFiltered_permutes_filtered _ _ _ _ _ H).
Defined.

(** ** [computeStats] *)

Lemma stageIs_nonnull (h : heap) (p : val) (name : string) :
  isNullVal p = false -> stageIs h p name = Normal (inStage h name p).
Proof. intros Hp. unfold stageIs. by rewrite (getProp_nonnull h p _ Hp). Qed.

Lemma stageIs_null (h : heap) (p : val) (name : string) :
  isNullVal p = true -> stageIs h p name = Throw TypeError.
Proof. destruct p as [[]|]; done. Qed.

Lemma countStage_nonnull (h : heap) (name : string) (elems : list val) :
  Forall (fun v => isNullVal v = false) elems ->
  countStage h name elems = Normal (stageCount h name elems).
Proof.
  intros Hall. unfold countStage.
  rewrite (filterM_filter _ (inStage h name)); [done|].
  eapply Forall_impl; [exact Hall|]. intros x Hx. by apply stageIs_nonnull.
Qed.

Lemma countStage_returns (h : heap) (name : string) (elems : list val) :
  returns (countStage h name elems) ->
  Forall (fun v => isNullVal v = false) elems.
Proof.
  unfold countStage. induction elems as [|x l IH]; simpl; [constructor|].
  destruct (isNullVal x) eqn:Hx.
  - by rewrite (stageIs_null h x name Hx).
  - rewrite (stageIs_nonnull h x name Hx). simpl.
    destruct (filterM _ l) as [r|e]; simpl; [|done].
    intros _. constructor; [done|]. by apply IH.
Qed.

Lemma computeStats_nonnull (h : heap) (properties : val) (elems : list val) :
  arrayElems h properties = Some elems ->
  Forall (fun v => isNullVal v = false) elems ->
  computeStats h properties
  = Normal {| ready := stageCount h "Ready to Blast" elems;
              new := stageCount h "New" elems;
              hold := stageCount h "On Hold" elems;
              high := stageCount h "Too High" elems;
              sold := stageCount h "Sold" elems;
              total := Z.of_nat (length elems) |}.
Proof.
  intros Harr Hall. unfold computeStats.
  by rewrite Harr, !(countStage_nonnull h _ elems Hall).
Qed.

Lemma computeStats_normal (h : heap) (properties : val) (st : Stats) :
  computeStats h properties = Normal st ->
  exists elems,
    arrayElems h properties = Some elems
    /\ Forall (fun v => isNullVal v = false) elems.
Proof.
  unfold computeStats.
  destruct (arrayElems h properties) as [elems|]; [|discriminate].
  intros Hrun. exists elems. split; [done|].
  apply (countStage_returns h "Ready to Blast").
  by destruct (countStage h "Ready to Blast" elems).
Qed.

Lemma filter_length_cons {A} (p : A -> bool) (x : A) (l : list A) :
  Z.of_nat (length (List.filter p (x :: l)))
  = (if p x then 1 else 0) + Z.of_nat (length (List.filter p l)).
Proof. simpl. destruct (p x); simpl length; lia. Qed.

(** A record is in at most one stage. *)
Lemma one_stage (h : heap) (x : val) :
  (if inStage h "Ready to Blast" x then 1 else 0)
  + (if inStage h "New" x then 1 else 0)
  + (if inStage h "On Hold" x then 1 else 0)
  + (if inStage h "Too High" x then 1 else 0)
  + (if inStage h "Sold" x then 1 else 0)
  = if knownStage h x then 1 else 0.
Proof.
  unfold knownStage, inStage. cbn [existsb stageNames].
  destruct (fieldOf h x "stage") as [| |b|n|s]; cbn [strictEq orb]; try done.
  destruct (String.eqb_spec s "Ready to Blast") as [->|]; [done|].
  destruct (String.eqb_spec s "New") as [->|]; [done|].
  destruct (String.eqb_spec s "On Hold") as [->|]; [done|].
  destruct (String.eqb_spec s "Too High") as [->|]; [done|].
  destruct (String.eqb_spec s "Sold") as [->|]; done.
Qed.

Lemma stages_partition (h : heap) (elems : list val) :
  stageCount h "Ready to Blast" elems + stageCount h "New" elems
  + stageCount h "On Hold" elems + stageCount h "Too High" elems
  + stageCount h "Sold" elems
  = Z.of_nat (length (List.filter (knownStage h) elems)).
Proof.
  unfold stageCount. induction elems as [|x l IH]; [done|].
  rewrite !filter_length_cons, <- one_stage. lia.
Qed.

(** X4.  When [computeStats] returns, each of its five counters is the
    number of records of the collection in that stage and [total] is the
    length of the collection.  The stages exclude one another, so the five
    counters add up to the number of records whose stage is one of the
    five, which is at most [total]. *)
Theorem computeStats_counts (h : heap) (properties : val) (st : Stats) :
  computeStats h properties = Normal st ->
  exists elems,
    arrayElems h properties = Some elems
    /\ ready st = stageCount h "Ready to Blast" elems
    /\ new st = stageCount h "New" elems
    /\ hold st = stageCount h "On Hold" elems
    /\ high st = stageCount h "Too High" elems
    /\ sold st = stageCount h "Sold" elems
    /\ total st = Z.of_nat (length elems)
    /\ ready st + new st + hold st + high st + sold st
       = Z.of_nat (length (List.filter (knownStage h) elems))
    /\ ready st + new st + hold st + high st + sold st <= total st.
Proof.
  intros Hrun.
  destruct (computeStats_normal _ _ _ Hrun) as (elems & Harr & Hall).
  rewrite (computeStats_nonnull _ _ _ Harr Hall) in Hrun.
  injection Hrun as <-. exists elems. cbn [ready new hold high sold total].
  do 7 (split; [done|]). rewrite stages_partition. split; [done|].
  pose proof (filter_length_le (knownStage h) elems). lia.
Qed.

Lemma computeStats_counts_witness :
  computeStats ExampleHost.deals (VRef 10)
  = Normal {| ready := 0; new := 2; hold := 0; high := 0; sold := 1;
              total := 3 |}
  /\ exists elems,
       arrayElems ExampleHost.deals (VRef 10) = Some elems
       /\ 0 = stageCount ExampleHost.deals "Ready to Blast" elems
       /\ 2 = stageCount ExampleHost.deals "New" elems
       /\ 0 = stageCount ExampleHost.deals "On Hold" elems
       /\ 0 = stageCount ExampleHost.deals "Too High" elems
       /\ 1 = stageCount ExampleHost.deals "Sold" elems
       /\ 3 = Z.of_nat (length elems)
       /\ 0 + 2 + 0 + 0 + 1
          = Z.of_nat (length (List.filter (knownStage ExampleHost.deals) elems))
       /\ 0 + 2 + 0 + 0 + 1 <= 3.
Proof.
  assert (H : computeStats ExampleHost.deals (VRef 10)
              = Normal {| ready := 0; new := 2; hold := 0; high := 0;
                          sold := 1; total := 3 |})
    by (vm_compute; reflexivity).
  split; [exact H|].
  exact (computeStats_counts _ _ _ H).
Defined.

(** X5.  [computeStats] returns exactly when the collection is an array
    without a [null] or [undefined] element; otherwise it raises a
    [TypeError]. *)
Theorem computeStats_returns_iff (h : heap) (properties : val) :
  (returns (computeStats h properties)
   <-> exists elems, arrayElems h properties = Some elems
                     /\ Forall (fun v => isNullVal v = false) elems)
  /\ (returns (computeStats h properties)
      \/ computeStats h properties = Throw TypeError).
Proof.
  split; [split|].
  - destruct (computeStats h properties) as [st|e] eqn:Hrun; [|done].
    intros _. by apply computeStats_normal in Hrun.
  - intros (elems & Harr & Hall).
    by rewrite (computeStats_nonnull _ _ _ Harr Hall).
  - destruct (computeStats h properties) as [st|[]]; [by left|by right].
Qed.

Lemma keeps_stage_only (h : heap) (o : QueryOptions) (x : val) :
  stageFilterOnly o = true -> isNullVal x = false ->
  keeps h o x
  = Normal (if String.eqb (currentFilter o) "all" then true
            else if String.eqb (currentFilter o) "ready"
                 then inStage h "Ready to Blast" x
            else if String.eqb (currentFilter o) "new" then inStage h "New" x
            else if String.eqb (currentFilter o) "hold"
                 then inStage h "On Hold" x
            else if String.eqb (currentFilter o) "high"
                 then inStage h "Too High" x
            else if String.eqb (currentFilter o) "sold" then inStage h "Sold" x
            else false).
Proof.
  unfold stageFilterOnly. intros [[Hc Ht]%andb_true_iff Hs]%andb_true_iff Hx.
  unfold keeps, stageOk, fieldOk, searchOk. rewrite Hc, Ht, Hs.
  rewrite !(stageIs_nonnull h x _ Hx).
  repeat match goal with
         | |- context [String.eqb ?a ?b] => destruct (String.eqb a b)
         end; cbn [bind]; by rewrite !andb_true_r.
Qed.

(** X6.  The counters of the dashboard agree with the lists: when only the
    stage filter is active and both calls return, the array that
    [getFiltered] returns has as many records as the counter of
    [computeStats] for that filter says, [total] for the filter [all]. *)
Theorem getFiltered_length_is_stats_counter
    (h h' : heap) (properties v : val) (o : QueryOptions) (st : Stats) :
  stageFilterOnly o = true ->
  computeStats h properties = Normal st ->
  getFiltered h properties o = (h', Normal v) ->
  exists f sorted,
    v = VRef f /\ h' !! f = Some (CArr sorted)
    /\ Z.of_nat (length sorted) = bucket (currentFilter o) st.
Proof.
  intros Ho Hst Hrun.
  destruct (getFiltered_normal _ _ _ _ _ Hrun)
    as (f & elems & sorted & -> & Hf & Harr & Hret & -> & Hsort).
  apply arraySort_Permutation, Permutation_length in Hsort.
  destruct (computeStats_normal _ _ _ Hst) as (elems' & Harr' & Hall).
  rewrite Harr in Harr'. injection Harr' as <-.
  rewrite (computeStats_nonnull _ _ _ Harr Hall) in Hst. injection Hst as <-.
  exists f, sorted. split; [done|]. split; [by rewrite lookup_insert_eq|].
  rewrite Hsort. unfold bucket, stageCount. cbn [ready new hold high sold total].
  assert (Hfilter : forall q : val -> bool,
             (forall x, In x elems -> passes h o x = q x) ->
             List.filter (passes h o) elems = List.filter q elems).
  { intros q Hq. by apply filter_ext_in. }
  assert (Hpass : forall x, In x elems ->
             keeps h o x = Normal (passes h o x)).
  { intros x Hx. unfold passes.
    rewrite Forall_forall in Hall. apply list_elem_of_In in Hx.
    by rewrite (keeps_stage_only h o x Ho (Hall x Hx)). }
  assert (Hk : forall x, In x elems -> isNullVal x = false).
  { intros x Hx. rewrite Forall_forall in Hall. by apply Hall, list_elem_of_In. }
  assert (Hall' : forall b : bool,
             (forall x, In x elems -> passes h o x = b) ->
             length (List.filter (passes h o) elems)
             = if b then length elems else 0%nat).
  { intros b Hb. rewrite (Hfilter (fun _ => b) Hb). clear.
    destruct b; induction elems as [|x l IH]; simpl; auto. }
  destruct (String.eqb (currentFilter o) "all") eqn:E0.
  { rewrite (Hall' true); [done|]. intros x Hx. unfold passes.
    by rewrite (keeps_stage_only h o x Ho (Hk x Hx)), E0. }
  destruct (String.eqb (currentFilter o) "ready") eqn:E1.
  { f_equal. f_equal. apply Hfilter. intros x Hx. unfold passes.
    by rewrite (keeps_stage_only h o x Ho (Hk x Hx)), E0, E1. }
  destruct (String.eqb (currentFilter o) "new") eqn:E2.
  { f_equal. f_equal. apply Hfilter. intros x Hx. unfold passes.
    by rewrite (keeps_stage_only h o x Ho (Hk x Hx)), E0, E1, E2. }
  destruct (String.eqb (currentFilter o) "hold") eqn:E3.
  { f_equal. f_equal. apply Hfilter. intros x Hx. unfold passes.
    by rewrite (keeps_stage_only h o x Ho (Hk x Hx)), E0, E1, E2, E3. }
  destruct (String.eqb (currentFilter o) "high") eqn:E4.
  { f_equal. f_equal. apply Hfilter. intros x Hx. unfold passes.
    by rewrite (keeps_stage_only h o x Ho (Hk x Hx)), E0, E1, E2, E3, E4. }
  destruct (String.eqb (currentFilter o) "sold") eqn:E5.
  { f_equal. f_equal. apply Hfilter. intros x Hx. unfold passes.
    by rewrite (keeps_stage_only h o x Ho (Hk x Hx)), E0, E1, E2, E3, E4, E5. }
  rewrite (Hall' false); [done|]. intros x Hx. unfold passes.
  by rewrite (keeps_stage_only h o x Ho (Hk x Hx)), E0, E1, E2, E3, E4, E5.
Qed.

(** ** The order of the result *)

Section SortOrder.

Variable compareFn : val -> val -> completion Z.
Variable ok : val -> Prop.
Variable le : val -> val -> Prop.

Hypothesis compare_le : forall a b, ok a -> ok b ->
  exists c, compareFn a b = Normal c
            /\ (c < 0 -> le a b) /\ (0 <= c -> le b a).
Hypothesis le_trans : forall a b c, ok a -> ok b -> ok c ->
  le a b -> le b c -> le a c.

(** The sorted part, last element first, is in descending order. *)
Lemma insertSorted_sorted (x : val) (placed r : list val) :
  ok x -> Forall ok placed ->
  StronglySorted (fun a b => le b a) placed ->
  insertSorted compareFn x placed = Normal r ->
  Forall ok r /\ StronglySorted (fun a b => le b a) r.
Proof.
  intros Hx Hok Hs. revert r.
  induction Hs as [|y l Hs IH Hy]; intros r; simpl.
  - intros [= <-]. split; repeat constructor; done.
  - apply List.Forall_cons_iff in Hok as [Hoy Hol].
    destruct (compare_le x y Hx Hoy) as (c & -> & Hlt & Hge). simpl.
    destruct (c <? 0) eqn:Hc.
    + destruct (insertSorted compareFn x l) as [r'|e] eqn:Hins; simpl;
        [|discriminate].
      intros [= <-]. destruct (IH Hol r' eq_refl) as [Hok' Hs'].
      split; [by constructor|]. constructor; [done|].
      apply Forall_forall. intros z Hz.
      apply list_elem_of_In in Hz.
      destruct (insertSorted_elements _ _ _ _ Hins z Hz) as [->|Hz'].
      * apply Hlt. lia.
      * rewrite List.Forall_forall in Hy. by apply Hy.
    + intros [= <-]. split; [by repeat constructor|].
      constructor; [by constructor|].
      assert (Hyx : le y x) by (apply Hge; lia).
      constructor; [done|].
      rewrite List.Forall_forall in Hy, Hol. apply List.Forall_forall.
      intros z Hz. apply (le_trans z y x); auto.
Qed.

Lemma insertAll_sorted (todo placed r : list val) :
  Forall ok todo -> Forall ok placed ->
  StronglySorted (fun a b => le b a) placed ->
  insertAll compareFn todo placed = Normal r ->
  StronglySorted (fun a b => le b a) r.
Proof.
  intros Htodo. revert placed r.
  induction Htodo as [|x todo Hx _ IH]; intros placed r Hok Hs; simpl.
  - by intros [= <-].
  - destruct (insertSorted compareFn x placed) as [p'|e] eqn:Hins; simpl;
      [|discriminate].
    destruct (insertSorted_sorted x placed p' Hx Hok Hs Hins) as [Hok' Hs'].
    by apply IH.
Qed.

Lemma StronglySorted_snoc (l : list val) (y : val) :
  StronglySorted le l -> Forall (fun a => le a y) l ->
  StronglySorted le (l ++ [y]).
Proof.
  induction 1 as [|z t _ IH Hz]; simpl; intros Hy.
  - repeat constructor.
  - apply List.Forall_cons_iff in Hy as [Hzy Hty].
    constructor; [by apply IH|].
    apply List.Forall_app. split; [done|by repeat constructor].
Qed.

Lemma StronglySorted_rev (l : list val) :
  StronglySorted (fun a b => le b a) l -> StronglySorted le (rev l).
Proof.
  induction 1 as [|y l _ IH Hy]; simpl; [constructor|].
  apply StronglySorted_snoc; [done|]. by apply List.Forall_rev.
Qed.

(** Without [undefined] elements the whole result is in order. *)
Lemma arraySort_sorted (l r : list val) :
  Forall ok l -> Forall (fun v => isUndefined v = false) l ->
  arraySort compareFn l = Normal r -> StronglySorted le r.
Proof.
  intros Hok Hdef. unfold arraySort.
  assert (Hl : List.filter (fun v => negb (isUndefined v)) l = l
               /\ List.filter isUndefined l = []).
  { clear Hok. induction Hdef as [|x l Hx _ [IH1 IH2]]; [done|]. simpl.
    rewrite Hx. simpl. by rewrite IH1, IH2. }
  destruct Hl as [-> ->].
  destruct (insertAll compareFn l []) as [placed|e] eqn:Hall; simpl;
    [|discriminate].
  intros [= <-]. rewrite app_nil_r. apply StronglySorted_rev.
  eapply insertAll_sorted; [exact Hok|constructor|constructor|exact Hall].
Qed.

(** Elements that the comparator ties with one another keep their
    order. *)
Lemma insertSorted_stable (q : val -> bool) (x : val) (placed r : list val) :
  (forall a b, q a = true -> q b = true -> compareFn a b = Normal 0) ->
  insertSorted compareFn x placed = Normal r ->
  List.filter q r = List.filter q (x :: placed).
Proof.
  intros Htie. revert r. induction placed as [|y l IH]; simpl; intros r.
  - by intros [= <-].
  - destruct (compareFn x y) as [c|e] eqn:Hc; simpl; [|discriminate].
    destruct (c <? 0) eqn:Hneg.
    + destruct (insertSorted compareFn x l) as [r'|e]; simpl; [|discriminate].
      intros [= <-]. simpl. rewrite (IH r' eq_refl). simpl.
      destruct (q x) eqn:Hx, (q y) eqn:Hy; try done.
      rewrite (Htie x y Hx Hy) in Hc. injection Hc as <-. done.
    + by intros [= <-].
Qed.

Lemma insertAll_stable (q : val -> bool) (todo placed r : list val) :
  (forall a b, q a = true -> q b = true -> compareFn a b = Normal 0) ->
  insertAll compareFn todo placed = Normal r ->
  List.filter q r = rev (List.filter q todo) ++ List.filter q placed.
Proof.
  intros Htie. revert placed r.
  induction todo as [|x todo IH]; simpl; intros placed r.
  - by intros [= <-].
  - destruct (insertSorted compareFn x placed) as [p'|e] eqn:Hins; simpl;
      [|discriminate].
    intros Hall. rewrite (IH _ _ Hall).
    rewrite (insertSorted_stable q _ _ _ Htie Hins). simpl.
    destruct (q x); simpl; [by rewrite <- app_assoc|done].
Qed.

Lemma arraySort_stable (q : val -> bool) (l r : list val) :
  (forall a b, q a = true -> q b = true -> compareFn a b = Normal 0) ->
  Forall (fun v => isUndefined v = false) l ->
  arraySort compareFn l = Normal r ->
  List.filter q r = List.filter q l.
Proof.
  intros Htie Hdef. unfold arraySort.
  assert (Hl : List.filter (fun v => negb (isUndefined v)) l = l
               /\ List.filter isUndefined l = []).
  { induction Hdef as [|x l Hx _ [IH1 IH2]]; [done|]. simpl.
    rewrite Hx. simpl. by rewrite IH1, IH2. }
  destruct Hl as [-> ->].
  destruct (insertAll compareFn l []) as [placed|e] eqn:Hall; simpl;
    [|discriminate].
  intros [= <-]. rewrite app_nil_r.
  apply (insertAll_stable q _ _ _ Htie) in Hall.
  rewrite app_nil_r in Hall.
  assert (Hrev : forall t : list val,
             List.filter q (rev t) = rev (List.filter q t)).
  { induction t as [|z t IHt]; simpl; [done|].
    rewrite List.filter_app, IHt. simpl. destruct (q z); simpl; [done|].
    by rewrite app_nil_r. }
  by rewrite Hrev, Hall, rev_involutive.
Qed.

End SortOrder.

(** *** Numbers *)

Lemma lt_asym (a b : num) : lt a b = true -> lt b a = false.
Proof.
  destruct a as [| | |x], b as [| | |y]; simpl; try done.
  rewrite negb_true_iff, negb_false_iff. intros H.
  apply Qle_bool_iff. destruct (Qlt_le_dec y x) as [Hlt|Hle].
  - apply Qlt_le_weak in Hlt. apply Qle_bool_iff in Hlt. congruence.
  - done.
Qed.

Lemma lt_false_trans (a b c : num) :
  isNaN a = false -> isNaN b = false -> isNaN c = false ->
  lt b a = false -> lt c b = false -> lt c a = false.
Proof.
  destruct a as [| | |x], b as [| | |y], c as [| | |z]; simpl; try done.
  rewrite !negb_false_iff, !Qle_bool_iff. intros _ _ _ H1 H2.
  by apply Qle_trans with y.
Qed.

Lemma eqb_lt_false (a b k : num) :
  eqb a k = true -> eqb b k = true -> lt a b = false.
Proof.
  destruct a as [| | |x], b as [| | |y], k as [| | |z]; simpl; try done.
  rewrite !Qeq_bool_iff, negb_false_iff, Qle_bool_iff. intros -> ->.
  apply Qle_refl.
Qed.

Section NumericOrder.

Variable h : heap.
Variable o : QueryOptions.

Lemma orMissing_rank (x : val) :
  absent h o x \/ present h o x ->
  orMissing o (keyOf h o x) = PNum (sortRank h o x)
  /\ isNaN (sortRank h o x) = false.
Proof.
  unfold sortRank. intros [[_ Hk]|[_ Hk]].
  - rewrite (orMissing_missing o _ Hk). unfold missingKey.
    by destruct (ascending o).
  - rewrite (orMissing_finite o _ Hk).
    by destruct (keyOf h o x) as [| |?|[| | |q]|?].
Qed.

Lemma sortCompare_numeric (a b : val) :
  absent h o a \/ present h o a -> absent h o b \/ present h o b ->
  sortCompare h o a b
  = Normal
      (if ascending o
       then (if lt (sortRank h o b) (sortRank h o a) then 1
             else if lt (sortRank h o a) (sortRank h o b) then -1 else 0)
       else (if lt (sortRank h o a) (sortRank h o b) then 1
             else if lt (sortRank h o b) (sortRank h o a) then -1 else 0)).
Proof.
  intros Ha Hb. unfold sortCompare.
  assert (Hna : isNullVal a = false) by (destruct Ha as [[? _]|[? _]]; done).
  assert (Hnb : isNullVal b = false) by (destruct Hb as [[? _]|[? _]]; done).
  rewrite (getProp_nonnull h a _ Hna), (getProp_nonnull h b _ Hnb).
  fold (keyOf h o a) (keyOf h o b). cbn [bind].
  rewrite (proj1 (orMissing_rank a Ha)), (proj1 (orMissing_rank b Hb)).
  reflexivity.
Qed.

Lemma sortCompare_inOrder (a b : val) :
  absent h o a \/ present h o a -> absent h o b \/ present h o b ->
  exists c, sortCompare h o a b = Normal c
            /\ (c < 0 -> inOrder h o a b) /\ (0 <= c -> inOrder h o b a).
Proof.
  intros Ha Hb. rewrite (sortCompare_numeric a b Ha Hb). eexists.
  split; [reflexivity|]. unfold inOrder.
  destruct (ascending o).
  - destruct (lt (sortRank h o b) (sortRank h o a)) eqn:E1.
    + split; [lia|]. intros _. by apply lt_asym.
    + destruct (lt (sortRank h o a) (sortRank h o b)) eqn:E2;
        (split; [done|]); [lia|done].
  - destruct (lt (sortRank h o a) (sortRank h o b)) eqn:E1.
    + split; [lia|]. intros _. by apply lt_asym.
    + destruct (lt (sortRank h o b) (sortRank h o a)) eqn:E2;
        (split; [done|]); [lia|done].
Qed.

Lemma inOrder_trans (a b c : val) :
  absent h o a \/ present h o a -> absent h o b \/ present h o b ->
  absent h o c \/ present h o c ->
  inOrder h o a b -> inOrder h o b c -> inOrder h o a c.
Proof.
  intros [_ Ha]%orMissing_rank [_ Hb]%orMissing_rank [_ Hc]%orMissing_rank.
  unfold inOrder. destruct (ascending o); intros H1 H2.
  - by apply lt_false_trans with (sortRank h o b).
  - by apply lt_false_trans with (sortRank h o b).
Qed.

End NumericOrder.

Lemma filter_Forall_In {A} (P : A -> Prop) (q : A -> bool) (l : list A) :
  Forall P l -> Forall P (List.filter q l).
Proof.
  intros Hl. apply List.Forall_forall. intros x [Hx _]%filter_In.
  rewrite List.Forall_forall in Hl. by apply Hl.
Qed.

Lemma getFiltered_returns_normal (h : heap) (properties : val)
    (o : QueryOptions) (elems : list val) :
  arrayElems h properties = Some elems ->
  Forall (fun x => returns (keeps h o x)) elems ->
  (forall a b, In a elems -> In b elems -> returns (sortCompare h o a b)) ->
  exists f sorted,
    getFiltered h properties o = (<[f := CArr sorted]> h, Normal (VRef f))
    /\ h !! f = None
    /\ arraySort (sortCompare h o) (List.filter (passes h o) elems)
       = Normal sorted.
Proof.
  intros Harr Hkeeps Hcmp.
  pose proof (getFiltered_returns h properties o elems Harr Hkeeps Hcmp) as Hret.
  destruct (getFiltered h properties o) as [h' [v|e]] eqn:Hrun; [|done].
  destruct (getFiltered_normal _ _ _ _ _ Hrun)
    as (f & elems' & sorted & -> & Hf & Harr' & _ & -> & Hsort).
  rewrite Harr in Harr'. injection Harr' as <-.
  by exists f, sorted.
Qed.

(** X7.  Sorting by a field whose values are finite numbers or missing, in
    a collection of records on none of which the filter callback raises
    (it raises on none when there is no search term): [getFiltered]
    returns, the result is ordered by the number in the direction asked
    for (ascending for [asc], descending otherwise), a record without a
    value counting as plus infinity for [asc] and as minus infinity
    otherwise, and records with equal numbers keep the order they have in
    the collection. *)
Theorem getFiltered_numeric_keys_in_order
    (h : heap) (properties : val) (o : QueryOptions) (elems : list val) :
  arrayElems h properties = Some elems ->
  Forall (fun x => absent h o x \/ present h o x) elems ->
  Forall (fun x => returns (keeps h o x)) elems ->
  exists f sorted,
    getFiltered h properties o = (<[f := CArr sorted]> h, Normal (VRef f))
    /\ StronglySorted (inOrder h o) sorted
    /\ forall k : num,
         List.filter (fun x => eqb (sortRank h o x) k) sorted
         = List.filter (fun x => eqb (sortRank h o x) k)
             (List.filter (passes h o) elems).
Proof.
  intros Harr Hkeys Hkeeps.
  assert (Hin : forall a, In a elems -> absent h o a \/ present h o a).
  { intros a Ha. rewrite List.Forall_forall in Hkeys. by apply Hkeys. }
  destruct (getFiltered_returns_normal h properties o elems Harr Hkeeps)
    as (f & sorted & Hrun & _ & Hsort).
  { intros a b Ha Hb.
    by rewrite (sortCompare_numeric h o a b (Hin a Ha) (Hin b Hb)). }
  exists f, sorted. split; [exact Hrun|].
  pose proof (filter_Forall_In _ (passes h o) _ Hkeys) as Hkept.
  assert (Hdef : Forall (fun v => isUndefined v = false)
                   (List.filter (passes h o) elems)).
  { eapply List.Forall_impl; [|exact Hkept].
    intros x [[Hn _]|[Hn _]]; by destruct x as [[]|]. }
  split.
  - apply (arraySort_sorted (sortCompare h o)
             (fun x => absent h o x \/ present h o x) (inOrder h o)
             (sortCompare_inOrder h o) (inOrder_trans h o) _ _ Hkept Hdef Hsort).
  - intros k.
    set (okb := fun x => negb (isNullVal x)
                         && (missing (keyOf h o x) || finiteKey (keyOf h o x))).
    assert (Hokb : forall x, okb x = true -> absent h o x \/ present h o x).
    { intros x [Hn [Hm|Hf]%orb_true_iff]%andb_true_iff;
        apply negb_true_iff in Hn; [by left|by right]. }
    assert (Hokb' : forall x, absent h o x \/ present h o x -> okb x = true).
    { intros x [[Hn Hm]|[Hn Hf]]; unfold okb; rewrite Hn; simpl.
      - by rewrite Hm.
      - rewrite Hf. by rewrite orb_true_r. }
    pose proof (arraySort_stable (sortCompare h o)
                  (fun x => okb x && eqb (sortRank h o x) k)) as Hst.
    specialize (Hst (List.filter (passes h o) elems) sorted).
    assert (Hq : forall l : list val,
               Forall (fun x => absent h o x \/ present h o x) l ->
               List.filter (fun x => okb x && eqb (sortRank h o x) k) l
               = List.filter (fun x => eqb (sortRank h o x) k) l).
    { intros l Hl. apply filter_ext_in. intros x Hx.
      rewrite List.Forall_forall in Hl. by rewrite (Hokb' x (Hl x Hx)). }
    rewrite <- (Hq (List.filter (passes h o) elems) Hkept).
    rewrite <- Hq.
    + apply Hst; [|exact Hdef|exact Hsort].
      intros a b [Ha Hka]%andb_true_iff [Hb Hkb]%andb_true_iff.
      rewrite (sortCompare_numeric h o a b (Hokb a Ha) (Hokb b Hb)).
      rewrite (eqb_lt_false _ _ _ Hka Hkb), (eqb_lt_false _ _ _ Hkb Hka).
      by destruct (ascending o).
    + apply arraySort_Permutation in Hsort.
      apply List.Forall_forall. intros x Hx.
      rewrite List.Forall_forall in Hkept. apply Hkept.
      apply list_elem_of_In. rewrite <- Hsort. by apply list_elem_of_In.
Qed.

(** *** Texts *)

Lemma ltb_lt (a b : string) :
  String.ltb a b = true <-> OrderedTypeEx.String_as_OT.lt a b.
Proof.
  rewrite <- OrderedTypeEx.String_as_OT.cmp_lt.
  unfold String.ltb, OrderedTypeEx.String_as_OT.cmp.
  destruct (String.compare a b); split; congruence.
Qed.

Lemma ltb_false_cases (a b : string) :
  String.ltb b a = false -> a = b \/ String.ltb a b = true.
Proof.
  unfold String.ltb. rewrite (String.compare_antisym a b).
  destruct (String.compare b a) eqn:E; simpl; try done.
  - intros _. left. symmetry. by apply String.compare_eq_iff.
  - intros _. by right.
Qed.

Lemma ltb_asym (a b : string) :
  String.ltb a b = true -> String.ltb b a = false.
Proof.
  unfold String.ltb. rewrite (String.compare_antisym a b).
  by destruct (String.compare b a).
Qed.

Lemma ltb_irrefl (a : string) : String.ltb a a = false.
Proof.
  destruct (String.ltb a a) eqn:E; [|done].
  by rewrite (ltb_asym a a E) in E.
Qed.

Lemma ltb_false_trans (a b c : string) :
  String.ltb b a = false -> String.ltb c b = false -> String.ltb c a = false.
Proof.
  intros [->|Hab]%ltb_false_cases [->|Hbc]%ltb_false_cases.
  - apply ltb_irrefl.
  - by apply ltb_asym.
  - by apply ltb_asym.
  - apply ltb_asym, ltb_lt.
    apply OrderedTypeEx.String_as_OT.lt_trans with b; by apply ltb_lt.
Qed.

Section TextOrder.

Variable h : heap.
Variable o : QueryOptions.

Lemma sortCompare_text (a b : val) :
  hasText h o a -> hasText h o b ->
  sortCompare h o a b
  = Normal
      (if ascending o
       then (if String.ltb (sortText h o b) (sortText h o a) then 1
             else if String.ltb (sortText h o a) (sortText h o b) then -1
                  else 0)
       else (if String.ltb (sortText h o a) (sortText h o b) then 1
             else if String.ltb (sortText h o b) (sortText h o a) then -1
                  else 0)).
Proof.
  intros (Hna & Hsa & Hma) (Hnb & Hsb & Hmb). unfold sortCompare.
  rewrite (getProp_nonnull h a _ Hna), (getProp_nonnull h b _ Hnb).
  fold (keyOf h o a) (keyOf h o b). cbn [bind]. unfold sortText, orMissing.
  fold (missing (keyOf h o a)) (missing (keyOf h o b)). rewrite Hma, Hmb.
  destruct (keyOf h o a) as [| |?|?|s]; try done.
  destruct (keyOf h o b) as [| |?|?|t]; try done.
Qed.

Lemma sortCompare_inTextOrder (a b : val) :
  hasText h o a -> hasText h o b ->
  exists c, sortCompare h o a b = Normal c
            /\ (c < 0 -> inTextOrder h o a b)
            /\ (0 <= c -> inTextOrder h o b a).
Proof.
  intros Ha Hb. rewrite (sortCompare_text a b Ha Hb). eexists.
  split; [reflexivity|]. unfold inTextOrder.
  destruct (ascending o).
  - destruct (String.ltb (sortText h o b) (sortText h o a)) eqn:E1.
    + split; [lia|]. intros _. by apply ltb_asym.
    + destruct (String.ltb (sortText h o a) (sortText h o b)) eqn:E2;
        (split; [done|]); [lia|done].
  - destruct (String.ltb (sortText h o a) (sortText h o b)) eqn:E1.
    + split; [lia|]. intros _. by apply ltb_asym.
    + destruct (String.ltb (sortText h o b) (sortText h o a)) eqn:E2;
        (split; [done|]); [lia|done].
Qed.

Lemma inTextOrder_trans (a b c : val) :
  hasText h o a -> hasText h o b -> hasText h o c ->
  inTextOrder h o a b -> inTextOrder h o b c -> inTextOrder h o a c.
Proof.
  intros _ _ _. unfold inTextOrder. destruct (ascending o); intros H1 H2.
  - by apply ltb_false_trans with (sortText h o b).
  - by apply ltb_false_trans with (sortText h o b).
Qed.

End TextOrder.

(** X8.  Sorting by a field that holds a text that is not empty in every
    record, in a collection of records on none of which the filter
    callback raises (it raises on none when there is no search term):
    [getFiltered] returns, the result is ordered by the text in lower case
    in the direction asked for, code unit by code unit, and records whose
    texts are equal up to case keep the order they have in the
    collection. *)
Theorem getFiltered_text_keys_in_order
    (h : heap) (properties : val) (o : QueryOptions) (elems : list val) :
  arrayElems h properties = Some elems ->
  Forall (hasText h o) elems ->
  Forall (fun x => returns (keeps h o x)) elems ->
  exists f sorted,
    getFiltered h properties o = (<[f := CArr sorted]> h, Normal (VRef f))
    /\ StronglySorted (inTextOrder h o) sorted
    /\ forall t : string,
         List.filter (fun x => String.eqb (sortText h o x) t) sorted
         = List.filter (fun x => String.eqb (sortText h o x) t)
             (List.filter (passes h o) elems).
Proof.
  intros Harr Hkeys Hkeeps.
  assert (Hin : forall a, In a elems -> hasText h o a).
  { intros a Ha. rewrite List.Forall_forall in Hkeys. by apply Hkeys. }
  destruct (getFiltered_returns_normal h properties o elems Harr Hkeeps)
    as (f & sorted & Hrun & _ & Hsort).
  { intros a b Ha Hb.
    by rewrite (sortCompare_text h o a b (Hin a Ha) (Hin b Hb)). }
  exists f, sorted. split; [exact Hrun|].
  pose proof (filter_Forall_In _ (passes h o) _ Hkeys) as Hkept.
  assert (Hdef : Forall (fun v => isUndefined v = false)
                   (List.filter (passes h o) elems)).
  { eapply List.Forall_impl; [|exact Hkept].
    intros x [Hn _]; by destruct x as [[]|]. }
  split.
  - apply (arraySort_sorted (sortCompare h o) (hasText h o) (inTextOrder h o)
             (sortCompare_inTextOrder h o) (inTextOrder_trans h o)
             _ _ Hkept Hdef Hsort).
  - intros t.
    set (okb := fun x => negb (isNullVal x) && isString (keyOf h o x)
                         && negb (missing (keyOf h o x))).
    assert (Hokb : forall x, okb x = true -> hasText h o x).
    { intros x [[Hn Hs]%andb_true_iff Hm]%andb_true_iff.
      apply negb_true_iff in Hn, Hm. done. }
    assert (Hokb' : forall x, hasText h o x -> okb x = true).
    { intros x (Hn & Hs & Hm). unfold okb. by rewrite Hn, Hs, Hm. }
    pose proof (arraySort_stable (sortCompare h o)
                  (fun x => okb x && String.eqb (sortText h o x) t)
                  (List.filter (passes h o) elems) sorted) as Hst.
    assert (Hq : forall l : list val,
               Forall (hasText h o) l ->
               List.filter (fun x => okb x && String.eqb (sortText h o x) t) l
               = List.filter (fun x => String.eqb (sortText h o x) t) l).
    { intros l Hl. apply filter_ext_in. intros x Hx.
      rewrite List.Forall_forall in Hl. by rewrite (Hokb' x (Hl x Hx)). }
    rewrite <- (Hq (List.filter (passes h o) elems) Hkept).
    rewrite <- Hq.
    + apply Hst; [|exact Hdef|exact Hsort].
      intros a b [Ha Hka]%andb_true_iff [Hb Hkb]%andb_true_iff.
      rewrite (sortCompare_text h o a b (Hokb a Ha) (Hokb b Hb)).
      apply String.eqb_eq in Hka, Hkb. rewrite Hka, Hkb, ltb_irrefl.
      by destruct (ascending o).
    + apply arraySort_Permutation in Hsort.
      apply List.Forall_forall. intros x Hx.
      rewrite List.Forall_forall in Hkept. apply Hkept.
      apply list_elem_of_In. rewrite <- Hsort. by apply list_elem_of_In.
Qed.

(** ** Search terms *)

Lemma toLowerCase_isEmpty (s : string) : isEmpty (toLowerCase s) = isEmpty s.
Proof. by destruct s. Qed.

(** X9.  The search of [getFiltered] does not depend on the case of the
    search term: two terms that are equal in lower case give the same
    result, heap included. *)
Theorem getFiltered_search_ignores_case
    (h : heap) (properties : val) (o : QueryOptions) (s t : string) :
  toLowerCase s = toLowerCase t ->
  getFiltered h properties (withSearch o s)
  = getFiltered h properties (withSearch o t).
Proof.
  intros Hst.
  assert (He : isEmpty s = isEmpty t).
  { by rewrite <- (toLowerCase_isEmpty s), Hst, toLowerCase_isEmpty. }
  assert (Hk : forall x, keeps h (withSearch o s) x = keeps h (withSearch o t) x).
  { intros x. unfold keeps, searchOk. cbn [searchTerm withSearch].
    by rewrite Hst, He. }
  unfold getFiltered. destruct (arrayElems h properties) as [elems|]; [|done].
  assert (Hf : filterM (keeps h (withSearch o s)) elems
               = filterM (keeps h (withSearch o t)) elems).
  { induction elems as [|x l IH]; simpl; [done|]. by rewrite Hk, IH. }
  rewrite Hf. reflexivity.
Qed.

Lemma getFiltered_search_ignores_case_witness :
  toLowerCase "MAIN" = toLowerCase "main"
  /\ getFiltered ExampleHost.deals (VRef 10)
       (withSearch (ExampleHost.byBeds "asc") "MAIN")
     = getFiltered ExampleHost.deals (VRef 10)
         (withSearch (ExampleHost.byBeds "asc") "main").
Proof.
  split; [reflexivity|].
  apply (getFiltered_search_ignores_case ExampleHost.deals (VRef 10)
           (ExampleHost.byBeds "asc") "MAIN" "main").
  reflexivity.
Defined.

(** ** [checkDuplicateProperty] *)

Lemma findM_some (p : val -> completion bool) (l : list val) (x : val) :
  findM p l = Normal (Some x) ->
  exists before after,
    l = before ++ x :: after
    /\ p x = Normal true
    /\ Forall (fun y => p y = Normal false) before.
Proof.
  induction l as [|y l IH]; simpl; [discriminate|].
  destruct (p y) as [[|]|e] eqn:Hy; simpl; try discriminate.
  - intros [= <-]. exists [], l. by repeat split.
  - intros Hfind. destruct (IH Hfind) as (before & after & -> & Hx & Hb).
    exists (y :: before), after. split; [done|]. split; [done|].
    by constructor.
Qed.

Lemma findM_none (p : val -> completion bool) (l : list val) :
  findM p l = Normal None -> Forall (fun y => p y = Normal false) l.
Proof.
  induction l as [|y l IH]; simpl; [constructor|].
  destruct (p y) as [[|]|e] eqn:Hy; simpl; try discriminate.
  intros Hfind. constructor; [done|by apply IH].
Qed.

Lemma isDuplicateOf_normal (h : heap) (address city : string) (p : val)
    (b : bool) :
  isDuplicateOf h (toLowerCase address) (toLowerCase city) p = Normal b ->
  similar h address city p = b.
Proof.
  unfold isDuplicateOf, sameCity, similar, fieldOf.
  destruct (getProp h p "address") as [[| |?|?|a]|e]; simpl; try discriminate.
  destruct (includes (toLowerCase address) (toLowerCase a)); simpl.
  - destruct (getProp h p "city") as [[| |?|?|c]|e]; simpl; try discriminate.
    by intros [= <-].
  - destruct (includes (toLowerCase a) (toLowerCase address)); simpl.
    + destruct (getProp h p "city") as [[| |?|?|c]|e]; simpl; try discriminate.
      by intros [= <-].
    + intros [= <-]. by destruct (getProp h p "city") as [[]|].
Qed.

Lemma similar_is_record (h : heap) (address city : string) (p : val) :
  similar h address city p = true -> exists l, p = VRef l.
Proof.
  unfold similar, fieldOf. destruct p as [[]|l]; simpl; try done. by exists l.
Qed.

(** X10.  What [checkDuplicateProperty] returns.  With an address or a city
    that is falsy it returns [null], whatever the collection, also one that
    is no array.  With an address or a city that is truthy but not a text
    it raises.  With two texts that are not empty, whenever it returns, the
    answer is the first record of the collection that is similar (one
    address contains the other, the cities are equal, case being ignored),
    or [null] when no record is. *)
Theorem checkDuplicateProperty_first_match
    (h : heap) (properties : val) (address city : prim) :
  (truthy address = false \/ truthy city = false ->
   checkDuplicateProperty h properties address city = Normal (VPrim PNull))
  /\ (truthy address = true -> truthy city = true ->
      isString address = false \/ isString city = false ->
      checkDuplicateProperty h properties address city = Throw TypeError)
  /\ (truthy address = true -> truthy city = true ->
      forall v,
        checkDuplicateProperty h properties address city = Normal v ->
        exists a c elems,
          address = PStr a /\ city = PStr c
          /\ arrayElems h properties = Some elems
          /\ ((v = VPrim PNull
               /\ Forall (fun y => similar h a c y = false) elems)
              \/ exists l before after,
                   v = VRef l
                   /\ elems = before ++ VRef l :: after
                   /\ similar h a c (VRef l) = true
                   /\ Forall (fun y => similar h a c y = false) before)).
Proof.
  unfold checkDuplicateProperty. split; [|split].
  - destruct (truthy address) eqn:Ha; cbn [negb orb]; [|done].
    destruct (truthy city) eqn:Hc; cbn [negb]; [|done].
    intros [|]; discriminate.
  - intros -> ->. cbn [negb orb].
    destruct address as [| |?|?|a]; cbn [asString bind]; try done.
    destruct city as [| |?|?|c]; cbn [asString bind]; try done.
    intros [|]; discriminate.
  - intros -> ->. cbn [negb orb]. intros v.
    destruct address as [| |?|?|a]; simpl; try discriminate.
    destruct city as [| |?|?|c]; simpl; try discriminate.
    destruct (arrayElems h properties) as [elems|]; [|discriminate].
    destruct (findM _ elems) as [[x|]|e] eqn:Hfind; simpl; try discriminate.
    + intros [= <-]. exists a, c, elems. do 3 (split; [done|]). right.
      destruct (findM_some _ _ _ Hfind) as (before & after & -> & Hx & Hb).
      apply isDuplicateOf_normal in Hx.
      destruct (similar_is_record _ _ _ _ Hx) as [l ->].
      exists l, before, after. do 3 (split; [done|]).
      eapply Forall_impl; [exact Hb|]. intros y Hy.
      by apply isDuplicateOf_normal in Hy.
    + intros [= <-]. exists a, c, elems. do 3 (split; [done|]). left.
      split; [done|]. apply findM_none in Hfind.
      eapply Forall_impl; [exact Hfind|]. intros y Hy.
      by apply isDuplicateOf_normal in Hy.
Qed.

Lemma stripPrefix_refl (s : string) : stripPrefix s s = Some "".
Proof.
  induction s as [|c r IH]; simpl; [done|].
  unfold eqChar. by rewrite N.eqb_refl.
Qed.

Lemma includes_refl (s : string) : includes s s = true.
Proof.
  unfold includes. destruct s as [|c r]; simpl; [done|].
  unfold eqChar. rewrite N.eqb_refl. by rewrite stripPrefix_refl.
Qed.

Lemma isDuplicateOf_text (h : heap) (address city : string) (p : val) :
  textAddress h p = true ->
  isDuplicateOf h (toLowerCase address) (toLowerCase city) p
  = Normal (similar h address city p).
Proof.
  unfold textAddress. intros [[Hn Ha]%andb_true_iff Hc]%andb_true_iff.
  apply negb_true_iff in Hn.
  unfold isDuplicateOf, sameCity, similar.
  rewrite !(getProp_nonnull h p _ Hn).
  destruct (fieldOf h p "address") as [| |?|?|a]; try done.
  destruct (fieldOf h p "city") as [| |?|?|c]; try done. simpl.
  destruct (includes (toLowerCase address) (toLowerCase a)); simpl; [done|].
  by destruct (includes (toLowerCase a) (toLowerCase address)).
Qed.

Lemma findM_finds (p : val -> completion bool) (q : val -> bool)
    (l : list val) (x : val) :
  Forall (fun y => p y = Normal (q y)) l -> In x l -> q x = true ->
  exists y, findM p l = Normal (Some y) /\ q y = true.
Proof.
  induction 1 as [|y l Hy _ IH]; simpl; [done|].
  rewrite Hy. simpl. destruct (q y) eqn:Hq; [by exists y|].
  intros [->|Hin] Hx; [congruence|by apply IH].
Qed.

(** X11.  A record of the collection is found again: in a collection whose
    records all have texts as address and city, the check for the address
    and city of one of its records, neither of them empty, answers with a
    record that is similar, never with [null]. *)
Theorem checkDuplicateProperty_finds_stored_record
    (h : heap) (properties : val) (elems : list val) (p : val)
    (a c : string) :
  arrayElems h properties = Some elems ->
  Forall (fun y => textAddress h y = true) elems ->
  In p elems ->
  fieldOf h p "address" = PStr a -> fieldOf h p "city" = PStr c ->
  a <> "" -> c <> "" ->
  exists l,
    checkDuplicateProperty h properties (PStr a) (PStr c) = Normal (VRef l)
    /\ In (VRef l) elems
    /\ similar h a c (VRef l) = true.
Proof.
  intros Harr Htext Hin Ha Hc Hane Hcne. unfold checkDuplicateProperty.
  destruct a as [|a0 a]; [done|]. destruct c as [|c0 c]; [done|].
  cbn [truthy isEmpty negb orb asString bind]. rewrite Harr.
  destruct (findM_finds (isDuplicateOf h (toLowerCase (String a0 a))
                           (toLowerCase (String c0 c)))
              (similar h (String a0 a) (String c0 c)) elems p)
    as (y & Hfind & Hy); [|done| |].
  - eapply Forall_impl; [exact Htext|]. intros y Hy.
    by apply isDuplicateOf_text.
  - unfold similar. by rewrite Ha, Hc, includes_refl, String.eqb_refl.
  - rewrite Hfind. simpl.
    destruct (similar_is_record _ _ _ _ Hy) as [l ->]. exists l.
    split; [done|]. split; [|done].
    apply findM_some in Hfind as (before & after & -> & _ & _).
    apply in_or_app. right. by left.
Qed.

(** ** More on [validateImportData] *)

Lemma validateImportData_normal (h h' : heap) (data : val) (l : loc) (n : Z) :
  validateImportData h data = (h', Normal (Accepted l n)) ->
  exists items,
    arrayElems h data = Some items
    /\ everyM (hasRequired h) items = Normal true.
Proof.
  unfold validateImportData.
  destruct (arrayElems h data) as [items|]; [|discriminate].
  destruct (everyM (hasRequired h) items) as [[|]|e] eqn:Hall;
    try discriminate.
  intros _. by exists items.
Qed.

(** X12.  What an accepted import holds.  The [properties] array is new
    and nothing that existed is changed; it lists a part of the batch in
    batch order; no record in it has the id of a record before it; every
    id of the batch is the id of a record in it; and [duplicatesRemoved] is
    the number of records left out, between 0 and the length of the
    batch. *)
Theorem validateImportData_accepted_is_duplicate_free
    (h h' : heap) (data : val) (l : loc) (n : Z) :
  validateImportData h data = (h', Normal (Accepted l n)) ->
  exists items kept,
    arrayElems h data = Some items
    /\ h !! l = None
    /\ h' !! l = Some (CArr kept)
    /\ (forall l0 c, h !! l0 = Some c -> h' !! l0 = Some c)
    /\ sublist kept items
    /\ (forall k1 x k2, kept = k1 ++ x :: k2 -> hasId h k1 (idOf h x) = false)
    /\ (forall i, hasId h items i = hasId h kept i)
    /\ n = Z.of_nat (length items) - Z.of_nat (length kept)
    /\ 0 <= n <= Z.of_nat (length items).
Proof.
  intros Hrun.
  destruct (validateImportData_normal _ _ _ _ _ Hrun) as (items & Harr & Hall).
  rewrite (validateImportData_accepted h data items Harr Hall) in Hrun.
  injection Hrun as <- <- <-.
  assert (Hfresh : h !! fresh (dom h) = None) by apply not_elem_of_dom, is_fresh.
  exists items, (firstOccurrences h [] items).
  split; [done|]. split; [done|]. split; [by rewrite lookup_insert_eq|].
  split.
  { intros l0 c Hl0. rewrite lookup_insert_ne; [done|]. congruence. }
  split; [apply firstOccurrences_sublist|].
  split.
  { intros k1 x k2 Hk. by destruct (firstOccurrences_distinct h items [] k1 x k2 Hk). }
  split.
  { intros i. by apply (firstOccurrences_same_ids h items [] []). }
  split; [done|].
  pose proof (sublist_length _ _ (firstOccurrences_sublist h [] items)). lia.
Qed.

Lemma validateImportData_accepted_is_duplicate_free_witness :
  validateImportData ExampleHost.deals (VRef 10)
  = (<[13%positive := CArr [VRef 1; VRef 3]%positive]> ExampleHost.deals,
     Normal (Accepted 13 1))
  /\ exists items kept,
       arrayElems ExampleHost.deals (VRef 10) = Some items
       /\ ExampleHost.deals !! 13%positive = None
       /\ (<[13%positive := CArr [VRef 1; VRef 3]%positive]> ExampleHost.deals)
            !! 13%positive = Some (CArr kept)
       /\ (forall l0 c,
             ExampleHost.deals !! l0 = Some c ->
             (<[13%positive := CArr [VRef 1; VRef 3]%positive]>
                ExampleHost.deals) !! l0 = Some c)
       /\ sublist kept items
       /\ (forall k1 x k2, kept = k1 ++ x :: k2 ->
             hasId ExampleHost.deals k1 (idOf ExampleHost.deals x) = false)
       /\ (forall i, hasId ExampleHost.deals items i
                     = hasId ExampleHost.deals kept i)
       /\ 1 = Z.of_nat (length items) - Z.of_nat (length kept)
       /\ 0 <= 1 <= Z.of_nat (length items).
Proof.
  assert (H : validateImportData ExampleHost.deals (VRef 10)
              = (<[13%positive := CArr [VRef 1; VRef 3]%positive]>
                   ExampleHost.deals,
                 Normal (Accepted 13 1)))
    by (vm_compute; reflexivity).
  split; [exact H|].
  exact (validateImportData_accepted_is_duplicate_free _ _ _ _ _ H).
Defined.

Lemma hasRequired_complete (h : heap) (x : val) :
  isNullVal x = false -> hasRequired h x = Normal (complete h x).
Proof.
  intros Hx. unfold hasRequired, complete.
  rewrite !(getProp_nonnull h x _ Hx). simpl.
  by destruct (truthy (fieldOf h x "address")).
Qed.

Lemma everyM_stops (f : val -> completion bool) (before after : list val)
    (x : val) :
  Forall (fun y => f y = Normal true) before -> f x = Normal false ->
  everyM f (before ++ x :: after) = Normal false.
Proof.
  induction 1 as [|y l Hy _ IH]; simpl; intros Hx.
  - by rewrite Hx.
  - rewrite Hy. simpl. by apply IH.
Qed.

(** X13.  A batch is rejected at its first record without a truthy address
    or city: when the records before it have both, the answer is the
    rejection descriptor and the heap is as before, whatever comes after
    that record, a [null] included. *)
Theorem validateImportData_rejects_at_first_incomplete
    (h : heap) (data : val) (before after : list val) (x : val) :
  arrayElems h data = Some (before ++ x :: after) ->
  Forall (fun y => isNullVal y = false /\ complete h y = true) before ->
  isNullVal x = false -> complete h x = false ->
  validateImportData h data
  = (h, Normal (Rejected "Missing required fields (address, city)")).
Proof.
  intros Harr Hbefore Hx Hinc. unfold validateImportData. rewrite Harr.
  rewrite (everyM_stops (hasRequired h) before after x); [done| |].
  - eapply Forall_impl; [exact Hbefore|]. intros y [Hy Hc].
    by rewrite (hasRequired_complete h y Hy), Hc.
  - by rewrite (hasRequired_complete h x Hx), Hinc.
Qed.

(** ** More on [validatePropertyData] *)

Lemma reported_sublist (cs : list (bool * string)) :
  sublist (reported cs) (List.map snd cs).
Proof.
  unfold reported. induction cs as [|[c m] cs IH]; simpl; [constructor|].
  destruct c; simpl; [by apply sublist_skip|by apply sublist_cons].
Qed.

Lemma reported_nil (cs : list (bool * string)) :
  reported cs = [] <-> Forall (fun c => fst c = false) cs.
Proof.
  unfold reported. induction cs as [|[c m] cs IH]; simpl.
  - split; [constructor|done].
  - destruct c; simpl.
    + split; [done|]. by inversion 1.
    + rewrite IH. split; [by constructor|by inversion 1].
Qed.

(** X14.  The messages of [validatePropertyData] come in the fixed order
    of its twelve rules and none comes twice; the list is empty exactly
    when no rule is violated. *)
Theorem validatePropertyData_messages_in_rule_order
    (P : Platform) (h : heap) (data : val) :
  isNullVal data = false ->
  textOrFalsy (fieldOf h data "address") = true ->
  textOrFalsy (fieldOf h data "city") = true ->
  exists errors,
    validatePropertyData P h data = Normal errors
    /\ sublist errors allMessages
    /\ NoDup errors
    /\ (errors = []
        <-> Forall (fun c => fst c = false) (checks P (fieldOf h data))).
Proof.
  intros Hnn Ha Hc. exists (reported (checks P (fieldOf h data))).
  split; [by apply validatePropertyData_checks|].
  assert (Hsub : sublist (reported (checks P (fieldOf h data))) allMessages).
  { apply (reported_sublist (checks P (fieldOf h data))). }
  split; [exact Hsub|]. split; [|apply reported_nil].
  apply (sublist_NoDup _ allMessages); [|exact Hsub].
  apply (bool_decide_unpack _). vm_compute. reflexivity.
Qed.

(** ** [normalizeProperties] *)

Lemma orElse_blank_idem (v : prim) :
  orElse (orElse v (PStr "")) (PStr "") = orElse v (PStr "").
Proof. unfold orElse. destruct (truthy v) eqn:E; [by rewrite E|done]. Qed.

Lemma blankIfFalsy_lookup (key k : string) (fields : gmap string prim) :
  default PUndef (blankIfFalsy key fields !! k)
  = if String.eqb k key
    then orElse (default PUndef (fields !! k)) (PStr "")
    else default PUndef (fields !! k).
Proof.
  unfold blankIfFalsy, orElse.
  destruct (String.eqb_spec k key) as [->|Hne].
  - destruct (truthy (default PUndef (fields !! key))); simpl; [done|].
    by rewrite lookup_insert_eq.
  - destruct (truthy (default PUndef (fields !! key))); simpl; [done|].
    by rewrite lookup_insert_ne.
Qed.

Lemma normalizeFields_lookup (k : string) (fields : gmap string prim) :
  default PUndef (normalizeFields fields !! k)
  = if isNormalized k
    then orElse (default PUndef (fields !! k)) (PStr "")
    else default PUndef (fields !! k).
Proof.
  unfold normalizeFields, isNormalized. rewrite !blankIfFalsy_lookup.
  destruct (String.eqb_spec k "notes") as [->|]; [done|].
  destruct (String.eqb_spec k "rehab") as [->|]; [done|].
  destruct (String.eqb_spec k "arv") as [->|]; done.
Qed.

Lemma blankIfFalsy_fixed (key : string) (fields : gmap string prim) :
  truthy (default PUndef (fields !! key)) = true
  \/ fields !! key = Some (PStr "") ->
  blankIfFalsy key fields = fields.
Proof.
  unfold blankIfFalsy. intros [->|Hk]; [done|].
  rewrite Hk. simpl. by apply insert_id.
Qed.

Lemma blankIfFalsy_result (key : string) (fields : gmap string prim) :
  truthy (default PUndef (blankIfFalsy key fields !! key)) = true
  \/ blankIfFalsy key fields !! key = Some (PStr "").
Proof.
  unfold blankIfFalsy.
  destruct (truthy (default PUndef (fields !! key))) eqn:E; simpl.
  - by left.
  - right. by rewrite lookup_insert_eq.
Qed.

Lemma blankIfFalsy_other (key k : string) (fields : gmap string prim) :
  k <> key -> blankIfFalsy key fields !! k = fields !! k.
Proof.
  intros Hne. unfold blankIfFalsy.
  destruct (truthy (default PUndef (fields !! key))); simpl; [done|].
  by rewrite lookup_insert_ne.
Qed.

Lemma normalizeFields_idem (fields : gmap string prim) :
  normalizeFields (normalizeFields fields) = normalizeFields fields.
Proof.
  unfold normalizeFields.
  set (f1 := blankIfFalsy "arv" fields).
  set (f2 := blankIfFalsy "rehab" f1).
  set (f3 := blankIfFalsy "notes" f2).
  assert (H1 : blankIfFalsy "arv" f3 = f3).
  { apply blankIfFalsy_fixed. unfold f3, f2.
    rewrite !blankIfFalsy_other by done. apply blankIfFalsy_result. }
  assert (H2 : blankIfFalsy "rehab" f3 = f3).
  { apply blankIfFalsy_fixed. unfold f3.
    rewrite !blankIfFalsy_other by done. apply blankIfFalsy_result. }
  assert (H3 : blankIfFalsy "notes" f3 = f3).
  { apply blankIfFalsy_fixed. apply blankIfFalsy_result. }
  by rewrite H1, H2, H3.
Qed.

Lemma In_VRef_dec (l : loc) (elems : list val) :
  In (VRef l) elems \/ ~ In (VRef l) elems.
Proof.
  induction elems as [|x t IH]; simpl; [tauto|].
  destruct IH as [IH|IH]; [tauto|].
  destruct x as [p|l']; [right; intros [?|?]; [discriminate|tauto]|].
  destruct (decide (l' = l)) as [->|Hne]; [tauto|].
  right. intros [[= ?]|?]; tauto.
Qed.

Lemma normalizeEach_normal (elems : list val) :
  forall h h', normalizeEach h elems = Some (h', Normal tt) ->
    (forall l, In (VRef l) elems ->
       exists fields, h !! l = Some (CObj fields)
                      /\ h' !! l = Some (CObj (normalizeFields fields)))
    /\ (forall l, ~ In (VRef l) elems -> h' !! l = h !! l).
Proof.
  induction elems as [|p rest IH]; intros h h'; simpl.
  - intros [= <-]. split; [done|done].
  - destruct p as [q|l0].
    + assert (Hq : normalizeOne h (VPrim q) = Some (h, Normal tt)
                   \/ normalizeOne h (VPrim q) = Some (h, Throw TypeError))
        by (destruct q; simpl; auto).
      destruct Hq as [-> | ->]; [|discriminate].
      intros Hrest. destruct (IH _ _ Hrest) as [H1 H2]. split.
      * intros l [?|Hin]; [discriminate|by apply H1].
      * intros l Hl. apply H2. intros Hin. apply Hl. by right.
    + simpl. destruct (h !! l0) as [[fields|e]|] eqn:Hl0; try discriminate.
      intros Hrest. destruct (IH _ _ Hrest) as [H1 H2]. split.
      * intros l [[= ->]|Hin].
        -- exists fields. split; [done|].
           destruct (In_VRef_dec l rest) as [Hin|Hni].
           ++ destruct (H1 l Hin) as (f' & Hf' & ->).
              rewrite lookup_insert_eq in Hf'. injection Hf' as <-.
              by rewrite normalizeFields_idem.
           ++ rewrite (H2 l Hni). by rewrite lookup_insert_eq.
        -- destruct (H1 l Hin) as (f' & Hf' & ->).
           destruct (decide (l0 = l)) as [->|Hne].
           ++ rewrite lookup_insert_eq in Hf'. injection Hf' as <-.
              exists fields. split; [done|]. by rewrite normalizeFields_idem.
           ++ rewrite lookup_insert_ne in Hf' by done. by exists f'.
      * intros l Hl. rewrite (H2 l).
        -- rewrite lookup_insert_ne; [done|]. intros ->. apply Hl. by left.
        -- intros Hin. apply Hl. by right.
Qed.

Lemma normalizeProperties_normal (h h' : heap) (properties v : val) :
  normalizeProperties h properties = Some (h', Normal v) ->
  exists elems,
    arrayElems h properties = Some elems
    /\ v = properties
    /\ normalizeEach h elems = Some (h', Normal tt).
Proof.
  unfold normalizeProperties.
  destruct (arrayElems h properties) as [elems|]; [|discriminate].
  destruct (normalizeEach h elems) as [[h1 [[]|e]]|] eqn:Heach;
    try discriminate.
  intros [= <- <-]. by exists elems.
Qed.

Lemma normalizeEach_nonnull (elems : list val) :
  forall h h', normalizeEach h elems = Some (h', Normal tt) ->
    Forall (fun x => isNullVal x = false) elems.
Proof.
  induction elems as [|p rest IH]; intros h h'; simpl; [constructor|].
  destruct p as [q|l0].
  - destruct q; simpl; try discriminate; intros Hrest;
      (constructor; [done|by eapply IH]).
  - simpl. destruct (h !! l0) as [[fields|e]|]; try discriminate.
    intros Hrest. constructor; [done|by eapply IH].
Qed.

Lemma normalizeEach_fixed (h : heap) (elems : list val) :
  Forall (fun x => isNullVal x = false) elems ->
  (forall l, In (VRef l) elems ->
     exists fields, h !! l = Some (CObj fields)
                    /\ normalizeFields fields = fields) ->
  normalizeEach h elems = Some (h, Normal tt).
Proof.
  induction 1 as [|p rest Hp _ IH]; intros Hrec; simpl; [done|].
  destruct p as [q|l0].
  - assert (normalizeOne h (VPrim q) = Some (h, Normal tt)) as ->
      by (by destruct q).
    apply IH. intros l Hl. apply Hrec. by right.
  - simpl. destruct (Hrec l0) as (fields & Hl0 & Hfix); [by left|].
    rewrite Hl0, Hfix, (insert_id h l0 _ Hl0).
    apply IH. intros l Hl. apply Hrec. by right.
Qed.

Lemma normalizeEach_fieldOf (h h' : heap) (elems : list val) (l : loc)
    (key : string) :
  normalizeEach h elems = Some (h', Normal tt) ->
  In (VRef l) elems ->
  fieldOf h' (VRef l) key
  = if isNormalized key
    then orElse (fieldOf h (VRef l) key) (PStr "")
    else fieldOf h (VRef l) key.
Proof.
  intros Hrun Hin.
  destruct (proj1 (normalizeEach_normal _ _ _ Hrun) l Hin) as (f & Hl & Hl').
  unfold fieldOf. simpl. rewrite Hl, Hl'. apply normalizeFields_lookup.
Qed.

(** X15.  What [normalizeProperties] does when it returns.  It returns the
    collection it was given, whose elements are as before.  In every record
    of the collection the fields [arv], [rehab] and [notes] read the empty
    string where they read a falsy value before, and as before otherwise;
    every other field reads as before; and what is not a record of the
    collection is not touched. *)
Theorem normalizeProperties_blanks_three_fields
    (h h' : heap) (properties v : val) :
  normalizeProperties h properties = Some (h', Normal v) ->
  v = properties
  /\ arrayElems h' properties = arrayElems h properties
  /\ exists elems,
       arrayElems h properties = Some elems
       /\ (forall l key, In (VRef l) elems ->
             fieldOf h' (VRef l) key
             = if isNormalized key
               then orElse (fieldOf h (VRef l) key) (PStr "")
               else fieldOf h (VRef l) key)
       /\ (forall l, ~ In (VRef l) elems -> h' !! l = h !! l).
Proof.
  intros Hrun.
  destruct (normalizeProperties_normal _ _ _ _ Hrun) as (elems & Harr & -> & Heach).
  destruct (normalizeEach_normal _ _ _ Heach) as [H1 H2].
  split; [done|]. split.
  - destruct properties as [p|lp]; [done|]. simpl in *.
    rewrite H2; [done|]. intros Hin.
    destruct (H1 lp Hin) as (f & Hf & _). by rewrite Hf in Harr.
  - exists elems. split; [done|]. split; [|exact H2].
    intros l key Hin. by apply (normalizeEach_fieldOf h h' elems).
Qed.

(** X16.  [normalizeProperties] is idempotent: run again on what it
    returned, it returns the same collection and changes nothing. *)
Theorem normalizeProperties_idempotent
    (h h' : heap) (properties v : val) :
  normalizeProperties h properties = Some (h', Normal v) ->
  normalizeProperties h' v = Some (h', Normal v).
Proof.
  intros Hrun.
  destruct (normalizeProperties_normal _ _ _ _ Hrun) as (elems & Harr & -> & Heach).
  destruct (normalizeEach_normal _ _ _ Heach) as [H1 H2].
  assert (Harr' : arrayElems h' properties = Some elems).
  { destruct properties as [p|lp]; [done|]. simpl in *.
    rewrite H2; [done|]. intros Hin.
    destruct (H1 lp Hin) as (f & Hf & _). by rewrite Hf in Harr. }
  unfold normalizeProperties. rewrite Harr'.
  rewrite (normalizeEach_fixed h' elems); [done| |].
  - by apply (normalizeEach_nonnull elems h h').
  - intros l Hin. destruct (H1 l Hin) as (f & _ & Hf').
    exists (normalizeFields f). split; [done|apply normalizeFields_idem].
Qed.

Lemma mapM_ext_in {A B} (f g : A -> completion B) (l : list A) :
  (forall x, In x l -> f x = g x) -> mapM f l = mapM g l.
Proof.
  induction l as [|x l IH]; simpl; intros Hfg; [done|].
  rewrite (Hfg x) by (by left). rewrite IH; [done|].
  intros y Hy. apply Hfg. by right.
Qed.

Lemma rowValues_normalized (P : Platform) (fields : gmap string prim)
    (h h' : heap) (l : loc) :
  h !! l = Some (CObj fields) ->
  h' !! l = Some (CObj (normalizeFields fields)) ->
  rowValues P h' (VRef l) = rowValues P h (VRef l).
Proof.
  intros Hl Hl'. unfold rowValues, getProp. rewrite Hl, Hl'. cbn [bind].
  rewrite !normalizeFields_lookup.
  unfold isNormalized. cbn [String.eqb Ascii.eqb Bool.eqb orb andb].
  rewrite !orElse_blank_idem. reflexivity.
Qed.

Lemma rowValues_prim (P : Platform) (h h' : heap) (p : prim) :
  rowValues P h (VPrim p) = rowValues P h' (VPrim p).
Proof. unfold rowValues. destruct p; cbn [getProp]; reflexivity. Qed.

(** X17.  Normalising does not show in the export: [exportCSVString] gives
    the same text, or raises alike, before and after
    [normalizeProperties]. *)
Theorem exportCSVString_after_normalizeProperties
    (P : Platform) (h h' : heap) (properties v : val) :
  normalizeProperties h properties = Some (h', Normal v) ->
  exportCSVString P h' v = exportCSVString P h properties.
Proof.
  intros Hrun.
  destruct (normalizeProperties_normal _ _ _ _ Hrun) as (elems & Harr & -> & Heach).
  destruct (normalizeEach_normal _ _ _ Heach) as [H1 H2].
  assert (Harr' : arrayElems h' properties = Some elems).
  { destruct properties as [p|lp]; [done|]. simpl in *.
    rewrite H2; [done|]. intros Hin.
    destruct (H1 lp Hin) as (f & Hf & _). by rewrite Hf in Harr. }
  unfold exportCSVString. rewrite Harr, Harr'.
  rewrite (mapM_ext_in (rowCells P h') (rowCells P h)); [done|].
  intros x Hx. unfold rowCells.
  destruct x as [p|l]; [by rewrite (rowValues_prim P h' h)|].
  destruct (H1 l Hx) as (f & Hf & Hf').
  by rewrite (rowValues_normalized P f h h' l Hf Hf').
Qed.

Lemma computeSpread_blank (arv asking rehab : prim) :
  computeSpread (orElse arv (PStr "")) asking (orElse rehab (PStr ""))
  = computeSpread arv asking rehab.
Proof.
  unfold computeSpread, orElse.
  destruct (truthy arv) eqn:Ea; [|done]. rewrite Ea. simpl.
  destruct (truthy asking); [|done]. simpl.
  by destruct (truthy rehab) eqn:Er; [rewrite Er|].
Qed.

(** X18.  Normalising does not change the spread of a record of the
    collection: [computeSpread] on its [arv], [asking] and [rehab] gives
    the same value before and after [normalizeProperties]. *)
Theorem computeSpread_after_normalizeProperties
    (h h' : heap) (properties v : val) (elems : list val) (l : loc) :
  normalizeProperties h properties = Some (h', Normal v) ->
  arrayElems h properties = Some elems ->
  In (VRef l) elems ->
  computeSpread (fieldOf h' (VRef l) "arv") (fieldOf h' (VRef l) "asking")
    (fieldOf h' (VRef l) "rehab")
  = computeSpread (fieldOf h (VRef l) "arv") (fieldOf h (VRef l) "asking")
      (fieldOf h (VRef l) "rehab").
Proof.
  intros Hrun Harr Hin.
  destruct (normalizeProperties_normal _ _ _ _ Hrun) as (elems' & Harr' & -> & Heach).
  rewrite Harr in Harr'. injection Harr' as <-.
  rewrite !(normalizeEach_fieldOf h h' elems l _ Heach Hin).
  apply computeSpread_blank.
Qed.

(** ** More on [parseBlock] *)

Lemma parseBlock_fields (block : string) :
  let st := Parser.run block in
  parseBlock block !! "address" = Some (PStr (Parser.address st))
  /\ parseBlock block !! "city" = Some (PStr (Parser.city st))
  /\ parseBlock block !! "zip" = Some (PStr (Parser.zip st))
  /\ parseBlock block !! "county" = Some (PStr (Parser.county st))
  /\ parseBlock block !! "beds" = Some (Parser.beds st)
  /\ parseBlock block !! "baths" = Some (Parser.baths st)
  /\ parseBlock block !! "asking" = Some (Parser.asking st)
  /\ parseBlock block !! "access" = Some (Parser.access st)
  /\ parseBlock block !! "pictures" = Some (Parser.pictures st)
  /\ parseBlock block !! "arv" = Some (Parser.arv st)
  /\ parseBlock block !! "notes"
     = Some (PStr (Parser.joinLines (Parser.notes st))).
Proof.
  intros st. unfold parseBlock. fold st. cbn [list_to_map foldr uncurry].
  repeat split;
    repeat (rewrite lookup_insert_ne by done); apply lookup_insert_eq.
Qed.

(** An invariant of the loop holds after it when every rule keeps it. *)
Lemma parseLine_invariant (I : Parser.Locals -> Prop) (st : Parser.Locals)
    (line : string) :
  (forall st', Parser.addressRule st line = Some st' -> I st') ->
  (forall st', Parser.countyRule st line = Some st' -> I st') ->
  (forall st', Parser.bedsBathsRule st line = Some st' -> I st') ->
  (forall st', Parser.arvRule st line = Some st' -> I st') ->
  (forall st', Parser.askingRule st line = Some st' -> I st') ->
  (forall st', Parser.accessRule st line = Some st' -> I st') ->
  (forall st', Parser.picturesRule st line = Some st' -> I st') ->
  I (Parser.notesRule st line) ->
  I (Parser.parseLine st line).
Proof.
  intros H1 H2 H3 H4 H5 H6 H7 H8. unfold Parser.parseLine.
  cbn [Parser.firstOf].
  destruct (Parser.addressRule st line); [by apply H1|].
  destruct (Parser.countyRule st line); [by apply H2|].
  destruct (Parser.bedsBathsRule st line); [by apply H3|].
  destruct (Parser.arvRule st line); [by apply H4|].
  destruct (Parser.askingRule st line); [by apply H5|].
  destruct (Parser.accessRule st line); [by apply H6|].
  destruct (Parser.picturesRule st line); [by apply H7|].
  exact H8.
Qed.

Lemma run_invariant (I : Parser.Locals -> Prop) :
  I Parser.initial ->
  (forall st line, I st -> I (Parser.parseLine st line)) ->
  forall block, I (Parser.run block).
Proof.
  intros H0 Hstep block. unfold Parser.run.
  generalize (Parser.blockLines block). intros ls.
  revert H0. generalize Parser.initial.
  induction ls as [|l ls IH]; intros st Hst; simpl; [done|].
  apply IH. by apply Hstep.
Qed.

Lemma findFirst_some {A} (m : string -> option A) (s : string) (a : A) :
  findFirst m s = Some a -> exists t, m t = Some a.
Proof.
  induction s as [|c r IH]; simpl.
  - destruct (m "") eqn:E; [|discriminate]. intros [= <-]. by exists "".
  - destruct (m (String c r)) eqn:E.
    + intros [= <-]. by exists (String c r).
    + apply IH.
Qed.

Lemma allChars_span (p : ascii -> bool) (s : string) :
  allChars p (fst (span p s)) = true.
Proof.
  unfold allChars. induction s as [|c r IH]; simpl; [done|].
  destruct (p c) eqn:E; simpl; [|done].
  destruct (span p r) as [a b] eqn:Hs. simpl in *. rewrite E.
  by destruct (span p a).
Qed.

Lemma allChars_cons (p : ascii -> bool) (c : ascii) (s : string) :
  allChars p (String c s) = p c && allChars p s.
Proof.
  unfold allChars. simpl. destruct (p c); simpl; [|done].
  by destruct (span p s).
Qed.

Lemma digitsValue_nonneg (s : string) :
  forall acc, allChars isDigit s = true -> 0 <= acc -> 0 <= digitsValue acc s.
Proof.
  induction s as [|c r IH]; intros acc; simpl; [done|].
  rewrite allChars_cons. intros [Hc Hr]%andb_true_iff Hacc.
  apply IH; [done|]. unfold isDigit in Hc.
  apply andb_true_iff in Hc as [Hc _]. apply N.leb_le in Hc. lia.
Qed.

Lemma decimal_nonneg (d1 d2 : string) :
  allChars isDigit d1 = true -> allChars isDigit d2 = true ->
  (0 <= decimal d1 d2)%Q.
Proof.
  intros H1 H2. unfold decimal. rewrite Qred_correct. unfold Qle. simpl.
  pose proof (digitsValue_nonneg d1 0 H1 (Z.le_refl 0)).
  pose proof (digitsValue_nonneg d2 0 H2 (Z.le_refl 0)).
  assert (0 < 10 ^ Z.of_nat (String.length d2)) by (apply Z.pow_pos_nonneg; lia).
  nia.
Qed.

Lemma decimalGroup_digits (s d1 d2 r : string) :
  Parser.decimalGroup s = Some (d1, d2, r) ->
  allChars isDigit d1 = true /\ allChars isDigit d2 = true.
Proof.
  unfold Parser.decimalGroup.
  pose proof (allChars_span isDigit s) as H1.
  destruct (span isDigit s) as [a r1]. simpl in H1.
  destruct (isEmpty a); [discriminate|].
  set (r2 := match r1 with String "." r0 => r0 | _ => r1 end).
  pose proof (allChars_span isDigit r2) as H2.
  destruct (span isDigit r2) as [b r3]. simpl in H2.
  by intros [= <- <- <-].
Qed.

Lemma inject_Z_nonneg (z : Z) : 0 <= z -> (0 <= inject_Z z)%Q.
Proof. intros Hz. change (0 * 1 <= z * 1). lia. Qed.

Lemma pow2_nonneg (e : Z) : (0 <= JsDouble.pow2 e)%Q.
Proof.
  unfold JsDouble.pow2. destruct (0 <=? e) eqn:E.
  - apply inject_Z_nonneg, Z.pow_nonneg. lia.
  - by unfold Qle.
Qed.

Lemma nearestEven_nonneg (q : Q) : (0 <= q)%Q -> 0 <= JsDouble.nearestEven q.
Proof.
  intros Hq. unfold JsDouble.nearestEven.
  assert (0 <= Qfloor q).
  { change 0 with (Qfloor 0). by apply Qfloor_resp_le. }
  destruct (_ ?= _)%Q; [destruct (Z.even _)| |]; lia.
Qed.

Lemma nearestEven_whole (k : Z) : JsDouble.nearestEven (inject_Z k) = k.
Proof.
  unfold JsDouble.nearestEven. rewrite Qfloor_Z.
  assert (H : (inject_Z k - inject_Z k ?= 1 # 2)%Q = Lt).
  { unfold Qcompare. apply Z.compare_lt_iff. simpl. lia. }
  by rewrite H.
Qed.

Lemma scaled_nonneg (m e : Z) : 0 <= m -> (0 <= JsDouble.scaled m e)%Q.
Proof.
  intros Hm. unfold JsDouble.scaled. destruct (0 <=? e) eqn:E.
  - apply inject_Z_nonneg, Z.mul_nonneg_nonneg; [done|].
    apply Z.pow_nonneg. lia.
  - rewrite Qred_correct. change (0 * Zpos (Z.to_pos (2 ^ (- e))) <= m * 1). lia.
Qed.

Lemma Qred_inject_Z (z : Z) : Qred (inject_Z z) = inject_Z z.
Proof.
  unfold Qred, inject_Z.
  pose proof (Z.ggcd_gcd z 1) as Hg.
  pose proof (Z.ggcd_correct_divisors z 1) as Hd.
  destruct (Z.ggcd z 1) as [g [a b]]. cbn [fst snd] in *.
  rewrite Z.gcd_1_r in Hg. subst g. destruct Hd as [Ha Hb].
  assert (a = z) as -> by lia. assert (b = 1) as -> by lia. reflexivity.
Qed.

Lemma Qred_whole (z : Z) (p : positive) :
  Qred (z * Zpos p # p) = inject_Z z.
Proof.
  rewrite <- (Qred_inject_Z z). apply Qred_complete.
  unfold Qeq. simpl. lia.
Qed.

Lemma nearestPositive_nonneg (q : Q) :
  (0 <= q)%Q ->
  JsDouble.nearestPositive q = PosInf
  \/ exists r, JsDouble.nearestPositive q = Fin r /\ (0 <= r)%Q.
Proof.
  intros Hq. unfold JsDouble.nearestPositive. cbv zeta.
  destruct (_ <=? _); [by left|]. right. eexists. split; [reflexivity|].
  apply scaled_nonneg, nearestEven_nonneg.
  apply Qmult_le_0_compat; [done|]. apply Qinv_le_0_compat, pow2_nonneg.
Qed.

Lemma nearestPositive_whole (z : Z) :
  0 <= z ->
  JsDouble.nearestPositive (inject_Z z) = PosInf
  \/ exists k, JsDouble.nearestPositive (inject_Z z) = ofZ k /\ 0 <= k.
Proof.
  intros Hz. unfold JsDouble.nearestPositive. cbv zeta.
  set (e := Z.max (JsDouble.ilog2 (inject_Z z) - 52) (-1074)).
  destruct (_ <=? _); [by left|]. right.
  unfold JsDouble.scaled, JsDouble.pow2.
  destruct (0 <=? e) eqn:E.
  - eexists. split; [reflexivity|].
    apply Z.mul_nonneg_nonneg; [|apply Z.pow_nonneg; lia].
    apply nearestEven_nonneg.
    apply Qmult_le_0_compat; [by apply inject_Z_nonneg|].
    apply Qinv_le_0_compat, inject_Z_nonneg, Z.pow_nonneg. lia.
  - exists z. split; [|done]. unfold ofZ. f_equal.
    change (inject_Z z / (1 # Z.to_pos (2 ^ (- e))))%Q
      with (inject_Z z * (Zpos (Z.to_pos (2 ^ (- e))) # 1))%Q.
    assert (Hm : (inject_Z z * (Zpos (Z.to_pos (2 ^ (- e))) # 1))%Q
                 = inject_Z (z * Zpos (Z.to_pos (2 ^ (- e))))) by reflexivity.
    rewrite Hm, nearestEven_whole. apply Qred_whole.
Qed.

Lemma ofReal_nonneg (q : Q) :
  (0 <= q)%Q ->
  JsDouble.ofReal q = PosInf
  \/ exists r, JsDouble.ofReal q = Fin r /\ (0 <= r)%Q.
Proof.
  intros Hq. unfold JsDouble.ofReal. destruct (q ?= 0)%Q eqn:E.
  - right. by exists 0%Q.
  - apply Qlt_alt in E. by apply Qle_not_lt in Hq.
  - by apply nearestPositive_nonneg.
Qed.

Lemma ofReal_whole (z : Z) :
  0 <= z ->
  JsDouble.ofReal (inject_Z z) = PosInf
  \/ exists k, JsDouble.ofReal (inject_Z z) = ofZ k /\ 0 <= k.
Proof.
  intros Hz. unfold JsDouble.ofReal. destruct (inject_Z z ?= 0)%Q eqn:E.
  - right. by exists 0.
  - apply Qlt_alt in E. unfold Qlt in E. simpl in E. lia.
  - by apply nearestPositive_whole.
Qed.

Lemma parseFloat_nonneg (d1 d2 : string) :
  allChars isDigit d1 = true -> allChars isDigit d2 = true ->
  Parser.parseFloat d1 d2 = PosInf
  \/ exists r, Parser.parseFloat d1 d2 = Fin r /\ (0 <= r)%Q.
Proof. intros H1 H2. by apply ofReal_nonneg, decimal_nonneg. Qed.

Lemma kNumber_nonneg (line : string) (x : num) :
  Parser.kNumber line = Some x ->
  x = PosInf \/ exists r, x = Fin r /\ (0 <= r)%Q.
Proof.
  unfold Parser.kNumber. intros [t Ht]%findFirst_some.
  unfold Parser.kNumberAt in Ht.
  destruct (Parser.decimalGroup t) as [[[d1 d2] r]|] eqn:Hg; [|discriminate].
  destruct (decimalGroup_digits _ _ _ _ Hg) as [H1 H2].
  destruct (snd (span isWhiteSpace r)) as [|c ?]; [discriminate|].
  destruct (eqCharCI c "k"); [|discriminate].
  injection Ht as <-. by apply parseFloat_nonneg.
Qed.

Lemma kAmount_count (x : num) :
  x = PosInf \/ (exists r, x = Fin r /\ (0 <= r)%Q) ->
  countOrNull (Parser.kAmount x).
Proof.
  unfold Parser.kAmount.
  intros [->|(r & -> & Hr)]; [right; by left|].
  unfold JsDouble.mul, ofZ.
  destruct (ofReal_nonneg (r * inject_Z 1000)) as [->|(s & -> & Hs)].
  - apply Qmult_le_0_compat; [done|]. by unfold Qle.
  - right. by left.
  - right. right. unfold round. eexists. split; [reflexivity|].
    change 0 with (Qfloor 0). apply Qfloor_resp_le.
    apply Qle_trans with s; [done|].
    rewrite <- (Qplus_0_r s) at 1. apply Qplus_le_r. by unfold Qle.
Qed.

Lemma bedAt_nonneg (t : string) (x : num) :
  Parser.bedAt t = Some x ->
  x = PosInf \/ exists k, x = ofZ k /\ 0 <= k.
Proof.
  unfold Parser.bedAt.
  pose proof (allChars_span isDigit t) as H1.
  destruct (span isDigit t) as [d r]. simpl in H1.
  destruct (isEmpty d); [discriminate|]. cbv zeta.
  destruct (stripPrefixCI "br" (snd (span isWhiteSpace r))),
    (stripPrefixCI "bed" (snd (span isWhiteSpace r))); try discriminate;
    intros [= <-]; by apply ofReal_whole, digitsValue_nonneg.
Qed.

Lemma bathAt_nonneg (t : string) (x : num) :
  Parser.bathAt t = Some x ->
  x = PosInf \/ exists r, x = Fin r /\ (0 <= r)%Q.
Proof.
  unfold Parser.bathAt.
  destruct (Parser.decimalGroup t) as [[[d1 d2] r]|] eqn:Hg; [|discriminate].
  destruct (decimalGroup_digits _ _ _ _ Hg) as [H1 H2].
  cbv zeta.
  destruct (stripPrefixCI "ba" (snd (span isWhiteSpace r))),
    (stripPrefixCI "bath" (snd (span isWhiteSpace r))); try discriminate;
    intros [= <-]; by apply parseFloat_nonneg.
Qed.

Lemma lessThan_zero_count (p : prim) :
  countOrNull p -> lessThan p (PNum (ofZ 0)) = false.
Proof.
  intros [->|[->|(z & -> & Hz)]]; [done|done|]. simpl.
  rewrite negb_false_iff, Qle_bool_iff. unfold Qle. simpl. lia.
Qed.

Lemma lessThan_zero_amount (p : prim) :
  amountOrNull p -> lessThan p (PNum (ofZ 0)) = false.
Proof.
  intros [->|[->|(q & -> & Hq)]]; [done|done|]. simpl.
  by rewrite negb_false_iff, Qle_bool_iff.
Qed.

(** X19.  The numbers of [parseBlock] are never negative: in its result,
    [beds], [asking] and [arv] are [null], [Infinity] or a whole number
    from 0 up and [baths] is [null], [Infinity] or a number from 0 up, so
    none of them is below the lower bound of [validatePropertyData].
    [Infinity] stands where the digits run past the range of doubles, as
    for a number of beds written with 310 nines. *)
Theorem parseBlock_numbers_not_negative (block : string) :
  (exists beds baths asking arv,
    parseBlock block !! "beds" = Some beds
    /\ parseBlock block !! "baths" = Some baths
    /\ parseBlock block !! "asking" = Some asking
    /\ parseBlock block !! "arv" = Some arv
    /\ countOrNull beds /\ amountOrNull baths
    /\ countOrNull asking /\ countOrNull arv
    /\ lessThan beds (PNum (ofZ 0)) = false
    /\ lessThan baths (PNum (ofZ 0)) = false
    /\ lessThan asking (PNum (ofZ 0)) = false
    /\ lessThan arv (PNum (ofZ 0)) = false)
  /\ parseBlock (String.append (nines 310) " bed") !! "beds"
     = Some (PNum PosInf)
  /\ parseBlock (String.append (nines 15) " bed") !! "beds"
     = Some (PNum (ofZ 999999999999999))
  /\ parseBlock (String.append (nines 17) " bed") !! "beds"
     = Some (PNum (ofZ 100000000000000000)).
Proof.
  split; [|repeat split; vm_compute; reflexivity].
  destruct (parseBlock_fields block)
    as (_ & _ & _ & _ & Hb & Hbt & Hask & _ & _ & Harv & _).
  assert (Hinv : countOrNull (Parser.beds (Parser.run block))
                 /\ amountOrNull (Parser.baths (Parser.run block))
                 /\ countOrNull (Parser.asking (Parser.run block))
                 /\ countOrNull (Parser.arv (Parser.run block))).
  { apply (run_invariant
             (fun st => countOrNull (Parser.beds st)
                        /\ amountOrNull (Parser.baths st)
                        /\ countOrNull (Parser.asking st)
                        /\ countOrNull (Parser.arv st))).
    - repeat split; by left.
    - intros st line (I1 & I2 & I3 & I4). apply parseLine_invariant.
      + unfold Parser.addressRule. intros st'.
        destruct (isEmpty (Parser.address st)); [|discriminate].
        destruct (Parser.fullAddress line) as [[[a c] z]|].
        * by intros [= <-].
        * destruct (Parser.looseAddress line) as [[a c]|]; [|discriminate].
          destruct (negb _); [|discriminate]. by intros [= <-].
      + unfold Parser.countyRule. intros st'.
        destruct (includes _ _); [|discriminate]. by intros [= <-].
      + unfold Parser.bedsBathsRule. intros st'.
        assert (Hbeds : forall n, findFirst Parser.bedAt line = Some n ->
                                  countOrNull (PNum n)).
        { intros n [t Ht]%findFirst_some.
          destruct (bedAt_nonneg _ _ Ht) as [->|(k & -> & Hk)];
            [right; by left|right; right; by exists k]. }
        assert (Hbaths : forall q, findFirst Parser.bathAt line = Some q ->
                                   amountOrNull (PNum q)).
        { intros q [t Ht]%findFirst_some.
          destruct (bathAt_nonneg _ _ Ht) as [->|(r & -> & Hr)];
            [right; by left|right; right; by exists r]. }
        destruct (findFirst Parser.bedAt line) as [n|] eqn:Hn;
          destruct (findFirst Parser.bathAt line) as [q|] eqn:Hq;
          simpl; try discriminate; intros [= <-]; simpl;
          repeat split; try done; auto.
      + unfold Parser.arvRule. intros st'.
        destruct (_ || _); [|discriminate].
        destruct (Parser.kNumber line) as [q|] eqn:Hq; [|discriminate].
        intros [= <-]. simpl. repeat split; try done.
        by apply kAmount_count, (kNumber_nonneg line).
      + unfold Parser.askingRule. intros st'.
        destruct (_ || _); [|discriminate].
        destruct (Parser.kNumber line) as [q|] eqn:Hq; [|discriminate].
        intros [= <-]. simpl. repeat split; try done.
        by apply kAmount_count, (kNumber_nonneg line).
      + unfold Parser.accessRule. intros st'.
        destruct (_ || _); [|discriminate]. by intros [= <-].
      + unfold Parser.picturesRule. intros st'.
        destruct (_ || _); [|discriminate].
        destruct (findFirst Parser.urlAt line); [|discriminate].
        by intros [= <-].
      + unfold Parser.notesRule. by destruct (_ <? _)%nat. }
  destruct Hinv as (I1 & I2 & I3 & I4).
  eexists _, _, _, _. do 4 (split; [eassumption|]).
  do 4 (split; [assumption|]).
  split; [by apply lessThan_zero_count|].
  split; [by apply lessThan_zero_amount|].
  split; by apply lessThan_zero_count.
Qed.

Lemma length5_inv (s : string) :
  String.length s = 5%nat ->
  exists a b c d e,
    s = String a (String b (String c (String d (String e "")))).
Proof.
  destruct s as [|a [|b [|c [|d [|e [|f r]]]]]]; simpl; try discriminate.
  intros _. by exists a, b, c, d, e.
Qed.

Lemma zipPattern_five (s : string) :
  String.length s = 5%nat -> allChars isDigit s = true ->
  zipPattern s = true.
Proof.
  intros Hlen Hd. destruct (length5_inv s Hlen) as (a & b & c & d & e & ->).
  unfold zipPattern. cbn [String.length String.substring Nat.sub].
  rewrite Hd. reflexivity.
Qed.

Lemma addressRule_zip (st st' : Parser.Locals) (line : string) :
  fiveDigitsOrEmpty (Parser.zip st) = true ->
  Parser.addressRule st line = Some st' ->
  fiveDigitsOrEmpty (Parser.zip st') = true.
Proof.
  intros Hz. unfold Parser.addressRule.
  destruct (isEmpty (Parser.address st)); [|discriminate].
  destruct (Parser.fullAddress line) as [[[a c] z]|] eqn:Hfull.
  - intros [= <-]. simpl. unfold Parser.fullAddress in Hfull.
    destruct (Parser.streetGroup line) as [[street r1]|]; [|discriminate].
    destruct (span Parser.notComma r1) as [[|c0 seg] [|c1 r2]]; try discriminate.
    destruct (stripPrefixCI "pa" _) as [r3|]; [|discriminate].
    cbv zeta in Hfull. injection Hfull as _ _ <-.
    unfold fiveDigitsOrEmpty.
    destruct ((String.length _ =? 5)%nat && allChars isDigit _) eqn:E;
      [|done].
    rewrite E. apply orb_true_r.
  - destruct (Parser.looseAddress line) as [[a c]|]; [|discriminate].
    destruct (negb _); [|discriminate]. by intros [= <-].
Qed.

(** X20.  The ZIP code of [parseBlock] is the empty string or five digits,
    so it never draws the ZIP message of [validatePropertyData], whatever
    the host. *)
Theorem parseBlock_zip_passes_validation (block : string) (P : Platform) :
  exists z,
    parseBlock block !! "zip" = Some (PStr z)
    /\ fiveDigitsOrEmpty z = true
    /\ badZip P (PStr z) = false.
Proof.
  destruct (parseBlock_fields block) as (_ & _ & Hz & _).
  exists (Parser.zip (Parser.run block)). split; [exact Hz|].
  assert (Hinv : fiveDigitsOrEmpty (Parser.zip (Parser.run block)) = true).
  { apply (run_invariant
             (fun st => fiveDigitsOrEmpty (Parser.zip st) = true)); [done|].
    intros st line Hst. apply parseLine_invariant.
    - intros st'. by apply addressRule_zip.
    - unfold Parser.countyRule. intros st'.
      destruct (includes _ _); [|discriminate]. by intros [= <-].
    - unfold Parser.bedsBathsRule. intros st'.
      destruct (_ || _); [|discriminate]. by intros [= <-].
    - unfold Parser.arvRule. intros st'.
      destruct (_ || _); [|discriminate].
      destruct (Parser.kNumber line); [|discriminate]. by intros [= <-].
    - unfold Parser.askingRule. intros st'.
      destruct (_ || _); [|discriminate].
      destruct (Parser.kNumber line); [|discriminate]. by intros [= <-].
    - unfold Parser.accessRule. intros st'.
      destruct (_ || _); [|discriminate]. by intros [= <-].
    - unfold Parser.picturesRule. intros st'.
      destruct (_ || _); [|discriminate].
      destruct (findFirst Parser.urlAt line); [|discriminate].
      by intros [= <-].
    - unfold Parser.notesRule. by destruct (_ <? _)%nat. }
  split; [exact Hinv|].
  unfold badZip. cbn [toString truthy].
  unfold fiveDigitsOrEmpty in Hinv.
  destruct (isEmpty (Parser.zip (Parser.run block))) eqn:He; [done|].
  simpl in Hinv. apply andb_true_iff in Hinv as [Hlen Hd].
  apply Nat.eqb_eq in Hlen. by rewrite (zipPattern_five _ Hlen Hd).
Qed.

Lemma trimEnd_keeps_head (c : ascii) (s : string) :
  isWhiteSpace c = false -> trim (String c s) = String c (trimEnd s).
Proof.
  intros Hc. unfold trim. simpl. rewrite Hc. simpl. rewrite Hc.
  by rewrite andb_false_r.
Qed.

Lemma isDigit_not_space (c : ascii) : isDigit c = true -> isWhiteSpace c = false.
Proof.
  unfold isDigit, isWhiteSpace.
  intros [H1 H2]%andb_true_iff. apply N.leb_le in H1, H2.
  apply orb_false_iff. split.
  - apply andb_false_iff. right. apply N.leb_gt. lia.
  - apply N.eqb_neq. lia.
Qed.

Lemma streetGroup_trim (line street rest : string) :
  Parser.streetGroup line = Some (street, rest) -> trim street <> "".
Proof.
  unfold Parser.streetGroup.
  destruct (span Parser.notComma line) as [[|c [|c' g]] [|c1 r]];
    try discriminate.
  destruct (isDigit c) eqn:Hc; [|discriminate]. intros [= <- _].
  by rewrite (trimEnd_keeps_head c _ (isDigit_not_space c Hc)).
Qed.

Lemma addressRule_sets (st st' : Parser.Locals) (line : string) :
  Parser.addressRule st line = Some st' -> Parser.address st' <> "".
Proof.
  unfold Parser.addressRule.
  destruct (isEmpty (Parser.address st)); [|discriminate].
  destruct (Parser.fullAddress line) as [[[a c] z]|] eqn:Hfull.
  - intros [= <-]. simpl. unfold Parser.fullAddress in Hfull.
    destruct (Parser.streetGroup line) as [[street r1]|] eqn:Hs;
      [|discriminate].
    destruct (span Parser.notComma r1) as [[|c0 seg] [|c1 r2]]; try discriminate.
    destruct (stripPrefixCI "pa" _) as [r3|]; [|discriminate].
    cbv zeta in Hfull. injection Hfull as <- _ _.
    by apply (streetGroup_trim line street r1).
  - destruct (Parser.looseAddress line) as [[a c]|] eqn:Hloose; [|discriminate].
    destruct (negb _); [|discriminate]. intros [= <-]. simpl.
    unfold Parser.looseAddress in Hloose.
    destruct (Parser.streetGroup line) as [[street rest]|] eqn:Hs;
      [|discriminate].
    destruct (negb (isEmpty rest) && _); [|discriminate].
    injection Hloose as <- _. by apply (streetGroup_trim line street rest).
Qed.

Lemma parseLine_keeps_address (st : Parser.Locals) (line : string) :
  Parser.address st <> "" ->
  Parser.address (Parser.parseLine st line) = Parser.address st
  /\ Parser.city (Parser.parseLine st line) = Parser.city st
  /\ Parser.zip (Parser.parseLine st line) = Parser.zip st.
Proof.
  intros Hset. apply parseLine_invariant.
  - unfold Parser.addressRule. intros st'.
    destruct (Parser.address st); [done|discriminate].
  - unfold Parser.countyRule. intros st'.
    destruct (includes _ _); [|discriminate]. by intros [= <-].
  - unfold Parser.bedsBathsRule. intros st'.
    destruct (_ || _); [|discriminate]. by intros [= <-].
  - unfold Parser.arvRule. intros st'.
    destruct (_ || _); [|discriminate].
    destruct (Parser.kNumber line); [|discriminate]. by intros [= <-].
  - unfold Parser.askingRule. intros st'.
    destruct (_ || _); [|discriminate].
    destruct (Parser.kNumber line); [|discriminate]. by intros [= <-].
  - unfold Parser.accessRule. intros st'.
    destruct (_ || _); [|discriminate]. by intros [= <-].
  - unfold Parser.picturesRule. intros st'.
    destruct (_ || _); [|discriminate].
    destruct (findFirst Parser.urlAt line); [|discriminate].
    by intros [= <-].
  - unfold Parser.notesRule. by destruct (_ <? _)%nat.
Qed.

(** X21.  The first address line wins.  A line that the address rule
    takes sets an address that is not empty, and no line after it changes
    the address, the city or the ZIP code, whatever it holds. *)
Theorem parseBlock_first_address_wins
    (st st1 : Parser.Locals) (line : string) (rest : list string) :
  Parser.addressRule st line = Some st1 ->
  let final := fold_left Parser.parseLine rest (Parser.parseLine st line) in
  Parser.parseLine st line = st1
  /\ Parser.address st1 <> ""
  /\ Parser.address final = Parser.address st1
  /\ Parser.city final = Parser.city st1
  /\ Parser.zip final = Parser.zip st1.
Proof.
  intros Hrule final.
  assert (Hline : Parser.parseLine st line = st1).
  { unfold Parser.parseLine. cbn [Parser.firstOf]. by rewrite Hrule. }
  pose proof (addressRule_sets _ _ _ Hrule) as Hset.
  split; [exact Hline|]. split; [exact Hset|].
  unfold final. rewrite Hline. clear Hline final Hrule.
  revert st1 Hset. induction rest as [|l rest IH]; intros st1 Hset; simpl;
    [done|].
  destruct (parseLine_keeps_address st1 l Hset) as (Ha & Hc & Hz).
  destruct (IH (Parser.parseLine st1 l)) as (Ha' & Hc' & Hz');
    [by rewrite Ha|].
  by rewrite Ha', Hc', Hz', Ha, Hc, Hz.
Qed.

Lemma parseBlock_first_address_wins_witness :
  Parser.addressRule Parser.initial "123 Main St, Chester, PA 19013"
  = Some (Parser.parseLine Parser.initial "123 Main St, Chester, PA 19013")
  /\ let final :=
       fold_left Parser.parseLine ["9 Oak Ave, Darby, PA 19023"; "3 bed"]
         (Parser.parseLine Parser.initial "123 Main St, Chester, PA 19013") in
     Parser.parseLine Parser.initial "123 Main St, Chester, PA 19013"
     = Parser.parseLine Parser.initial "123 Main St, Chester, PA 19013"
     /\ Parser.address
          (Parser.parseLine Parser.initial "123 Main St, Chester, PA 19013")
        <> ""
     /\ Parser.address final
        = Parser.address
            (Parser.parseLine Parser.initial "123 Main St, Chester, PA 19013")
     /\ Parser.city final
        = Parser.city
            (Parser.parseLine Parser.initial "123 Main St, Chester, PA 19013")
     /\ Parser.zip final
        = Parser.zip
            (Parser.parseLine Parser.initial "123 Main St, Chester, PA 19013").
Proof.
  assert (H : Parser.addressRule Parser.initial "123 Main St, Chester, PA 19013"
              = Some (Parser.parseLine Parser.initial
                        "123 Main St, Chester, PA 19013"))
    by (vm_compute; reflexivity).
  split; [exact H|].
  exact (parseBlock_first_address_wins _ _ _
           ["9 Oak Ave, Darby, PA 19023"; "3 bed"] H).
Defined.

(** *** Lines and notes *)

Lemma parseLine_notes (st : Parser.Locals) (line : string) :
  Parser.notes (Parser.parseLine st line) = Parser.notes st
  \/ (Parser.notes (Parser.parseLine st line) = Parser.notes st ++ [line]
      /\ (3 < String.length line)%nat).
Proof.
  apply parseLine_invariant.
  - unfold Parser.addressRule. intros st'.
    destruct (isEmpty (Parser.address st)); [|discriminate].
    destruct (Parser.fullAddress line) as [[[a c] z]|].
    + intros [= <-]. by left.
    + destruct (Parser.looseAddress line) as [[a c]|]; [|discriminate].
      destruct (negb _); [|discriminate]. intros [= <-]. by left.
  - unfold Parser.countyRule. intros st'.
    destruct (includes _ _); [|discriminate]. intros [= <-]. by left.
  - unfold Parser.bedsBathsRule. intros st'.
    destruct (_ || _); [|discriminate]. intros [= <-]. by left.
  - unfold Parser.arvRule. intros st'.
    destruct (_ || _); [|discriminate].
    destruct (Parser.kNumber line); [|discriminate]. intros [= <-]. by left.
  - unfold Parser.askingRule. intros st'.
    destruct (_ || _); [|discriminate].
    destruct (Parser.kNumber line); [|discriminate]. intros [= <-]. by left.
  - unfold Parser.accessRule. intros st'.
    destruct (_ || _); [|discriminate]. intros [= <-]. by left.
  - unfold Parser.picturesRule. intros st'.
    destruct (_ || _); [|discriminate].
    destruct (findFirst Parser.urlAt line); [|discriminate].
    intros [= <-]. by left.
  - unfold Parser.notesRule.
    destruct (3 <? String.length line)%nat eqn:E; [|by left].
    right. split; [done|]. by apply Nat.ltb_lt.
Qed.

Lemma fold_parseLine_notes (ls : list string) :
  forall st, exists added,
    Parser.notes (fold_left Parser.parseLine ls st) = Parser.notes st ++ added
    /\ sublist added ls
    /\ Forall (fun l => (3 < String.length l)%nat) added.
Proof.
  induction ls as [|l ls IH]; intros st; simpl.
  - exists []. by rewrite app_nil_r.
  - destruct (IH (Parser.parseLine st l)) as (added & Hn & Hsub & Hlong).
    destruct (parseLine_notes st l) as [Hl|[Hl Hlen]]; rewrite Hl in Hn.
    + exists added. split; [done|]. split; [by apply sublist_cons|done].
    + exists (l :: added). rewrite <- app_assoc in Hn.
      split; [done|]. split; [by apply sublist_skip|by constructor].
Qed.

Lemma split_clean (sep : ascii) (w : string) :
  count (fun c => eqChar c sep) w = 0%nat -> split sep w = [w].
Proof.
  induction w as [|c r IH]; simpl; [done|].
  destruct (eqChar c sep); simpl; [done|]. intros Hr. by rewrite (IH Hr).
Qed.

Lemma split_append (sep : ascii) (w rest : string) :
  count (fun c => eqChar c sep) w = 0%nat ->
  split sep (String.append w (String sep rest)) = w :: split sep rest.
Proof.
  induction w as [|c r IH]; simpl.
  - intros _. unfold eqChar. by rewrite N.eqb_refl.
  - destruct (eqChar c sep); simpl; [done|]. intros Hr. by rewrite (IH Hr).
Qed.

Lemma split_joinLines (ls : list string) :
  ls <> [] ->
  Forall (fun w => count isNewline w = 0%nat) ls ->
  split Parser.newline (Parser.joinLines ls) = ls.
Proof.
  intros Hne Hall. unfold Parser.joinLines.
  induction Hall as [|w ls Hw Hls IH]; [done|].
  destruct ls as [|w' ls]; simpl.
  - by apply split_clean.
  - change (split Parser.newline
              (String.append w
                 (String Parser.newline
                    (String.concat (String Parser.newline "") (w' :: ls))))
            = w :: w' :: ls).
    rewrite (split_append Parser.newline w _ Hw). f_equal. by apply IH.
Qed.

Lemma split_no_separator (sep : ascii) (s : string) :
  Forall (fun w => count (fun c => eqChar c sep) w = 0%nat) (split sep s).
Proof.
  induction s as [|c r IH]; simpl; [by repeat constructor|].
  destruct (eqChar c sep) eqn:E; [by constructor|].
  destruct (split sep r) as [|w ws]; simpl.
  - repeat constructor. simpl. by rewrite E.
  - apply List.Forall_cons_iff in IH as [Hw Hws].
    constructor; [|done]. simpl. by rewrite E.
Qed.

Lemma blockLines_clean (block : string) :
  Forall (fun w => count isNewline w = 0%nat /\ trim w = w /\ isEmpty w = false)
    (Parser.blockLines block).
Proof.
  unfold Parser.blockLines. apply List.Forall_forall.
  intros w [Hin Hne]%filter_In. apply in_map_iff in Hin as (u & <- & Hu).
  pose proof (split_no_separator Parser.newline block) as Hsep.
  rewrite List.Forall_forall in Hsep. specialize (Hsep u Hu).
  split; [|split].
  - pose proof (count_trim isNewline u). unfold isNewline in *. lia.
  - apply trim_idem.
  - by apply negb_true_iff.
Qed.

(** X22.  The notes of [parseBlock] are lines of the block: the note lines
    are among the trimmed, non-empty lines of the block and in their order,
    each is longer than three characters, the [notes] field joins them with
    line feeds, and, when there is a note, splitting that field at the line
    feeds gives the note lines back. *)
Theorem parseBlock_notes_are_block_lines (block : string) :
  let noteLines := Parser.notes (Parser.run block) in
  sublist noteLines (Parser.blockLines block)
  /\ Forall (fun l => (3 < String.length l)%nat) noteLines
  /\ parseBlock block !! "notes" = Some (PStr (Parser.joinLines noteLines))
  /\ (noteLines <> [] ->
      split Parser.newline (Parser.joinLines noteLines) = noteLines).
Proof.
  intros noteLines.
  destruct (fold_parseLine_notes (Parser.blockLines block) Parser.initial)
    as (added & Hn & Hsub & Hlong).
  change (Parser.notes Parser.initial ++ added) with added in Hn.
  fold (Parser.run block) in Hn. fold noteLines in Hn. rewrite Hn.
  split; [exact Hsub|]. split; [exact Hlong|]. split.
  - rewrite <- Hn. apply parseBlock_fields.
  - intros Hne. apply split_joinLines; [done|].
    pose proof (blockLines_clean block) as Hclean.
    apply List.Forall_forall. intros w Hw.
    rewrite List.Forall_forall in Hclean.
    apply list_elem_of_In in Hw. apply (fun H => elem_of_sublist _ _ _ H Hsub) in Hw.
    apply list_elem_of_In in Hw. by destruct (Hclean w Hw).
Qed.

Lemma blockLines_joinLines (ls : list string) :
  Forall (fun w => count isNewline w = 0%nat /\ trim w = w /\ isEmpty w = false)
    ls ->
  Parser.blockLines (Parser.joinLines ls) = ls.
Proof.
  intros Hall. unfold Parser.blockLines.
  destruct ls as [|w ls]; [done|].
  rewrite split_joinLines; [|done|].
  - induction Hall as [|u t (Hu1 & Hu2 & Hu3) _ IH]; [done|].
    simpl. rewrite Hu2, Hu3. simpl. by rewrite IH.
  - eapply List.Forall_impl; [|exact Hall]. by intros u (Hu & _).
Qed.

(** X23.  [parseBlock] reads a block through its trimmed, non-empty lines
    only: the lines of the block joined by single line feeds parse to the
    same result as the block itself, so blank lines and white space around
    a line never matter. *)
Theorem parseBlock_of_cleaned_block (block : string) :
  Parser.blockLines (Parser.joinLines (Parser.blockLines block))
  = Parser.blockLines block
  /\ parseBlock (Parser.joinLines (Parser.blockLines block))
     = parseBlock block.
Proof.
  assert (H : Parser.blockLines (Parser.joinLines (Parser.blockLines block))
              = Parser.blockLines block)
    by apply blockLines_joinLines, blockLines_clean.
  split; [exact H|]. unfold parseBlock, Parser.run. by rewrite H.
Qed.

(** ** [computeCountyCounts] and [computeTypeCounts] *)

Lemma own_assign (key k : string) (c : prim) (table : list (string * prim)) :
  own k (assign key c table)
  = if String.eqb key k then Some c else own k table.
Proof.
  induction table as [|[k0 c0] rest IH]; cbn [assign own].
  - by destruct (String.eqb key k).
  - destruct (String.eqb_spec k0 key) as [->|Hne]; cbn [own].
    + by destruct (String.eqb key k).
    + destruct (String.eqb_spec k0 k) as [->|Hk]; [|exact IH].
      destruct (String.eqb_spec key k) as [->|]; [done|reflexivity].
Qed.

Lemma assign_keys (key : string) (c : prim) (table : list (string * prim)) :
  NoDup (List.map fst table) -> NoDup (List.map fst (assign key c table)).
Proof.
  induction table as [|[k0 c0] rest IH]; cbn [assign List.map fst]; intros Hnd.
  - apply NoDup_singleton.
  - apply NoDup_cons in Hnd as [Hk0 Hrest].
    destruct (String.eqb_spec k0 key) as [->|Hne]; cbn [List.map fst].
    + by apply NoDup_cons.
    + apply NoDup_cons. split; [|by apply IH].
      intros Hin. apply Hk0. clear IH Hk0 Hrest.
      induction rest as [|[k1 c1] rest IH]; cbn [assign List.map fst] in *.
      * apply list_elem_of_singleton in Hin. congruence.
      * destruct (String.eqb k1 key); cbn [List.map fst] in *; [done|].
        apply elem_of_cons in Hin as [->|Hin]; [by left|].
        right. by apply IH.
Qed.

Lemma own_In (table : list (string * prim)) (k : string) (c : prim) :
  NoDup (List.map fst table) -> (In (k, c) table <-> own k table = Some c).
Proof.
  induction table as [|[k0 c0] rest IH]; cbn [own List.map fst In]; intros Hnd.
  - split; [done|discriminate].
  - apply NoDup_cons in Hnd as [Hk0 Hrest].
    destruct (String.eqb_spec k0 k) as [->|Hne].
    + split.
      * intros [[= ->]|Hin]; [done|].
        destruct Hk0. apply list_elem_of_In.
        apply in_map_iff. by exists (k, c).
      * intros [= ->]. by left.
    + rewrite <- (IH Hrest). split; [|by right].
      intros [[= ? ?]|Hin]; [done|done].
Qed.

Lemma ones_not_empty (s : string) (n : nat) :
  isEmpty (String.append s (ones (S n))) = false.
Proof.
  cbn [ones]. destruct s as [|a s]; [|reflexivity].
  cbn [String.append]. by destruct (ones n).
Qed.

Lemma append_assoc (a b c : string) :
  String.append (String.append a b) c = String.append a (String.append b c).
Proof.
  induction a as [|x a IH]; [reflexivity|].
  change (String x (String.append (String.append a b) c)
          = String x (String.append a (String.append b c))).
  by rewrite IH.
Qed.

Lemma truthy_count (n : Z) : 0 < n -> truthy (PNum (ofZ n)) = true.
Proof.
  intros Hn. cbn [truthy isNaN ofZ eqb orb]. apply negb_true_iff.
  destruct (Qeq_bool (inject_Z n) (inject_Z 0)) eqn:E; [|done].
  apply Qeq_bool_iff in E. unfold Qeq in E. simpl in E. lia.
Qed.

Lemma add_ofZ (a b : Z) : add (ofZ a) (ofZ b) = ofZ (a + b).
Proof.
  unfold add, ofZ. f_equal. rewrite <- inject_Z_plus. apply Qred_inject_Z.
Qed.

Lemma sub_ofZ (a b : Z) : sub (ofZ a) (ofZ b) = ofZ (a - b).
Proof.
  unfold sub, ofZ. f_equal. rewrite <- (Qred_inject_Z (a - b)).
  apply Qred_complete. unfold Qeq. simpl. lia.
Qed.

Lemma lt_ofZ (a b : Z) : lt (ofZ a) (ofZ b) = (a <? b).
Proof.
  unfold lt, ofZ.
  destruct (Qle_bool (inject_Z b) (inject_Z a)) eqn:E.
  - apply Qle_bool_iff in E. unfold Qle in E. simpl in E.
    symmetry. apply Z.ltb_ge. lia.
  - symmetry. apply Z.ltb_lt.
    destruct (Z.lt_ge_cases a b) as [|Hge]; [done|].
    assert (Qle_bool (inject_Z b) (inject_Z a) = true); [|congruence].
    apply Qle_bool_iff. unfold Qle. simpl. lia.
Qed.

Lemma countOf_ofZ (n : Z) : countOf (PNum (ofZ n)) = n.
Proof. unfold countOf, ofZ. apply Qfloor_Z. Qed.

(** One turn of the loop keeps the table in step with the number of
    records seen under each key. *)
Lemma store_expected (B : Builtins) (key : string)
    (table : list (string * prim)) (seen : string -> Z) :
  (forall k, 0 <= seen k) ->
  (forall k, own k table = expected B k (seen k)) ->
  forall k,
    own k (store key (incremented B key table) table)
    = expected B k (seen k + (if String.eqb key k then 1 else 0)).
Proof.
  intros Hseen Hown k. unfold store.
  destruct (String.eqb_spec key protoName) as [->|Hproto].
  { rewrite Hown. unfold expected.
    destruct (String.eqb_spec protoName k) as [<-|Hk].
    - rewrite String.eqb_refl. by rewrite !orb_true_r.
    - by rewrite Z.add_0_r. }
  rewrite own_assign.
  destruct (String.eqb_spec key k) as [<-|Hk]; [|by rewrite Hown, Z.add_0_r].
  unfold incremented. rewrite Hown. unfold expected.
  apply String.eqb_neq in Hproto. rewrite Hproto, !orb_false_r.
  specialize (Hseen key).
  destruct (seen key <=? 0) eqn:E0.
  - apply Z.leb_le in E0. assert (seen key = 0) as -> by lia.
    cbn [Z.add Z.leb Z.compare]. unfold counterAfter.
    by destruct (isInheritedFunction key).
  - apply Z.leb_gt in E0.
    assert ((seen key + 1 <=? 0) = false) as -> by (apply Z.leb_gt; lia).
    f_equal. unfold counterAfter.
    assert (Hn : Z.to_nat (seen key + 1) = S (Z.to_nat (seen key))) by lia.
    assert (Hm : exists m, Z.to_nat (seen key) = S m).
    { exists (Z.to_nat (seen key) - 1)%nat. lia. }
    destruct (isInheritedFunction key).
    + rewrite Hn. destruct Hm as [m ->]. unfold orElse.
      cbn [truthy]. rewrite ones_not_empty. cbn [negb plusOne].
      by rewrite append_assoc.
    + unfold orElse. rewrite (truthy_count _ E0). cbn [plusOne toNumber].
      by rewrite add_ofZ.
Qed.

Lemma store_keys (B : Builtins) (key : string) (c : prim)
    (table : list (string * prim)) :
  NoDup (List.map fst table) -> NoDup (List.map fst (store key c table)).
Proof.
  unfold store. destruct (String.eqb key protoName); [done|].
  apply assign_keys.
Qed.

Lemma occurrences_cons (P : Platform) (h : heap) (field k : string)
    (p : val) (rest : list val) :
  occurrences P h field k (p :: rest)
  = (if truthy (fieldOf h p field)
        && String.eqb (toString P (fieldOf h p field)) k
     then 1 else 0)
    + occurrences P h field k rest.
Proof.
  unfold occurrences.
  exact (filter_length_cons
           (fun p0 => truthy (fieldOf h p0 field)
                      && String.eqb (toString P (fieldOf h p0 field)) k)
           p rest).
Qed.

Lemma occurrences_nonneg (P : Platform) (h : heap) (field k : string)
    (elems : list val) : 0 <= occurrences P h field k elems.
Proof. unfold occurrences. lia. Qed.

Lemma tally_expected (B : Builtins) (P : Platform) (h : heap)
    (field : string) (elems : list val) :
  Forall (fun p => isNullVal p = false) elems ->
  forall table seen,
    NoDup (List.map fst table) ->
    (forall k, 0 <= seen k) ->
    (forall k, own k table = expected B k (seen k)) ->
    exists table',
      tally B P h field elems table = Normal table'
      /\ NoDup (List.map fst table')
      /\ forall k, own k table'
                   = expected B k (seen k + occurrences P h field k elems).
Proof.
  induction 1 as [|p rest Hp _ IH]; intros table seen Hnd Hseen Hown;
    cbn [tally].
  - exists table. split; [done|]. split; [done|].
    intros k. unfold occurrences. cbn [List.filter length Z.of_nat].
    by rewrite Z.add_0_r.
  - rewrite (getProp_nonnull h p field Hp).
    destruct (truthy (fieldOf h p field)) eqn:Hv.
    + destruct (IH (store (toString P (fieldOf h p field))
                      (incremented B (toString P (fieldOf h p field)) table)
                      table)
                   (fun k => seen k
                             + (if String.eqb (toString P (fieldOf h p field)) k
                                then 1 else 0)))
        as (table' & Hrun & Hnd' & Hown').
      * by apply store_keys.
      * intros k. specialize (Hseen k). destruct (String.eqb _ k); lia.
      * by apply store_expected.
      * exists table'. split; [exact Hrun|]. split; [exact Hnd'|].
        intros k. rewrite Hown', occurrences_cons, Hv. cbn [andb].
        f_equal. lia.
    + destruct (IH table seen Hnd Hseen Hown) as (table' & Hrun & Hnd' & Hown').
      exists table'. split; [exact Hrun|]. split; [exact Hnd'|].
      intros k. rewrite Hown', occurrences_cons, Hv. cbn [andb].
      f_equal.
Qed.

Lemma expected_some (B : Builtins) (k : string) (n : Z) (c : prim) :
  expected B k n = Some c
  <-> 0 < n /\ k <> protoName /\ c = counterAfter B k n.
Proof.
  unfold expected. destruct (n <=? 0) eqn:E; cbn [orb].
  - apply Z.leb_le in E. split; [discriminate|]. intros [? _]. lia.
  - apply Z.leb_gt in E.
    destruct (String.eqb_spec k protoName) as [->|Hne].
    + split; [discriminate|]. intros (_ & ? & _). done.
    + split; [by intros [= <-]|]. by intros (_ & _ & ->).
Qed.

Lemma insertIndex_Permutation (e : string * prim) (l : list (string * prim)) :
  Permutation (insertIndex e l) (e :: l).
Proof.
  induction l as [|y l IH]; simpl; [done|].
  destruct (_ <? _); [done|]. rewrite IH. apply perm_swap.
Qed.

Lemma entries_Permutation (table : list (string * prim)) :
  Permutation (entries table) table.
Proof.
  unfold entries.
  induction table as [|x l IH]; simpl; [done|].
  destruct (isArrayIndex (fst x)); simpl.
  - etransitivity; [apply Permutation_app_tail, insertIndex_Permutation|].
    simpl. apply perm_skip, IH.
  - etransitivity; [symmetry; apply Permutation_middle|].
    apply perm_skip, IH.
Qed.

Lemma insertByCount_Permutation (x : string * prim)
    (l : list (string * prim)) :
  Permutation (insertByCount x l) (x :: l).
Proof.
  induction l as [|y l IH]; simpl; [done|].
  destruct (lt _ _); [|done]. rewrite IH. apply perm_swap.
Qed.

Lemma insertionSort_Permutation (l : list (string * prim)) :
  Permutation (insertionSort l) l.
Proof.
  unfold insertionSort. rewrite <- Permutation_rev.
  assert (H : forall placed,
             Permutation
               (fold_left (fun placed x => insertByCount x placed) l placed)
               (l ++ placed)).
  { induction l as [|x l IH]; intros placed; simpl; [done|].
    rewrite IH, insertByCount_Permutation. by rewrite Permutation_middle. }
  rewrite H. by rewrite app_nil_r.
Qed.

Lemma sortByCount_Permutation (B : Builtins) (l : list (string * prim)) :
  Permutation (sortByCount B l) l.
Proof.
  unfold sortByCount. destruct (consistent l).
  - apply insertionSort_Permutation.
  - apply unorderedSort_permutes.
Qed.

(** The pairs of a table that the loop has filled, in any order. *)
Lemma counts_of_table (B : Builtins) (P : Platform) (h : heap)
    (field : string) (elems : list val) (result : list (string * prim)) :
  Forall (fun p => isNullVal p = false) elems ->
  exists table,
    tally B P h field elems [] = Normal table
    /\ (Permutation result table ->
        NoDup (List.map fst result)
        /\ forall k c,
             In (k, c) result
             <-> 0 < occurrences P h field k elems /\ k <> protoName
                 /\ c = counterAfter B k (occurrences P h field k elems)).
Proof.
  intros Hnn.
  destruct (tally_expected B P h field elems Hnn [] (fun _ => 0))
    as (table & Hrun & Hnd & Hown).
  - constructor.
  - intros _. lia.
  - intros k. unfold expected. by destruct (String.eqb k protoName).
  - exists table. split; [exact Hrun|]. intros Hperm. split.
    + by rewrite Hperm.
    + intros k c. rewrite <- !list_elem_of_In, Hperm, !list_elem_of_In.
      rewrite (own_In table k c Hnd), Hown, Z.add_0_l.
      apply expected_some.
Qed.

(** *** Tables of numbers *)

Lemma incremented_skip (B : Builtins) (key k0 : string) (c0 : prim)
    (rest : list (string * prim)) :
  k0 <> key ->
  incremented B key ((k0, c0) :: rest) = incremented B key rest.
Proof.
  intros Hne. unfold incremented. cbn [own].
  apply String.eqb_neq in Hne. by rewrite Hne.
Qed.

Lemma assign_numbers (B : Builtins) (key : string)
    (table : list (string * prim)) :
  isInheritedFunction key = false -> key <> protoName ->
  Forall numberPair table ->
  Forall numberPair (assign key (incremented B key table) table)
  /\ sumCounts (assign key (incremented B key table) table)
     = sumCounts table + 1.
Proof.
  intros Hf Hp. induction 1 as [|[k0 c0] rest (n & Hc & Hn) Hrest IH].
  - unfold incremented. cbn [own assign].
    apply String.eqb_neq in Hp. rewrite Hp, Hf. split.
    + repeat constructor. by exists 1.
    + reflexivity.
  - cbn [snd] in Hc. subst c0. cbn [assign].
    destruct (String.eqb_spec k0 key) as [->|Hne].
    + unfold incremented. cbn [own]. rewrite String.eqb_refl.
      unfold orElse. rewrite (truthy_count n Hn). cbn [plusOne toNumber].
      rewrite add_ofZ. split.
      * constructor; [|done]. exists (n + 1). split; [done|lia].
      * unfold sumCounts. cbn [List.map fold_right snd].
        rewrite !countOf_ofZ. lia.
    + rewrite (incremented_skip B key k0 _ rest Hne).
      destruct IH as [IH1 IH2]. split.
      * constructor; [by exists n|done].
      * unfold sumCounts in *. cbn [List.map fold_right snd].
        rewrite IH2. lia.
Qed.

Lemma keyed_cons (h : heap) (field : string) (p : val) (rest : list val) :
  keyed h field (p :: rest)
  = (if truthy (fieldOf h p field) then 1 else 0) + keyed h field rest.
Proof.
  unfold keyed.
  exact (filter_length_cons (fun p0 => truthy (fieldOf h p0 field)) p rest).
Qed.

Lemma tally_numbers (B : Builtins) (P : Platform) (h : heap)
    (field : string) (elems : list val) :
  plainKeys P h field elems ->
  forall table table',
    Forall numberPair table ->
    tally B P h field elems table = Normal table' ->
    Forall numberPair table'
    /\ sumCounts table' = sumCounts table + keyed h field elems.
Proof.
  induction 1 as [|p rest Hp _ IH]; intros table table' Hnum; cbn [tally].
  - intros [= <-]. split; [done|]. unfold keyed. simpl. lia.
  - assert (Hf : forall v, getProp h p field = Normal v ->
                           fieldOf h p field = v).
    { intros v Hg. unfold fieldOf. by rewrite Hg. }
    rewrite keyed_cons.
    destruct (getProp h p field) as [v|e]; [|discriminate].
    rewrite (Hf v eq_refl) in *.
    destruct (truthy v) eqn:Hv.
    + destruct (Hp eq_refl) as [Hproto Hfun].
      destruct (assign_numbers B (toString P v) table Hfun Hproto Hnum)
        as [Hnum' Hsum'].
      unfold store. apply String.eqb_neq in Hproto. rewrite Hproto.
      intros Hrun. destruct (IH _ _ Hnum' Hrun) as [H1 H2].
      split; [done|]. rewrite H2, Hsum'. lia.
    + intros Hrun. destruct (IH _ _ Hnum Hrun) as [H1 H2].
      split; [done|]. rewrite H2. lia.
Qed.

Lemma sumCounts_Permutation (l l' : list (string * prim)) :
  Permutation l l' -> sumCounts l = sumCounts l'.
Proof.
  unfold sumCounts. induction 1; simpl; lia.
Qed.

Lemma numberPair_Permutation (l l' : list (string * prim)) :
  Permutation l l' -> Forall numberPair l' -> Forall numberPair l.
Proof. intros Hperm Hl. by rewrite Hperm. Qed.

(** *** The order of the numbers *)

Lemma byCount_numbers (x y : string * prim) :
  numberPair x -> numberPair y ->
  lt (byCount x y) (ofZ 0) = (countOf (snd y) - countOf (snd x) <? 0).
Proof.
  intros (m & Hx & _) (n & Hy & _). unfold byCount.
  rewrite Hx, Hy. cbn [toNumber]. by rewrite sub_ofZ, lt_ofZ, !countOf_ofZ.
Qed.

Lemma numbers_consistent (l : list (string * prim)) :
  Forall numberPair l -> consistent l = true.
Proof.
  intros Hl. unfold consistent. apply orb_true_iff. left.
  apply forallb_forall. intros e He.
  rewrite List.Forall_forall in Hl. destruct (Hl e He) as (n & Hn & _).
  unfold numbered. by rewrite Hn.
Qed.

Lemma insertByCount_sorted (x : string * prim)
    (placed : list (string * prim)) :
  numberPair x -> Forall numberPair placed ->
  StronglySorted (fun a b => countOf (snd a) <= countOf (snd b)) placed ->
  StronglySorted (fun a b => countOf (snd a) <= countOf (snd b))
    (insertByCount x placed).
Proof.
  intros Hx Hnum. induction 1 as [|y l Hs IH Hy]; simpl; [by repeat constructor|].
  apply List.Forall_cons_iff in Hnum as [Hny Hnl].
  rewrite (byCount_numbers x y Hx Hny).
  destruct (_ - _ <? 0) eqn:E.
  - apply Z.ltb_lt in E. constructor; [by apply IH|].
    rewrite (insertByCount_Permutation x l). constructor; [lia|done].
  - apply Z.ltb_ge in E. constructor; [by constructor|].
    constructor; [lia|].
    eapply List.Forall_impl; [|exact Hy]. simpl. intros a Ha. lia.
Qed.

Lemma insertionSort_sorted (l : list (string * prim)) :
  Forall numberPair l ->
  StronglySorted (fun a b => countOf (snd b) <= countOf (snd a))
    (insertionSort l).
Proof.
  intros Hl. unfold insertionSort.
  assert (H : forall placed,
             Forall numberPair placed ->
             StronglySorted (fun a b => countOf (snd a) <= countOf (snd b))
               placed ->
             StronglySorted (fun a b => countOf (snd a) <= countOf (snd b))
               (fold_left (fun placed x => insertByCount x placed) l placed)).
  { induction Hl as [|x l Hx Hl IH]; intros placed Hnum Hp; simpl; [done|].
    apply IH.
    - by rewrite (insertByCount_Permutation x placed); constructor.
    - by apply insertByCount_sorted. }
  specialize (H [] (List.Forall_nil _) (SSorted_nil _)).
  induction H as [|y t _ IH Hy]; simpl; [constructor|].
  clear -IH Hy. revert IH.
  generalize (rev t) (List.Forall_rev Hy). clear. intros r Hr.
  induction 1 as [|z r' _ IH Hz]; simpl.
  - repeat constructor.
  - apply List.Forall_cons_iff in Hr as [Hzy Hr].
    constructor; [by apply IH|].
    apply List.Forall_app. split; [done|]. by repeat constructor.
Qed.

Lemma insertByCount_stable (n : Z) (x : string * prim)
    (placed : list (string * prim)) :
  numberPair x -> Forall numberPair placed ->
  List.filter (fun e => countOf (snd e) =? n) (insertByCount x placed)
  = List.filter (fun e => countOf (snd e) =? n) (x :: placed).
Proof.
  intros Hx. induction 1 as [|y l Hy Hl IH]; simpl; [done|].
  rewrite (byCount_numbers x y Hx Hy).
  destruct (_ - _ <? 0) eqn:E; [|done]. simpl. rewrite IH. simpl.
  apply Z.ltb_lt in E.
  destruct (countOf (snd x) =? n) eqn:Ex, (countOf (snd y) =? n) eqn:Ey;
    try done. lia.
Qed.

Lemma insertionSort_stable (n : Z) (l : list (string * prim)) :
  Forall numberPair l ->
  List.filter (fun e => countOf (snd e) =? n) (insertionSort l)
  = List.filter (fun e => countOf (snd e) =? n) l.
Proof.
  intros Hl. unfold insertionSort.
  assert (H : forall placed,
             Forall numberPair placed ->
             List.filter (fun e => countOf (snd e) =? n)
               (fold_left (fun placed x => insertByCount x placed) l placed)
             = rev (List.filter (fun e => countOf (snd e) =? n) l)
               ++ List.filter (fun e => countOf (snd e) =? n) placed).
  { induction Hl as [|x l Hx Hl IH]; intros placed Hnum; simpl; [done|].
    rewrite IH, insertByCount_stable; [|done|done|].
    - simpl. destruct (countOf (snd x) =? n); simpl;
        [by rewrite <- app_assoc|done].
    - by rewrite (insertByCount_Permutation x placed); constructor. }
  assert (Hrev : forall t : list (string * prim),
             List.filter (fun e => countOf (snd e) =? n) (rev t)
             = rev (List.filter (fun e => countOf (snd e) =? n) t)).
  { induction t as [|z t IHt]; simpl; [done|].
    rewrite List.filter_app, IHt. simpl.
    destruct (countOf (snd z) =? n); simpl; [done|].
    by rewrite app_nil_r. }
  by rewrite Hrev, H, app_nil_r, rev_involutive.
Qed.

(** X24.  On an array of records [computeCountyCounts] returns, whatever
    the counties are, and its pairs count the counties: no county comes
    twice; there is a pair for each county that some record has, but none
    for the county [__proto__], which the table cannot hold; the count of a
    pair is the number of records with that county, or, for a county that
    is the name of a function which plain objects inherit
    ([constructor], [toString], ...), the text of that function followed by
    a 1 for each such record.  When no county is one of these names, the
    counts add up to the number of records that have a county. *)
Theorem computeCountyCounts_counts_each_county
    (B : Builtins) (P : Platform) (h : heap) (properties : val)
    (elems : list val) :
  arrayElems h properties = Some elems ->
  Forall (fun p => isNullVal p = false) elems ->
  exists result,
    computeCountyCounts B P h properties = Normal result
    /\ NoDup (List.map fst result)
    /\ (forall k c,
          In (k, c) result
          <-> 0 < occurrences P h "county" k elems /\ k <> protoName
              /\ c = counterAfter B k (occurrences P h "county" k elems))
    /\ (plainKeys P h "county" elems ->
        Forall numberPair result
        /\ sumCounts result = keyed h "county" elems).
Proof.
  intros Harr Hnn. unfold computeCountyCounts. rewrite Harr.
  destruct (counts_of_table B P h "county" elems
              (sortByCount B (entries
                 match tally B P h "county" elems [] with
                 | Normal t => t | Throw _ => []
                 end)) Hnn)
    as (table & Hrun & Hres).
  rewrite Hrun in *. cbn [bind]. eexists. split; [reflexivity|].
  assert (Hperm : Permutation (sortByCount B (entries table)) table)
    by (by rewrite sortByCount_Permutation, entries_Permutation).
  destruct (Hres Hperm) as [Hnd Hin].
  split; [exact Hnd|]. split; [exact Hin|].
  intros Hplain.
  destruct (tally_numbers B P h "county" elems Hplain [] table
              (List.Forall_nil _) Hrun) as [Hnum Hsum].
  split.
  - by apply (numberPair_Permutation _ table).
  - by rewrite (sumCounts_Permutation _ _ Hperm), Hsum.
Qed.

(** X25.  On an array of records none of whose counties is a name that a
    plain object inherits ([__proto__], [constructor], [toString], ...),
    [computeCountyCounts] returns pairs whose counts are numbers, with the
    larger numbers first, and counties with the same number keep the order
    in which [Object.entries] lists them. *)
Theorem computeCountyCounts_largest_first
    (B : Builtins) (P : Platform) (h : heap) (properties : val)
    (elems : list val) :
  arrayElems h properties = Some elems ->
  Forall (fun p => isNullVal p = false) elems ->
  plainKeys P h "county" elems ->
  exists counties result,
    tally B P h "county" elems [] = Normal counties
    /\ computeCountyCounts B P h properties = Normal result
    /\ Forall numberPair result
    /\ StronglySorted (fun a b => countOf (snd b) <= countOf (snd a)) result
    /\ forall n, List.filter (fun e => countOf (snd e) =? n) result
                 = List.filter (fun e => countOf (snd e) =? n)
                     (entries counties).
Proof.
  intros Harr Hnn Hplain. unfold computeCountyCounts. rewrite Harr.
  destruct (tally_expected B P h "county" elems Hnn [] (fun _ => 0))
    as (table & Hrun & _ & _).
  - constructor.
  - intros _. lia.
  - intros k. unfold expected. by destruct (String.eqb k protoName).
  - rewrite Hrun. cbn [bind]. exists table. eexists.
    split; [reflexivity|]. split; [reflexivity|].
    destruct (tally_numbers B P h "county" elems Hplain [] table
                (List.Forall_nil _) Hrun) as [Hnum _].
    assert (Hent : Forall numberPair (entries table))
      by (apply (numberPair_Permutation _ table);
          [apply entries_Permutation|done]).
    unfold sortByCount. rewrite (numbers_consistent _ Hent).
    split; [|split].
    + apply (numberPair_Permutation _ (entries table));
        [apply insertionSort_Permutation|done].
    + by apply insertionSort_sorted.
    + intros n. by apply insertionSort_stable.
Qed.

(** X26.  On an array of records [computeTypeCounts] returns, whatever the
    types are, and its pairs count the types: no type comes twice; there
    is a pair for each type that some record has, but none for the type
    [__proto__], which the table cannot hold; the count of a pair is the
    number of records with that type, or, for a type that is the name of a
    function which plain objects inherit, the text of that function
    followed by a 1 for each such record.  When no type is one of these
    names, the counts add up to the number of records that have a type. *)
Theorem computeTypeCounts_counts_each_type
    (B : Builtins) (P : Platform) (h : heap) (properties : val)
    (elems : list val) :
  arrayElems h properties = Some elems ->
  Forall (fun p => isNullVal p = false) elems ->
  exists result,
    computeTypeCounts B P h properties = Normal result
    /\ NoDup (List.map fst result)
    /\ (forall k c,
          In (k, c) result
          <-> 0 < occurrences P h "type" k elems /\ k <> protoName
              /\ c = counterAfter B k (occurrences P h "type" k elems))
    /\ (plainKeys P h "type" elems ->
        Forall numberPair result
        /\ sumCounts result = keyed h "type" elems).
Proof.
  intros Harr Hnn. unfold computeTypeCounts. rewrite Harr.
  destruct (counts_of_table B P h "type" elems
              (entries
                 match tally B P h "type" elems [] with
                 | Normal t => t | Throw _ => []
                 end) Hnn)
    as (table & Hrun & Hres).
  rewrite Hrun in *. cbn [bind]. eexists. split; [reflexivity|].
  pose proof (entries_Permutation table) as Hperm.
  destruct (Hres Hperm) as [Hnd Hin].
  split; [exact Hnd|]. split; [exact Hin|].
  intros Hplain.
  destruct (tally_numbers B P h "type" elems Hplain [] table
              (List.Forall_nil _) Hrun) as [Hnum Hsum].
  split.
  - by apply (numberPair_Permutation _ table).
  - by rewrite (sumCounts_Permutation _ _ Hperm), Hsum.
Qed.

(** ** [validatePin] *)

Lemma lessThan_length (s : string) :
  lessThan (lengthOf (PStr s)) (PNum (ofZ 4))
  = (String.length s <? 4)%nat.
Proof.
  simpl. unfold Qle_bool. simpl. rewrite Z.mul_1_r.
  destruct (Nat.ltb_spec (String.length s) 4) as [H|H].
  - apply negb_true_iff, Z.leb_gt. lia.
  - apply negb_false_iff, Z.leb_le. lia.
Qed.

(** X27.  [validatePin] accepts an entry only when it is strictly equal to
    the PIN, truthy and, if it is a string, at least four characters long.
    So a PIN that is a string of fewer than four characters is never
    accepted, not even for itself: the answer is then a rejection for
    every entry. *)
Theorem validatePin_accepts_only_long_equal_entries :
  (forall entered pin : prim,
     valid (validatePin entered pin) = true ->
     strictEq entered pin = true /\ truthy entered = true
     /\ error (validatePin entered pin) = None
     /\ forall s, entered = PStr s -> (4 <= String.length s)%nat)
  /\ (forall (s : string) (entered : prim),
        (String.length s < 4)%nat ->
        valid (validatePin entered (PStr s)) = false)
  /\ (forall s : string,
        (String.length s < 4)%nat ->
        validatePin (PStr s) (PStr s)
        = {| valid := false; error := Some "Enter 4 digits" |}).
Proof.
  split; [|split].
  - intros entered pin. unfold validatePin.
    destruct (truthy entered) eqn:Ht; simpl; [|discriminate].
    destruct (lessThan (lengthOf entered) (PNum (ofZ 4))) eqn:Hl; simpl;
      [discriminate|].
    destruct (strictEq entered pin) eqn:He; simpl; [|discriminate].
    intros _. do 3 (split; [done|]). intros s ->.
    rewrite lessThan_length in Hl. by apply Nat.ltb_ge in Hl.
  - intros s entered Hs. unfold validatePin.
    destruct (negb (truthy entered) || _) eqn:Hg; [done|].
    destruct (strictEq entered (PStr s)) eqn:He; [|done].
    destruct entered as [| |?|?|t]; try discriminate.
    simpl in He. apply String.eqb_eq in He as ->.
    apply orb_false_iff in Hg as [_ Hg]. rewrite lessThan_length in Hg.
    apply Nat.ltb_ge in Hg. lia.
  - intros s Hs. unfold validatePin. rewrite lessThan_length.
    apply Nat.ltb_lt in Hs. rewrite Hs. by rewrite orb_true_r.
Qed.

(** ** [getFiltered] without a filter *)

Lemma keeps_all (h : heap) (o : QueryOptions) (x : val) :
  stageFilterOnly o = true -> String.eqb (currentFilter o) "all" = true ->
  keeps h o x = Normal true.
Proof.
  unfold stageFilterOnly. intros [[Hc Ht]%andb_true_iff Hs]%andb_true_iff Ha.
  unfold keeps, stageOk, fieldOk, searchOk. by rewrite Ha, Hc, Ht, Hs.
Qed.

(** X28.  With the stage filter [all] and no other filter, [getFiltered]
    drops nothing: when it returns, the result holds every element of the
    collection as often as the collection does, so both have the same
    length. *)
Theorem getFiltered_without_filter_keeps_all
    (h h' : heap) (properties v : val) (o : QueryOptions) :
  stageFilterOnly o = true -> currentFilter o = "all" ->
  getFiltered h properties o = (h', Normal v) ->
  exists f elems sorted,
    v = VRef f
    /\ arrayElems h properties = Some elems
    /\ h' !! f = Some (CArr sorted)
    /\ Permutation sorted elems
    /\ length sorted = length elems.
Proof.
  intros Ho Hall Hrun.
  destruct (getFiltered_normal _ _ _ _ _ Hrun)
    as (f & elems & sorted & -> & Hf & Harr & Hret & -> & Hsort).
  apply arraySort_Permutation in Hsort.
  assert (Hfilter : List.filter (passes h o) elems = elems).
  { clear Hsort Hret Harr. induction elems as [|x l IH]; simpl; [done|].
    unfold passes at 1. rewrite (keeps_all h o x Ho); [by rewrite IH|].
    by rewrite Hall. }
  rewrite Hfilter in Hsort.
  exists f, elems, sorted. split; [done|]. split; [done|].
  split; [by rewrite lookup_insert_eq|]. split; [done|].
  by apply Permutation_length.
Qed.

(** ** When [exportCSVString] returns *)

Lemma rowCells_returns (P : Platform) (h : heap) (p : val) :
  returns (rowCells P h p)
  <-> isNullVal p = false /\ textOrFalsy (fieldOf h p "notes") = true.
Proof.
  split.
  - destruct (isNullVal p) eqn:Hn.
    { destruct p as [[]|]; try discriminate; intros []. }
    intros Hret. split; [done|].
    unfold rowCells, rowValues in Hret.
    rewrite !(getProp_nonnull h p _ Hn) in Hret. cbn [bind] in Hret.
    unfold textOrFalsy, orElse in *.
    destruct (fieldOf h p "notes") as [| |b|n|s]; try done.
    + destruct b; [destruct Hret|done].
    + destruct (truthy (PNum n)); [destruct Hret|done].
  - intros [Hn Ht]. by rewrite (rowCells_eq P h p Hn Ht).
Qed.

Lemma mapM_returns {A B} (f : A -> completion B) (l : list A) :
  returns (mapM f l) <-> Forall (fun x => returns (f x)) l.
Proof.
  induction l as [|x l IH]; simpl.
  - split; [constructor|done].
  - destruct (f x) as [y|e] eqn:Hx; simpl.
    + destruct (mapM f l) as [ys|e]; simpl.
      * split; [|done]. intros _. constructor; [by rewrite Hx|by apply IH].
      * split; [done|]. intros H. apply List.Forall_cons_iff in H as [_ H].
        by apply IH in H.
    + split; [done|]. intros H. apply List.Forall_cons_iff in H as [H _].
      by rewrite Hx in H.
Qed.

Lemma mapM_length {A B} (f : A -> completion B) (l : list A) (rows : list B) :
  mapM f l = Normal rows -> length rows = length l.
Proof.
  revert rows. induction l as [|x l IH]; simpl; intros rows.
  - by intros [= <-].
  - destruct (f x) as [y|e]; simpl; [|discriminate].
    destruct (mapM f l) as [ys|e]; simpl; [|discriminate].
    intros [= <-]. simpl. by rewrite (IH ys).
Qed.

(** X29.  [exportCSVString] returns exactly when the collection is an
    array, none of its elements is [null] or [undefined] and the notes of
    every record are a string or falsy; otherwise it raises a [TypeError].
    When it returns, the text is the header line followed by one line for
    each element of the collection, in order, joined by line feeds; for an
    empty collection it is the header line alone. *)
Theorem exportCSVString_returns_iff
    (P : Platform) (h : heap) (properties : val) :
  (returns (exportCSVString P h properties)
   <-> exists elems,
         arrayElems h properties = Some elems
         /\ Forall (fun p => isNullVal p = false
                             /\ textOrFalsy (fieldOf h p "notes") = true)
              elems)
  /\ (forall csv, exportCSVString P h properties = Normal csv ->
        exists elems rows,
          arrayElems h properties = Some elems
          /\ mapM (rowCells P h) elems = Normal rows
          /\ length rows = length elems
          /\ csv = Parser.joinLines
                     (String.concat "," header
                      :: List.map (String.concat ",") rows))
  /\ (arrayElems h properties = Some [] ->
      exportCSVString P h properties = Normal (String.concat "," header)).
Proof.
  unfold exportCSVString. split; [|split].
  - destruct (arrayElems h properties) as [elems|].
    + split.
      * intros Hret. exists elems. split; [done|].
        assert (Hrows : returns (mapM (rowCells P h) elems))
          by (by destruct (mapM (rowCells P h) elems)).
        apply mapM_returns in Hrows.
        eapply List.Forall_impl; [|exact Hrows].
        intros p Hp. by apply rowCells_returns in Hp.
      * intros (elems' & [= <-] & Hall).
        assert (Hrows : returns (mapM (rowCells P h) elems)).
        { apply mapM_returns. eapply List.Forall_impl; [|exact Hall].
          intros p Hp. by apply rowCells_returns. }
        by destruct (mapM (rowCells P h) elems).
    + split; [intros []|]. by intros (elems & [=] & _).
  - intros csv. destruct (arrayElems h properties) as [elems|]; [|discriminate].
    destruct (mapM (rowCells P h) elems) as [rows|e] eqn:Hrows; simpl;
      [|discriminate].
    intros [= <-]. exists elems, rows. split; [done|]. split; [done|].
    split; [by apply (mapM_length _ _ _ Hrows)|done].
  - by intros ->.
Qed.

(** ** Filtering twice *)

Lemma keeps_heap_ext (h h' : heap) (o : QueryOptions) :
  (forall v key, getProp h' v key = getProp h v key) ->
  forall x, keeps h' o x = keeps h o x.
Proof.
  intros Hext x. unfold keeps, stageOk, stageIs, fieldOk, searchOk.
  by rewrite !Hext.
Qed.

Lemma arraySort_ext (f g : val -> val -> completion Z) (l : list val) :
  (forall a b, f a b = g a b) -> arraySort f l = arraySort g l.
Proof.
  intros Hfg. unfold arraySort. f_equal.
  assert (Hins : forall x placed, insertSorted f x placed = insertSorted g x placed).
  { intros x placed. induction placed as [|y r IH]; simpl; [done|].
    by rewrite Hfg, IH. }
  generalize (@nil val).
  induction (List.filter (fun v => negb (isUndefined v)) l) as [|x t IH];
    intros placed; simpl; [done|].
  rewrite Hins. destruct (insertSorted g x placed); simpl; [apply IH|done].
Qed.

Lemma getFiltered_eq (h : heap) (properties : val) (o : QueryOptions)
    (elems kept sorted : list val) :
  arrayElems h properties = Some elems ->
  filterM (keeps h o) elems = Normal kept ->
  arraySort (sortCompare h o) kept = Normal sorted ->
  getFiltered h properties o
  = (<[fresh (dom h) := CArr sorted]> h, Normal (VRef (fresh (dom h)))).
Proof.
  intros Harr Hkept Hsort. unfold getFiltered, allocArray.
  rewrite Harr, Hkept.
  rewrite (arraySort_ext _ (sortCompare h o)), Hsort.
  - by rewrite insert_insert_eq.
  - apply sortCompare_heap_ext. intros v key.
    apply getProp_insert_fresh. left. apply not_elem_of_dom, is_fresh.
Qed.

Section SortedInput.

Variable compareFn : val -> val -> completion Z.
Variable ok : val -> Prop.
Variable le : val -> val -> Prop.

Hypothesis compare_after : forall a b, ok a -> ok b -> le b a ->
  exists c, compareFn a b = Normal c /\ 0 <= c.

Lemma StronglySorted_middle (l1 l2 : list val) (x y : val) :
  StronglySorted le (l1 ++ x :: l2) -> In y l1 -> le y x.
Proof.
  induction l1 as [|z l1 IH]; simpl; [done|].
  intros Hs. apply StronglySorted_inv in Hs as [Hs Hz].
  intros [->|Hin]; [|by apply IH].
  rewrite List.Forall_forall in Hz. apply Hz, in_or_app. right. by left.
Qed.

(** Input that is in order already is left as it is. *)
Lemma insertAll_sorted_input (todo : list val) :
  forall placed,
    Forall ok todo -> Forall ok placed ->
    StronglySorted le (rev placed ++ todo) ->
    insertAll compareFn todo placed = Normal (rev todo ++ placed).
Proof.
  induction todo as [|x t IH]; intros placed Htodo Hplaced Hs; simpl; [done|].
  apply List.Forall_cons_iff in Htodo as [Hx Ht].
  assert (Hins : insertSorted compareFn x placed = Normal (x :: placed)).
  { destruct placed as [|y r]; simpl; [done|].
    apply List.Forall_cons_iff in Hplaced as [Hy Hr].
    destruct (compare_after x y Hx Hy) as (c & -> & Hc).
    - apply (StronglySorted_middle (rev (y :: r)) t x y Hs).
      simpl. apply in_or_app. right. by left.
    - simpl. destruct (c <? 0) eqn:E; [lia|done]. }
  rewrite Hins. simpl. rewrite IH.
  - by rewrite <- app_assoc.
  - done.
  - by constructor.
  - simpl. by rewrite <- app_assoc.
Qed.

Lemma arraySort_sorted_input (l : list val) :
  Forall ok l -> Forall (fun v => isUndefined v = false) l ->
  StronglySorted le l ->
  arraySort compareFn l = Normal l.
Proof.
  intros Hok Hdef Hs. unfold arraySort.
  assert (Hl : List.filter (fun v => negb (isUndefined v)) l = l
               /\ List.filter isUndefined l = []).
  { clear Hok Hs. induction Hdef as [|x l Hx _ [IH1 IH2]]; [done|]. simpl.
    rewrite Hx. simpl. by rewrite IH1, IH2. }
  destruct Hl as [-> ->].
  rewrite (insertAll_sorted_input l []); [|done|constructor|done].
  simpl. by rewrite !app_nil_r, rev_involutive.
Qed.

End SortedInput.

Lemma sortCompare_after_numeric (h : heap) (o : QueryOptions) (a b : val) :
  absent h o a \/ present h o a -> absent h o b \/ present h o b ->
  inOrder h o b a ->
  exists c, sortCompare h o a b = Normal c /\ 0 <= c.
Proof.
  intros Ha Hb. rewrite (sortCompare_numeric h o a b Ha Hb).
  unfold inOrder. destruct (ascending o); intros ->; eexists;
    (split; [reflexivity|]); by destruct (lt _ _).
Qed.

Lemma sortCompare_after_text (h : heap) (o : QueryOptions) (a b : val) :
  hasText h o a -> hasText h o b -> inTextOrder h o b a ->
  exists c, sortCompare h o a b = Normal c /\ 0 <= c.
Proof.
  intros Ha Hb. rewrite (sortCompare_text h o a b Ha Hb).
  unfold inTextOrder. destruct (ascending o); intros ->; eexists;
    (split; [reflexivity|]); by destruct (String.ltb _ _).
Qed.

(** The second call of [getFiltered] on the result of a first one, once
    the first result is known to be in an order the comparator accepts. *)
Lemma getFiltered_again (h : heap) (o : QueryOptions) (elems sorted : list val)
    (f : loc) :
  h !! f = None ->
  Permutation sorted (List.filter (passes h o) elems) ->
  Forall (fun x => returns (keeps h o x)) elems ->
  arraySort (sortCompare h o) sorted = Normal sorted ->
  exists f2,
    getFiltered (<[f := CArr sorted]> h) (VRef f) o
    = (<[f2 := CArr sorted]> (<[f := CArr sorted]> h), Normal (VRef f2)).
Proof.
  intros Hf Hperm Hret Hsort.
  set (h1 := <[f := CArr sorted]> h).
  assert (Hext : forall v key, getProp h1 v key = getProp h v key).
  { intros v key. apply getProp_insert_fresh. by left. }
  exists (fresh (dom h1)).
  apply (getFiltered_eq h1 (VRef f) o sorted sorted sorted).
  - simpl. unfold h1. by rewrite lookup_insert_eq.
  - rewrite (filterM_filter _ (fun _ => true)).
    + f_equal. clear. induction sorted as [|x l IH]; simpl; [done|].
      by rewrite IH.
    + apply List.Forall_forall. intros x Hx.
      rewrite (keeps_heap_ext h h1 o Hext).
      apply list_elem_of_In in Hx. rewrite Hperm in Hx.
      apply list_elem_of_In, filter_In in Hx as [Hin Hpass].
      unfold passes in Hpass. by destruct (keeps h o x) as [[]|].
  - rewrite (arraySort_ext _ (sortCompare h o)); [done|].
    by apply sortCompare_heap_ext.
Qed.

(** X30.  Filtering and sorting twice changes nothing.  For a sort field
    whose values are all finite numbers or missing, or all non-empty
    strings, in a collection of records on none of which the filter
    callback raises (it raises on none when there is no search term),
    [getFiltered] returns, and [getFiltered] called with the same options
    on the array it returned returns a new array with the same records in
    the same order. *)
Theorem getFiltered_idempotent
    (h : heap) (properties : val) (o : QueryOptions) (elems : list val) :
  arrayElems h properties = Some elems ->
  Forall (fun x => absent h o x \/ present h o x) elems
  \/ Forall (hasText h o) elems ->
  Forall (fun x => returns (keeps h o x)) elems ->
  exists f sorted f2,
    getFiltered h properties o
    = (<[f := CArr sorted]> h, Normal (VRef f))
    /\ getFiltered (<[f := CArr sorted]> h) (VRef f) o
       = (<[f2 := CArr sorted]> (<[f := CArr sorted]> h), Normal (VRef f2)).
Proof.
  intros Harr [Hkeys|Hkeys] Hkeeps.
  - assert (Hin : forall a, In a elems -> absent h o a \/ present h o a).
    { intros a Ha. rewrite List.Forall_forall in Hkeys. by apply Hkeys. }
    destruct (getFiltered_returns_normal h properties o elems Harr Hkeeps)
      as (f & sorted & Hrun & Hf & Hsort).
    { intros a b Ha Hb.
      by rewrite (sortCompare_numeric h o a b (Hin a Ha) (Hin b Hb)). }
    pose proof (filter_Forall_In _ (passes h o) _ Hkeys) as Hkept.
    assert (Hdef : Forall (fun v => isUndefined v = false)
                     (List.filter (passes h o) elems)).
    { eapply List.Forall_impl; [|exact Hkept].
      intros x [[Hn _]|[Hn _]]; by destruct x as [[]|]. }
    pose proof (arraySort_sorted (sortCompare h o)
                  (fun x => absent h o x \/ present h o x) (inOrder h o)
                  (sortCompare_inOrder h o) (inOrder_trans h o)
                  _ _ Hkept Hdef Hsort) as Hs.
    pose proof (arraySort_Permutation _ _ _ Hsort) as Hperm.
    assert (Hok : Forall (fun x => absent h o x \/ present h o x) sorted).
    { apply List.Forall_forall. intros x Hx.
      rewrite List.Forall_forall in Hkept. apply Hkept.
      apply list_elem_of_In. rewrite <- Hperm. by apply list_elem_of_In. }
    assert (Hdef' : Forall (fun v => isUndefined v = false) sorted).
    { eapply List.Forall_impl; [|exact Hok].
      intros x [[Hn _]|[Hn _]]; by destruct x as [[]|]. }
    destruct (getFiltered_again h o elems sorted f Hf Hperm Hkeeps) as [f2 H2].
    { apply (arraySort_sorted_input (sortCompare h o)
               (fun x => absent h o x \/ present h o x) (inOrder h o)
               (sortCompare_after_numeric h o) sorted Hok Hdef' Hs). }
    by exists f, sorted, f2.
  - assert (Hin : forall a, In a elems -> hasText h o a).
    { intros a Ha. rewrite List.Forall_forall in Hkeys. by apply Hkeys. }
    destruct (getFiltered_returns_normal h properties o elems Harr Hkeeps)
      as (f & sorted & Hrun & Hf & Hsort).
    { intros a b Ha Hb.
      by rewrite (sortCompare_text h o a b (Hin a Ha) (Hin b Hb)). }
    pose proof (filter_Forall_In _ (passes h o) _ Hkeys) as Hkept.
    assert (Hdef : Forall (fun v => isUndefined v = false)
                     (List.filter (passes h o) elems)).
    { eapply List.Forall_impl; [|exact Hkept].
      intros x [Hn _]; by destruct x as [[]|]. }
    pose proof (arraySort_sorted (sortCompare h o) (hasText h o)
                  (inTextOrder h o) (sortCompare_inTextOrder h o)
                  (inTextOrder_trans h o) _ _ Hkept Hdef Hsort) as Hs.
    pose proof (arraySort_Permutation _ _ _ Hsort) as Hperm.
    assert (Hok : Forall (hasText h o) sorted).
    { apply List.Forall_forall. intros x Hx.
      rewrite List.Forall_forall in Hkept. apply Hkept.
      apply list_elem_of_In. rewrite <- Hperm. by apply list_elem_of_In. }
    assert (Hdef' : Forall (fun v => isUndefined v = false) sorted).
    { eapply List.Forall_impl; [|exact Hok].
      intros x [Hn _]; by destruct x as [[]|]. }
    destruct (getFiltered_again h o elems sorted f Hf Hperm Hkeeps) as [f2 H2].
    { apply (arraySort_sorted_input (sortCompare h o) (hasText h o)
               (inTextOrder h o) (sortCompare_after_text h o)
               sorted Hok Hdef' Hs). }
    by exists f, sorted, f2.
Qed.

(** ** Instances for the other functions *)

Lemma getFiltered_length_is_stats_counter_witness :
  stageFilterOnly Samples.onlyNew = true
  /\ computeStats Samples.listings (VRef 22)
     = Normal {| ready := 1; new := 2; hold := 0; high := 0; sold := 0;
                 total := 3 |}
  /\ getFiltered Samples.listings (VRef 22) Samples.onlyNew
     = (<[23%positive := CArr [VRef 2; VRef 4]%positive]> Samples.listings,
        Normal (VRef 23))
  /\ exists f sorted,
       VRef 23%positive = VRef f
       /\ (<[23%positive := CArr [VRef 2; VRef 4]%positive]> Samples.listings)
            !! f = Some (CArr sorted)
       /\ Z.of_nat (length sorted)
          = bucket (currentFilter Samples.onlyNew)
              {| ready := 1; new := 2; hold := 0; high := 0; sold := 0;
                 total := 3 |}.
Proof.
  assert (H1 : stageFilterOnly Samples.onlyNew = true) by reflexivity.
  assert (H2 : computeStats Samples.listings (VRef 22)
               = Normal {| ready := 1; new := 2; hold := 0; high := 0;
                           sold := 0; total := 3 |})
    by (vm_compute; reflexivity).
  assert (H3 : getFiltered Samples.listings (VRef 22) Samples.onlyNew
               = (<[23%positive := CArr [VRef 2; VRef 4]%positive]>
                    Samples.listings, Normal (VRef 23)))
    by (vm_compute; reflexivity).
  split; [exact H1|]. split; [exact H2|]. split; [exact H3|].
  exact (getFiltered_length_is_stats_counter _ _ _ _ _ _ H1 H2 H3).
Defined.

Lemma getFiltered_numeric_keys_in_order_witness :
  arrayElems ExampleHost.deals (VRef 10)
  = Some [VRef 1; VRef 2; VRef 3]%positive
  /\ exists f sorted,
       getFiltered ExampleHost.deals (VRef 10) (ExampleHost.byBeds "desc")
       = (<[f := CArr sorted]> ExampleHost.deals, Normal (VRef f))
       /\ StronglySorted
            (inOrder ExampleHost.deals (ExampleHost.byBeds "desc")) sorted
       /\ forall k : num,
            List.filter
              (fun x => eqb (sortRank ExampleHost.deals
                               (ExampleHost.byBeds "desc") x) k) sorted
            = List.filter
                (fun x => eqb (sortRank ExampleHost.deals
                                 (ExampleHost.byBeds "desc") x) k)
                (List.filter
                   (passes ExampleHost.deals (ExampleHost.byBeds "desc"))
                   [VRef 1; VRef 2; VRef 3]%positive).
Proof.
  assert (H1 : arrayElems ExampleHost.deals (VRef 10)
               = Some [VRef 1; VRef 2; VRef 3]%positive)
    by (vm_compute; reflexivity).
  split; [exact H1|].
  apply (getFiltered_numeric_keys_in_order ExampleHost.deals (VRef 10)
           (ExampleHost.byBeds "desc") _ H1).
  - apply List.Forall_cons; [right; split; vm_compute; reflexivity|].
    apply List.Forall_cons; [right; split; vm_compute; reflexivity|].
    apply List.Forall_cons; [left; split; vm_compute; reflexivity|].
    apply List.Forall_nil.
  - repeat (apply List.Forall_cons; [vm_compute; exact I|]).
    apply List.Forall_nil.
Defined.

Lemma getFiltered_text_keys_in_order_witness :
  arrayElems ExampleHost.deals (VRef 10)
  = Some [VRef 1; VRef 2; VRef 3]%positive
  /\ exists f sorted,
       getFiltered ExampleHost.deals (VRef 10) (Samples.byAddress "desc")
       = (<[f := CArr sorted]> ExampleHost.deals, Normal (VRef f))
       /\ StronglySorted
            (inTextOrder ExampleHost.deals (Samples.byAddress "desc")) sorted
       /\ forall t : string,
            List.filter
              (fun x => String.eqb (sortText ExampleHost.deals
                                      (Samples.byAddress "desc") x) t) sorted
            = List.filter
                (fun x => String.eqb (sortText ExampleHost.deals
                                        (Samples.byAddress "desc") x) t)
                (List.filter
                   (passes ExampleHost.deals (Samples.byAddress "desc"))
                   [VRef 1; VRef 2; VRef 3]%positive).
Proof.
  assert (H1 : arrayElems ExampleHost.deals (VRef 10)
               = Some [VRef 1; VRef 2; VRef 3]%positive)
    by (vm_compute; reflexivity).
  split; [exact H1|].
  apply (getFiltered_text_keys_in_order ExampleHost.deals (VRef 10)
           (Samples.byAddress "desc") _ H1).
  - repeat (apply List.Forall_cons;
            [split; [|split]; vm_compute; reflexivity|]).
    apply List.Forall_nil.
  - repeat (apply List.Forall_cons; [vm_compute; exact I|]).
    apply List.Forall_nil.
Defined.

Lemma checkDuplicateProperty_first_match_witness :
  checkDuplicateProperty Samples.listings (VRef 20) (PStr "") (PStr "Bruin")
  = Normal (VPrim PNull)
  /\ checkDuplicateProperty Samples.listings (VRef 20)
       (PNum (ofZ 5)) (PStr "Bruin")
     = Throw TypeError
  /\ checkDuplicateProperty Samples.listings (VRef 20)
       (PStr "105 MOHAWK") (PStr "bruin")
     = Normal (VRef 1)
  /\ exists a c elems,
       PStr "105 MOHAWK" = PStr a /\ PStr "bruin" = PStr c
       /\ arrayElems Samples.listings (VRef 20) = Some elems
       /\ ((VRef 1%positive = VPrim PNull
            /\ Forall (fun y => similar Samples.listings a c y = false)
                 elems)
           \/ exists l before after,
                VRef 1%positive = VRef l
                /\ elems = before ++ VRef l :: after
                /\ similar Samples.listings a c (VRef l) = true
                /\ Forall (fun y => similar Samples.listings a c y = false)
                     before).
Proof.
  assert (H : checkDuplicateProperty Samples.listings (VRef 20)
                (PStr "105 MOHAWK") (PStr "bruin") = Normal (VRef 1))
    by (vm_compute; reflexivity).
  split; [|split; [|split; [exact H|]]].
  - apply (proj1 (checkDuplicateProperty_first_match
                    Samples.listings (VRef 20) (PStr "") (PStr "Bruin"))).
    left. reflexivity.
  - apply (proj1 (proj2 (checkDuplicateProperty_first_match
                           Samples.listings (VRef 20)
                           (PNum (ofZ 5)) (PStr "Bruin"))));
      [vm_compute; reflexivity|reflexivity|left; reflexivity].
  - exact (proj2 (proj2 (checkDuplicateProperty_first_match
                           Samples.listings (VRef 20)
                           (PStr "105 MOHAWK") (PStr "bruin")))
             eq_refl eq_refl (VRef 1) H).
Defined.

Lemma checkDuplicateProperty_finds_stored_record_witness :
  exists l,
    checkDuplicateProperty Samples.listings (VRef 20)
      (PStr "14 Elm St") (PStr "Ebensburg") = Normal (VRef l)
    /\ In (VRef l) [VRef 1; VRef 2; VRef 3; VRef 4; VRef 5; VRef 6]%positive
    /\ similar Samples.listings "14 Elm St" "Ebensburg" (VRef l) = true.
Proof.
  apply (checkDuplicateProperty_finds_stored_record Samples.listings (VRef 20)
           [VRef 1; VRef 2; VRef 3; VRef 4; VRef 5; VRef 6]%positive
           (VRef 6) "14 Elm St" "Ebensburg").
  - vm_compute; reflexivity.
  - repeat constructor; vm_compute; reflexivity.
  - simpl. tauto.
  - vm_compute; reflexivity.
  - vm_compute; reflexivity.
  - discriminate.
  - discriminate.
Defined.

Lemma validateImportData_rejects_at_first_incomplete_witness :
  validateImportData Samples.listings (VRef 21)
  = (Samples.listings,
     Normal (Rejected "Missing required fields (address, city)")).
Proof.
  apply (validateImportData_rejects_at_first_incomplete Samples.listings
           (VRef 21) [VRef 1%positive] [VPrim PNull] (VRef 7)).
  - vm_compute; reflexivity.
  - repeat constructor; vm_compute; reflexivity.
  - reflexivity.
  - vm_compute; reflexivity.
Defined.

Lemma validatePropertyData_messages_in_rule_order_witness :
  exists errors,
    validatePropertyData ExampleHost.host ExampleHost.deals (VRef 2)
    = Normal errors
    /\ sublist errors allMessages
    /\ NoDup errors
    /\ (errors = []
        <-> Forall (fun c => fst c = false)
              (checks ExampleHost.host (fieldOf ExampleHost.deals (VRef 2)))).
Proof.
  apply (validatePropertyData_messages_in_rule_order ExampleHost.host
           ExampleHost.deals (VRef 2)); vm_compute; reflexivity.
Defined.

Lemma normalizeProperties_blanks_three_fields_witness :
  normalizeProperties Samples.listings (VRef 20)
  = Some (Samples.normalized, Normal (VRef 20))
  /\ VRef 20%positive = VRef 20%positive
  /\ arrayElems Samples.normalized (VRef 20)
     = arrayElems Samples.listings (VRef 20)
  /\ exists elems,
       arrayElems Samples.listings (VRef 20) = Some elems
       /\ (forall l key, In (VRef l) elems ->
             fieldOf Samples.normalized (VRef l) key
             = if isNormalized key
               then orElse (fieldOf Samples.listings (VRef l) key) (PStr "")
               else fieldOf Samples.listings (VRef l) key)
       /\ (forall l, ~ In (VRef l) elems ->
             Samples.normalized !! l = Samples.listings !! l).
Proof.
  assert (H : normalizeProperties Samples.listings (VRef 20)
              = Some (Samples.normalized, Normal (VRef 20)))
    by (vm_compute; reflexivity).
  split; [exact H|].
  exact (normalizeProperties_blanks_three_fields _ _ _ _ H).
Defined.

Lemma normalizeProperties_idempotent_witness :
  normalizeProperties Samples.listings (VRef 20)
  = Some (Samples.normalized, Normal (VRef 20))
  /\ normalizeProperties Samples.normalized (VRef 20)
     = Some (Samples.normalized, Normal (VRef 20)).
Proof.
  assert (H : normalizeProperties Samples.listings (VRef 20)
              = Some (Samples.normalized, Normal (VRef 20)))
    by (vm_compute; reflexivity).
  split; [exact H|].
  exact (normalizeProperties_idempotent _ _ _ _ H).
Defined.

Lemma exportCSVString_after_normalizeProperties_witness :
  normalizeProperties Samples.listings (VRef 20)
  = Some (Samples.normalized, Normal (VRef 20))
  /\ exportCSVString ExampleHost.host Samples.normalized (VRef 20)
     = exportCSVString ExampleHost.host Samples.listings (VRef 20).
Proof.
  assert (H : normalizeProperties Samples.listings (VRef 20)
              = Some (Samples.normalized, Normal (VRef 20)))
    by (vm_compute; reflexivity).
  split; [exact H|].
  exact (exportCSVString_after_normalizeProperties ExampleHost.host _ _ _ _ H).
Defined.

Lemma computeSpread_after_normalizeProperties_witness :
  normalizeProperties Samples.listings (VRef 20)
  = Some (Samples.normalized, Normal (VRef 20))
  /\ computeSpread (fieldOf Samples.normalized (VRef 2) "arv")
       (fieldOf Samples.normalized (VRef 2) "asking")
       (fieldOf Samples.normalized (VRef 2) "rehab")
     = computeSpread (fieldOf Samples.listings (VRef 2) "arv")
         (fieldOf Samples.listings (VRef 2) "asking")
         (fieldOf Samples.listings (VRef 2) "rehab").
Proof.
  assert (H : normalizeProperties Samples.listings (VRef 20)
              = Some (Samples.normalized, Normal (VRef 20)))
    by (vm_compute; reflexivity).
  split; [exact H|].
  apply (computeSpread_after_normalizeProperties Samples.listings
           Samples.normalized (VRef 20) (VRef 20)
           [VRef 1; VRef 2; VRef 3; VRef 4; VRef 5; VRef 6]%positive 2 H).
  - vm_compute; reflexivity.
  - simpl. tauto.
Defined.

Lemma computeCountyCounts_counts_each_county_witness :
  arrayElems Samples.listings (VRef 20)
  = Some [VRef 1; VRef 2; VRef 3; VRef 4; VRef 5; VRef 6]%positive
  /\ exists result,
       computeCountyCounts Samples.builtins ExampleHost.host
         Samples.listings (VRef 20) = Normal result
       /\ NoDup (List.map fst result)
       /\ (forall k c,
             In (k, c) result
             <-> 0 < occurrences ExampleHost.host Samples.listings "county" k
                       [VRef 1; VRef 2; VRef 3; VRef 4; VRef 5; VRef 6]%positive
                 /\ k <> protoName
                 /\ c = counterAfter Samples.builtins k
                          (occurrences ExampleHost.host Samples.listings
                             "county" k
                             [VRef 1; VRef 2; VRef 3; VRef 4; VRef 5;
                              VRef 6]%positive))
       /\ (plainKeys ExampleHost.host Samples.listings "county"
             [VRef 1; VRef 2; VRef 3; VRef 4; VRef 5; VRef 6]%positive ->
           Forall numberPair result
           /\ sumCounts result
              = keyed Samples.listings "county"
                  [VRef 1; VRef 2; VRef 3; VRef 4; VRef 5; VRef 6]%positive).
Proof.
  assert (Harr : arrayElems Samples.listings (VRef 20)
                 = Some [VRef 1; VRef 2; VRef 3; VRef 4; VRef 5;
                         VRef 6]%positive)
    by (vm_compute; reflexivity).
  split; [exact Harr|].
  apply (computeCountyCounts_counts_each_county Samples.builtins
           ExampleHost.host Samples.listings (VRef 20) _ Harr).
  repeat constructor.
Defined.

Lemma computeCountyCounts_largest_first_witness :
  arrayElems Samples.listings (VRef 20)
  = Some [VRef 1; VRef 2; VRef 3; VRef 4; VRef 5; VRef 6]%positive
  /\ plainKeys ExampleHost.host Samples.listings "county"
       [VRef 1; VRef 2; VRef 3; VRef 4; VRef 5; VRef 6]%positive
  /\ exists counties result,
       tally Samples.builtins ExampleHost.host Samples.listings "county"
         [VRef 1; VRef 2; VRef 3; VRef 4; VRef 5; VRef 6]%positive []
       = Normal counties
       /\ computeCountyCounts Samples.builtins ExampleHost.host
            Samples.listings (VRef 20) = Normal result
       /\ Forall numberPair result
       /\ StronglySorted (fun a b => countOf (snd b) <= countOf (snd a))
            result
       /\ forall n,
            List.filter (fun e => countOf (snd e) =? n) result
            = List.filter (fun e => countOf (snd e) =? n) (entries counties).
Proof.
  assert (Harr : arrayElems Samples.listings (VRef 20)
                 = Some [VRef 1; VRef 2; VRef 3; VRef 4; VRef 5;
                         VRef 6]%positive)
    by (vm_compute; reflexivity).
  assert (Hplain : plainKeys ExampleHost.host Samples.listings "county"
                     [VRef 1; VRef 2; VRef 3; VRef 4; VRef 5;
                      VRef 6]%positive).
  { repeat (apply List.Forall_cons;
            [intros _; split; [vm_compute; discriminate|vm_compute; reflexivity]|]).
    apply List.Forall_nil. }
  split; [exact Harr|]. split; [exact Hplain|].
  apply (computeCountyCounts_largest_first Samples.builtins
           ExampleHost.host Samples.listings (VRef 20) _ Harr);
    [repeat constructor|exact Hplain].
Defined.

Lemma computeTypeCounts_counts_each_type_witness :
  arrayElems Samples.listings (VRef 20)
  = Some [VRef 1; VRef 2; VRef 3; VRef 4; VRef 5; VRef 6]%positive
  /\ exists result,
       computeTypeCounts Samples.builtins ExampleHost.host
         Samples.listings (VRef 20) = Normal result
       /\ NoDup (List.map fst result)
       /\ (forall k c,
             In (k, c) result
             <-> 0 < occurrences ExampleHost.host Samples.listings "type" k
                       [VRef 1; VRef 2; VRef 3; VRef 4; VRef 5; VRef 6]%positive
                 /\ k <> protoName
                 /\ c = counterAfter Samples.builtins k
                          (occurrences ExampleHost.host Samples.listings
                             "type" k
                             [VRef 1; VRef 2; VRef 3; VRef 4; VRef 5;
                              VRef 6]%positive))
       /\ (plainKeys ExampleHost.host Samples.listings "type"
             [VRef 1; VRef 2; VRef 3; VRef 4; VRef 5; VRef 6]%positive ->
           Forall numberPair result
           /\ sumCounts result
              = keyed Samples.listings "type"
                  [VRef 1; VRef 2; VRef 3; VRef 4; VRef 5; VRef 6]%positive).
Proof.
  assert (Harr : arrayElems Samples.listings (VRef 20)
                 = Some [VRef 1; VRef 2; VRef 3; VRef 4; VRef 5;
                         VRef 6]%positive)
    by (vm_compute; reflexivity).
  split; [exact Harr|].
  apply (computeTypeCounts_counts_each_type Samples.builtins
           ExampleHost.host Samples.listings (VRef 20) _ Harr).
  repeat constructor.
Defined.

Lemma getFiltered_without_filter_keeps_all_witness :
  getFiltered ExampleHost.deals (VRef 10) (ExampleHost.byBeds "asc")
  = (<[13%positive := CArr [VRef 1; VRef 2; VRef 3]%positive]>
       ExampleHost.deals, Normal (VRef 13))
  /\ exists f elems sorted,
       VRef 13%positive = VRef f
       /\ arrayElems ExampleHost.deals (VRef 10) = Some elems
       /\ (<[13%positive := CArr [VRef 1; VRef 2; VRef 3]%positive]>
             ExampleHost.deals) !! f = Some (CArr sorted)
       /\ Permutation sorted elems
       /\ length sorted = length elems.
Proof.
  assert (H : getFiltered ExampleHost.deals (VRef 10) (ExampleHost.byBeds "asc")
              = (<[13%positive := CArr [VRef 1; VRef 2; VRef 3]%positive]>
                   ExampleHost.deals, Normal (VRef 13)))
    by (vm_compute; reflexivity).
  split; [exact H|].
  apply (getFiltered_without_filter_keeps_all ExampleHost.deals _ (VRef 10) _
           (ExampleHost.byBeds "asc")); [reflexivity|reflexivity|exact H].
Defined.

Lemma getFiltered_idempotent_witness :
  arrayElems ExampleHost.deals (VRef 10)
  = Some [VRef 1; VRef 2; VRef 3]%positive
  /\ exists f sorted f2,
       getFiltered ExampleHost.deals (VRef 10) (ExampleHost.byBeds "desc")
       = (<[f := CArr sorted]> ExampleHost.deals, Normal (VRef f))
       /\ getFiltered (<[f := CArr sorted]> ExampleHost.deals) (VRef f)
            (ExampleHost.byBeds "desc")
          = (<[f2 := CArr sorted]> (<[f := CArr sorted]> ExampleHost.deals),
             Normal (VRef f2)).
Proof.
  assert (H1 : arrayElems ExampleHost.deals (VRef 10)
               = Some [VRef 1; VRef 2; VRef 3]%positive)
    by (vm_compute; reflexivity).
  split; [exact H1|].
  apply (getFiltered_idempotent ExampleHost.deals (VRef 10)
           (ExampleHost.byBeds "desc") _ H1).
  - left.
    apply List.Forall_cons; [right; split; vm_compute; reflexivity|].
    apply List.Forall_cons; [right; split; vm_compute; reflexivity|].
    apply List.Forall_cons; [left; split; vm_compute; reflexivity|].
    apply List.Forall_nil.
  - repeat (apply List.Forall_cons; [vm_compute; exact I|]).
    apply List.Forall_nil.
Defined.

(** ** Agreement with the tests of the other functions *)

Example computeStats_sample :
  computeStats Samples.listings (VRef 20)
  = Normal {| ready := 1; new := 2; hold := 1; high := 0; sold := 1;
              total := 6 |}.
Proof. vm_compute. reflexivity. Qed.

Example computeCountyCounts_sample :
  computeCountyCounts Samples.builtins ExampleHost.host Samples.listings
    (VRef 20)
  = Normal [("Delaware", PNum (ofZ 3)); ("Cambria", PNum (ofZ 2));
            ("Butler", PNum (ofZ 1))].
Proof. vm_compute. reflexivity. Qed.

Example computeTypeCounts_sample :
  computeTypeCounts Samples.builtins ExampleHost.host Samples.listings
    (VRef 20)
  = Normal [("SFH", PNum (ofZ 2)); ("MFH", PNum (ofZ 1));
            ("Lot", PNum (ofZ 1))].
Proof. vm_compute. reflexivity. Qed.

(** The county [__proto__] leaves no pair; the county [constructor] has a
    text for a count, and the list is then left in the order of the host. *)
Example computeCountyCounts_inherited_names :
  computeCountyCounts Samples.builtins ExampleHost.host Samples.oddities
    (VRef 10)
  = Normal [("x", PNum (ofZ 1))]
  /\ computeCountyCounts Samples.builtins ExampleHost.host Samples.oddities
       (VRef 11)
     = Normal [("x", PNum (ofZ 1));
               ("constructor", PStr "function Object() { [native code] }11");
               ("y", PNum (ofZ 2))].
Proof. split; vm_compute; reflexivity. Qed.

Example checkDuplicateProperty_samples :
  checkDuplicateProperty Samples.listings (VRef 20)
    (PStr "105 Mohawk St") (PStr "Bruin") = Normal (VRef 1)
  /\ checkDuplicateProperty Samples.listings (VRef 20)
       (PStr "105 Mohawk") (PStr "Bruin") = Normal (VRef 1)
  /\ checkDuplicateProperty Samples.listings (VRef 20)
       (PStr "105 MOHAWK ST") (PStr "bruin") = Normal (VRef 1)
  /\ checkDuplicateProperty Samples.listings (VRef 20)
       (PStr "105 Mohawk St") (PStr "Chester") = Normal (VPrim PNull)
  /\ checkDuplicateProperty Samples.listings (VRef 20)
       (PStr "999 Unknown Ave") (PStr "Bruin") = Normal (VPrim PNull)
  /\ checkDuplicateProperty Samples.listings (VRef 20)
       (PStr "") (PStr "Bruin") = Normal (VPrim PNull)
  /\ checkDuplicateProperty Samples.listings (VRef 20)
       (PStr "105 Mohawk St") (PStr "") = Normal (VPrim PNull).
Proof. repeat split; vm_compute; reflexivity. Qed.

Example normalizeProperties_sample :
  fieldOf Samples.normalized (VRef 1) "arv" = PStr ""
  /\ fieldOf Samples.normalized (VRef 2) "rehab" = PStr ""
  /\ fieldOf Samples.normalized (VRef 2) "notes" = PStr ""
  /\ fieldOf Samples.normalized (VRef 3) "arv" = PNum (ofZ 200000)
  /\ fieldOf Samples.normalized (VRef 3) "rehab" = PNum (ofZ 40000)
  /\ fieldOf Samples.normalized (VRef 3) "notes" = PStr "Great deal".
Proof. repeat split; vm_compute; reflexivity. Qed.

Example sanitizeInput_sample :
  sanitizeInput (VPrim (PStr "<script>alert(1)</script>"))
  = VPrim (PStr "scriptalert(1)/script").
Proof. reflexivity. Qed.

Example validatePin_samples :
  validatePin (PStr "2365") (PStr "2365") = {| valid := true; error := None |}
  /\ validatePin (PStr "1111") (PStr "2365")
     = {| valid := false; error := Some "Wrong PIN" |}
  /\ validatePin (PStr "23") (PStr "2365")
     = {| valid := false; error := Some "Enter 4 digits" |}
  /\ validatePin (PStr "") (PStr "2365")
     = {| valid := false; error := Some "Enter 4 digits" |}
  /\ validatePin PNull (PStr "2365")
     = {| valid := false; error := Some "Enter 4 digits" |}.
Proof. repeat split; vm_compute; reflexivity. Qed.
